(** * Hemingway: directional adpositions per 10,000 words

    A shallow embedding of the extraction, analysis and comparison scripts
    ([extract_prepositions.py], [analyze_frequency.py], [compare_authors.py])
    and the properties of their data flow.

    Numbers.  The scripts are embedded twice.  In the first embedding a
    float is the extended rational it denotes ([num]): a finite float is a
    rational kept in lowest terms, and the IEEE special values
    (not-a-number, the two infinities) are constructors of their own.  It
    carries the properties in which the rounding of the binary operations
    plays no part: which records, rows, entries, labels and exceptions
    there are, division by zero and not-a-number.  In the second
    embedding, the module [Binary64], a float is the binary64 value
    itself, every operation rounding as the hardware does.  It carries the
    properties that state the value of a rate, of a difference, of a
    quotient or of a comparison with a threshold.

    Library code.  [nltk.word_tokenize] and the floating-point square root
    are parameters of the development; in [Binary64] so are [str.lower],
    the reductions of pandas and the rounding of a NumPy float.  In the
    first embedding the pandas operations the scripts call ([unique],
    boolean-mask selection, [sum], [mean], [std], [min], [max], [pivot])
    are embedded after their documented behaviour. *)

From Stdlib Require Import ZArith QArith Qround List String Ascii Bool Lia.
From Stdlib Require Import Sorted Permutation Lqa Floats.
Import ListNotations.

Local Open Scope string_scope.
Local Open Scope list_scope.
Local Open Scope Z_scope.

(* ================================================================== *)
(** ** Exceptions and the error monad *)

Inductive exn : Type :=
| ZeroDivisionError
| OverflowError
| KeyError (key : string)
| TypeError
| ValueError.

Inductive result (A : Type) : Type :=
| Ok (a : A)
| Raise (e : exn).

Arguments Ok {A} a.
Arguments Raise {A} e.

Definition bind {A B : Type} (m : result A) (k : A -> result B) : result B :=
  match m with
  | Ok a => k a
  | Raise e => Raise e
  end.

Notation "x <- m ;; k" := (bind m (fun x => k))
  (at level 61, m at next level, right associativity).

Notation "' p <- m ;; k" := (bind m (fun x => match x with p => k end))
  (at level 61, p pattern, m at next level, right associativity).

(** A [for] loop whose body may raise: the accumulator is threaded through
    the items from left to right and the first exception ends the loop. *)
Fixpoint foldM {A B : Type} (f : B -> A -> result B) (l : list A) (b : B)
  : result B :=
  match l with
  | [] => Ok b
  | a :: l' => b' <- f b a ;; foldM f l' b'
  end.

(** A comprehension whose element expression may raise. *)
Fixpoint mapM {A B : Type} (f : A -> result B) (l : list A) : result (list B) :=
  match l with
  | [] => Ok []
  | a :: l' => b <- f a ;; bs <- mapM f l' ;; Ok (b :: bs)
  end.

(* ================================================================== *)
(** ** Floats as extended rationals *)

Inductive num : Type :=
| NaN
| PInf
| NInf
| Fin (q : Q).

(** Finite results are stored in lowest terms, so that equal numbers are
    equal terms. *)
Definition fin (q : Q) : num := Fin (Qred q).

Definition of_Z (z : Z) : num := Fin (inject_Z z).

Definition Qltb (a b : Q) : bool := negb (Qle_bool b a).

Definition Qzero (a : Q) : bool := Qeq_bool a 0.

Definition add (x y : num) : num :=
  match x, y with
  | NaN, _ | _, NaN => NaN
  | PInf, NInf | NInf, PInf => NaN
  | PInf, _ | _, PInf => PInf
  | NInf, _ | _, NInf => NInf
  | Fin a, Fin b => fin (a + b)
  end.

Definition sub (x y : num) : num :=
  match x, y with
  | NaN, _ | _, NaN => NaN
  | PInf, PInf | NInf, NInf => NaN
  | PInf, _ | _, NInf => PInf
  | NInf, _ | _, PInf => NInf
  | Fin a, Fin b => fin (a - b)
  end.

(** The product of an infinity of the given sign with a finite factor. *)
Definition inf_times (positive : bool) (b : Q) : num :=
  if Qzero b then NaN
  else if Bool.eqb positive (Qltb 0 b) then PInf else NInf.

Definition mul (x y : num) : num :=
  match x, y with
  | NaN, _ | _, NaN => NaN
  | PInf, PInf | NInf, NInf => PInf
  | PInf, NInf | NInf, PInf => NInf
  | PInf, Fin b | Fin b, PInf => inf_times true b
  | NInf, Fin b | Fin b, NInf => inf_times false b
  | Fin a, Fin b => fin (a * b)
  end.

(** IEEE (NumPy) division: a zero divisor gives an infinity, or
    not-a-number when the dividend is zero as well; it never raises. *)
Definition div (x y : num) : num :=
  match x, y with
  | NaN, _ | _, NaN => NaN
  | PInf, Fin b => if Qltb b 0 then NInf else PInf
  | NInf, Fin b => if Qltb b 0 then PInf else NInf
  | (PInf | NInf), (PInf | NInf) => NaN
  | Fin _, (PInf | NInf) => Fin 0
  | Fin a, Fin b =>
      if Qzero b then
        if Qzero a then NaN else if Qltb 0 a then PInf else NInf
      else fin (a / b)
  end.

(** Comparisons: every comparison with not-a-number is false. *)
Definition ltb (x y : num) : bool :=
  match x, y with
  | NaN, _ | _, NaN => false
  | _, NInf => false
  | NInf, _ => true
  | PInf, _ => false
  | _, PInf => true
  | Fin a, Fin b => Qltb a b
  end.

Definition leb (x y : num) : bool :=
  match x, y with
  | NaN, _ | _, NaN => false
  | NInf, _ => true
  | _, NInf => false
  | _, PInf => true
  | PInf, _ => false
  | Fin a, Fin b => Qle_bool a b
  end.

Definition gtb (x y : num) : bool := ltb y x.
Definition geb (x y : num) : bool := leb y x.

Definition is_nan (x : num) : bool :=
  match x with NaN => true | _ => false end.

(** Rounding to the nearest integer, ties to the even one. *)
Definition round_half_even (q : Q) : Z :=
  let f := Qfloor q in
  match Qcompare (q - inject_Z f) (1 # 2) with
  | Lt => f
  | Gt => f + 1
  | Eq => if Z.even f then f else f + 1
  end.

(** [round(x, 2)] on a float: the nearest multiple of 1/100; the special
    values are returned unchanged. *)
Definition round2 (x : num) : num :=
  match x with
  | Fin q => fin (inject_Z (round_half_even (q * 100)) / 100)
  | _ => x
  end.

(* ================================================================== *)
(** ** Python values and dictionaries *)

Inductive value : Type :=
| VInt (z : Z)
| VNum (x : num)
| VStr (s : string).

(** The built-in [round(v, 2)]: an [int] is returned as it is. *)
Definition py_round (v : value) : result value :=
  match v with
  | VInt z => Ok (VInt z)
  | VNum x => Ok (VNum (round2 x))
  | VStr _ => Raise TypeError
  end.

(** True division of two Python integers. *)
Definition py_truediv (a b : Z) : result num :=
  if b =? 0 then Raise ZeroDivisionError
  else Ok (fin (inject_Z a / inject_Z b)).

(** A [dict] with string keys: insertion ordered, one binding per key. *)
Definition dict (V : Type) : Type := list (string * V).

Fixpoint dict_get {V : Type} (d : dict V) (k : string) : option V :=
  match d with
  | [] => None
  | (k', v) :: d' => if String.eqb k' k then Some v else dict_get d' k
  end.

Definition dict_get_default {V : Type} (d : dict V) (k : string) (dflt : V) : V :=
  match dict_get d k with
  | Some v => v
  | None => dflt
  end.

(** [d[k] = v]: an existing key keeps its position, a new one goes last. *)
Fixpoint dict_set {V : Type} (k : string) (v : V) (d : dict V) : dict V :=
  match d with
  | [] => [(k, v)]
  | (k', v') :: d' =>
      if String.eqb k' k then (k, v) :: d' else (k', v') :: dict_set k v d'
  end.

Definition dict_keys {V : Type} (d : dict V) : list string := map fst d.

Definition mem (k : string) (l : list string) : bool :=
  existsb (String.eqb k) l.

(* ================================================================== *)
(** ** extract_prepositions.py *)

Definition TARGET_ADPOSITIONS : list string :=
  ["across"; "through"; "along"; "past"; "around"; "beyond"].

Definition is_upper (c : ascii) : bool :=
  let n := nat_of_ascii c in (Nat.leb 65 n && Nat.leb n 90)%bool.

(** [str.lower], on the ASCII letters. *)
Definition lower_ascii (c : ascii) : ascii :=
  if is_upper c then ascii_of_nat (nat_of_ascii c + 32) else c.

Fixpoint lower (s : string) : string :=
  match s with
  | EmptyString => EmptyString
  | String c s' => String (lower_ascii c) (lower s')
  end.

(** A corpus file: the stem of its path and its text, [None] when no
    encoding of [read_text_file] decodes it. *)
Record file : Type := mkFile {
  stem : string;
  contents : option string
}.

Definition read_text_file (f : file) : result string :=
  match contents f with
  | Some text => Ok text
  | None => Raise ValueError
  end.

(** [Counter(tokens)]: one pass over the tokens, adding one to the entry of
    each. *)
Definition Counter (tokens : list string) : dict Z :=
  fold_left (fun c t => dict_set t (dict_get_default c t 0 + 1) c) tokens [].

Definition count_adpositions (tokens : list string)
    (target_adpositions : list string) : dict Z :=
  let counter := Counter tokens in
  fold_left (fun d adp => dict_set adp (dict_get_default counter adp 0) d)
            target_adpositions [].

Definition normalize_frequency (counts : dict Z) (total_words : Z)
    (per_n_words : Z) : result (dict value) :=
  if total_words =? 0 then
    Ok (fold_left (fun d '(adp, _) => dict_set adp (VInt 0) d) counts [])
  else
    foldM (fun d '(adp, count) =>
             q <- py_truediv count total_words ;;
             Ok (dict_set adp (VNum (mul q (of_Z per_n_words))) d))
          counts [].

(** The ordered title-to-author table of [get_author_from_filename]. *)
Definition author_mapping : list (string * string) :=
  [ ("Winesburg, Ohio", "Sherwood Anderson");
    ("The Great Gatsby", "F. Scott Fitzgerald");
    ("Manhattan Transfer", "John Dos Passos");
    ("As I Lay Dying", "William Faulkner");
    ("1919", "John Dos Passos");
    ("Of Mice and Men", "John Steinbeck") ].

(** [sub in s] on strings. *)
Fixpoint contains (sub s : string) : bool :=
  match s with
  | EmptyString => String.prefix sub EmptyString
  | String _ s' => String.prefix sub s || contains sub s'
  end.

Fixpoint first_author (mapping : list (string * string)) (filename : string)
  : string :=
  match mapping with
  | [] => "Unknown Author"
  | (work_title, author) :: rest =>
      if contains work_title filename then author
      else first_author rest filename
  end.

Definition get_author_from_filename (filename : string) : string :=
  first_author author_mapping filename.

Section Tokenizer.

(** [nltk.word_tokenize]. *)
Variable word_tokenize : string -> list string.

Definition tokenize_text (text : string) : list string :=
  word_tokenize (lower text).

Definition process_corpus_file (f : file) (author : string)
  : result (dict value) :=
  text <- read_text_file f ;;
  let tokens := tokenize_text text in
  let total_words := Z.of_nat (List.length tokens) in
  let adp_counts := count_adpositions tokens TARGET_ADPOSITIONS in
  normalized_freq <- normalize_frequency adp_counts total_words 10000 ;;
  let results :=
    [("author", VStr author); ("work", VStr (stem f));
     ("total_words", VInt total_words)] in
  let results :=
    fold_left (fun r '(adp, count) =>
                 dict_set (adp ++ "_count")%string (VInt count) r)
              adp_counts results in
  foldM (fun r '(adp, freq) =>
           v <- py_round freq ;;
           Ok (dict_set (adp ++ "_per_10k")%string v r))
        normalized_freq results.

(** The loop of [process_author_corpus] over the [.txt] files of one corpus
    folder; a file whose processing raises is reported and left out. *)
Definition process_author_corpus (txt_files : list file)
    (author_name : string) : list (dict value) :=
  fold_left
    (fun results f =>
       let actual_author :=
         if String.eqb author_name "comparables"
         then get_author_from_filename (stem f)
         else author_name in
       match process_corpus_file f actual_author with
       | Ok r => results ++ [r]
       | Raise _ => results
       end)
    txt_files [].

End Tokenizer.

(* ================================================================== *)
(** ** Data frames *)

(** A row of the raw dataset: the two string columns and the numeric cells
    by column name.  A cell that a row lacks reads as not-a-number. *)
Record row : Type := mkRow {
  r_author : string;
  r_work : string;
  r_cells : dict num
}.

(** [columns] names the numeric columns. *)
Record DataFrame : Type := mkDF {
  columns : list string;
  rows : list row
}.

Definition cell (r : row) (c : string) : num :=
  dict_get_default (r_cells r) c NaN.

(** [df[c]] *)
Definition column (df : DataFrame) (c : string) : result (list num) :=
  if mem c (columns df) then Ok (map (fun r => cell r c) (rows df))
  else Raise (KeyError c).

(** [Series.unique()]: the distinct values in order of first appearance. *)
Definition unique (l : list string) : list string :=
  fold_left (fun seen x => if mem x seen then seen else seen ++ [x]) l [].

(** [df[df['author'] == author]] *)
Definition select_author (df : DataFrame) (author : string) : DataFrame :=
  mkDF (columns df)
       (filter (fun r => String.eqb (r_author r) author) (rows df)).

(** [df[c] = values], the values given row by row. *)
Definition with_column (df : DataFrame) (c : string) (f : row -> num)
  : DataFrame :=
  mkDF (if mem c (columns df) then columns df else columns df ++ [c])
       (map (fun r => mkRow (r_author r) (r_work r)
                            (dict_set c (f r) (r_cells r)))
            (rows df)).

(** Reductions skip not-a-number cells, as pandas does by default. *)
Definition dropna (l : list num) : list num :=
  filter (fun x => negb (is_nan x)) l.

Definition series_sum (l : list num) : num :=
  fold_left add (dropna l) (Fin 0).

Definition series_count (l : list num) : Z :=
  Z.of_nat (List.length (dropna l)).

Definition series_mean (l : list num) : num :=
  div (series_sum l) (of_Z (series_count l)).

Definition num_min (x y : num) : num := if ltb y x then y else x.
Definition num_max (x y : num) : num := if ltb x y then y else x.

Definition series_min (l : list num) : num :=
  match dropna l with
  | [] => NaN
  | x :: l' => fold_left num_min l' x
  end.

Definition series_max (l : list num) : num :=
  match dropna l with
  | [] => NaN
  | x :: l' => fold_left num_max l' x
  end.

Section SquareRoot.

(** The square root of the floating-point library, on the non-negative
    rationals. *)
Variable Qsqrt : Q -> Q.

Definition num_sqrt (x : num) : num :=
  match x with
  | NaN | NInf => NaN
  | PInf => PInf
  | Fin q => if Qltb q 0 then NaN else fin (Qsqrt q)
  end.

(** [Series.std()]: the sample standard deviation (divisor [n - 1]),
    not-a-number for fewer than two observations. *)
Definition series_std (l : list num) : num :=
  let n := series_count l in
  if n <=? 1 then NaN
  else
    let avg := series_mean l in
    let sqr := series_sum (map (fun x => mul (sub avg x) (sub avg x))
                               (dropna l)) in
    num_sqrt (div sqr (of_Z (n - 1))).

(* ================================================================== *)
(** ** analyze_frequency.py *)

(** The statistics of one adposition, added to the author's entry when
    its count column exists. *)
Definition author_adposition_stats (author_df : DataFrame)
    (author_stats : dict value) (adp : string) : result (dict value) :=
  let count_col := (adp ++ "_count")%string in
  let freq_col := (adp ++ "_per_10k")%string in
  if mem count_col (columns author_df) then
    counts <- column author_df count_col ;;
    freqs <- column author_df freq_col ;;
    let total_count := series_sum counts in
    let avg_freq := series_mean freqs in
    let std_freq := series_std freqs in
    let author_stats :=
      dict_set (adp ++ "_total_count")%string (VNum total_count)
               author_stats in
    let author_stats :=
      dict_set (adp ++ "_avg_per_10k")%string (VNum (round2 avg_freq))
               author_stats in
    Ok (dict_set (adp ++ "_std_per_10k")%string (VNum (round2 std_freq))
                 author_stats)
  else Ok author_stats.

Definition author_statistics_row (df : DataFrame)
    (target_adpositions : list string) (author : string)
  : result (dict value) :=
  let author_df := select_author df author in
  total_words <- column author_df "total_words" ;;
  let author_stats :=
    [("author", VStr author);
     ("num_works", VInt (Z.of_nat (List.length (rows author_df))));
     ("total_words", VNum (series_sum total_words));
     ("avg_words_per_work", VNum (series_mean total_words))] in
  foldM (author_adposition_stats author_df) target_adpositions author_stats.

Definition calculate_author_statistics (df : DataFrame)
    (target_adpositions : list string) : result (list (dict value)) :=
  mapM (author_statistics_row df target_adpositions)
       (unique (map r_author (rows df))).

Definition calculate_total_adpositions (df : DataFrame)
    (target_adpositions : list string) : result DataFrame :=
  let count_cols :=
    map (fun adp => (adp ++ "_count")%string) target_adpositions in
  _ <- mapM (column df) count_cols ;;
  let df :=
    with_column df "total_adpositions_count"
      (fun r => series_sum (map (cell r) count_cols)) in
  _ <- column df "total_adpositions_count" ;;
  _ <- column df "total_words" ;;
  Ok (with_column df "total_adpositions_per_10k"
        (fun r => mul (div (cell r "total_adpositions_count")
                           (cell r "total_words"))
                      (of_Z 10000))).

Record FrequencySummaryEntry : Type := mkSummary {
  fs_author : string;
  fs_adposition : string;
  mean_frequency : num;
  std_frequency : num;
  min_frequency : num;
  max_frequency : num
}.

Definition frequency_summary_entry (author_df : DataFrame) (author : string)
    (adp : string) : list FrequencySummaryEntry :=
  let freq_col := (adp ++ "_per_10k")%string in
  if mem freq_col (columns author_df) then
    let freqs := map (fun r => cell r freq_col) (rows author_df) in
    [ mkSummary author adp
        (round2 (series_mean freqs)) (round2 (series_std freqs))
        (round2 (series_min freqs)) (round2 (series_max freqs)) ]
  else [].

Definition create_frequency_summary (df : DataFrame)
    (target_adpositions : list string) : list FrequencySummaryEntry :=
  flat_map
    (fun author =>
       let author_df := select_author df author in
       flat_map (frequency_summary_entry author_df author)
                target_adpositions)
    (unique (map r_author (rows df))).

End SquareRoot.

(* ================================================================== *)
(** ** compare_authors.py *)

(** The author-by-adposition table: the row labels, the column labels and
    the cells that hold a value; any other cell is not-a-number. *)
Record ComparisonMatrix : Type := mkMatrix {
  m_index : list string;
  m_columns : list string;
  m_cells : list ((string * string) * num)
}.

Definition key_eqb (k1 k2 : string * string) : bool :=
  (String.eqb (fst k1) (fst k2) && String.eqb (snd k1) (snd k2))%bool.

Fixpoint lookup_cell (cells : list ((string * string) * num))
    (k : string * string) : option num :=
  match cells with
  | [] => None
  | (k', v) :: rest => if key_eqb k' k then Some v else lookup_cell rest k
  end.

(** [matrix.loc[author, adposition]] *)
Definition loc (m : ComparisonMatrix) (author adposition : string) : num :=
  match lookup_cell (m_cells m) (author, adposition) with
  | Some v => v
  | None => NaN
  end.

Fixpoint insert_sorted (x : string) (l : list string) : list string :=
  match l with
  | [] => [x]
  | y :: l' => if String.leb x y then x :: l else y :: insert_sorted x l'
  end.

Definition sort_labels (l : list string) : list string :=
  fold_right insert_sorted [] l.

Fixpoint has_duplicate (keys : list (string * string)) : bool :=
  match keys with
  | [] => false
  | k :: rest => existsb (key_eqb k) rest || has_duplicate rest
  end.

(** [DataFrame.pivot(index, columns, values)]: the labels of both axes
    sorted, one cell per row of the long table; [ValueError] when two rows
    have the same pair of labels. *)
Definition pivot (labels : list (string * string)) (values : list num)
  : result ComparisonMatrix :=
  if has_duplicate labels then Raise ValueError
  else Ok (mkMatrix (sort_labels (unique (map fst labels)))
                    (sort_labels (unique (map snd labels)))
                    (combine labels values)).

Definition create_comparison_matrix
    (frequency_summary : list FrequencySummaryEntry)
  : result ComparisonMatrix :=
  pivot (map (fun e => (fs_author e, fs_adposition e)) frequency_summary)
        (map mean_frequency frequency_summary).

Record HemingwayComparison : Type := mkComparison {
  hc_author : string;
  hc_adposition : string;
  hemingway_freq : num;
  author_freq : num;
  difference : num;
  ratio : num
}.

Definition compare_cell (m : ComparisonMatrix) (author adposition : string)
  : HemingwayComparison :=
  let hem_freq := loc m "hemingway" adposition in
  let auth_freq := loc m author adposition in
  let diff := sub auth_freq hem_freq in
  let ratio := if gtb hem_freq (Fin 0) then div auth_freq hem_freq else PInf in
  mkComparison author adposition (round2 hem_freq) (round2 auth_freq)
               (round2 diff) (round2 ratio).

(** [None] stands for the [None] the function returns when no row is
    labelled 'hemingway'. *)
Definition compare_to_hemingway (m : ComparisonMatrix)
  : option (list HemingwayComparison) :=
  if negb (mem "hemingway" (m_index m)) then None
  else
    Some (flat_map
            (fun author =>
               if String.eqb author "hemingway" then []
               else map (compare_cell m author) (m_columns m))
            (m_index m)).

Record DistinctiveFeature : Type := mkFeature {
  df_author : string;
  df_adposition : string;
  author_frequency : num;
  others_mean_frequency : num;
  df_ratio : num;
  distinctive_level : string
}.

(** The mean of the column over every row but the author's own. *)
Definition others_mean (m : ComparisonMatrix) (author adposition : string)
  : num :=
  let other_authors :=
    filter (fun a => negb (String.eqb a author)) (m_index m) in
  series_mean (map (fun a => loc m a adposition) other_authors).

Definition distinctive_cell (m : ComparisonMatrix) (threshold : num)
    (author adposition : string) : list DistinctiveFeature :=
  let author_freq := loc m author adposition in
  let other_freq_mean := others_mean m author adposition in
  if gtb other_freq_mean (Fin 0) then
    let ratio := div author_freq other_freq_mean in
    if geb ratio threshold then
      [ mkFeature author adposition (round2 author_freq)
          (round2 other_freq_mean) (round2 ratio)
          (if geb ratio (Fin 2) then "high" else "moderate") ]
    else []
  else [].

Definition identify_distinctive_features (m : ComparisonMatrix)
    (threshold : num) : list DistinctiveFeature :=
  flat_map
    (fun author => flat_map (distinctive_cell m threshold author)
                            (m_columns m))
    (m_index m).

(** The default of the [threshold] argument, 1.5. *)
Definition default_threshold : num := Fin (3 # 2).

(* ================================================================== *)
(** ** The scripts in sequence *)

(** [pd.DataFrame(all_results)], written by [to_csv] and read back by
    [read_csv]: the records as rows, their numeric entries as cells. *)
Definition numeric_cells (record : dict value) : dict num :=
  flat_map (fun '(k, v) =>
              match v with
              | VInt z => [(k, of_Z z)]
              | VNum x => [(k, x)]
              | VStr _ => []
              end)
           record.

Definition record_string (record : dict value) (k : string) : string :=
  match dict_get record k with
  | Some (VStr s) => s
  | _ => EmptyString
  end.

Definition frame_of_records (records : list (dict value)) : DataFrame :=
  mkDF (unique (flat_map (fun r => dict_keys (numeric_cells r)) records))
       (map (fun r => mkRow (record_string r "author")
                            (record_string r "work") (numeric_cells r))
            records).

Section Pipeline.

Variable word_tokenize : string -> list string.
Variable Qsqrt : Q -> Q.

(** [main] of extract_prepositions.py over the two corpus folders. *)
Definition extract_main (hemingway comparables : list file)
  : list (dict value) :=
  process_author_corpus word_tokenize hemingway "hemingway"
  ++ process_author_corpus word_tokenize comparables "comparables".

(** The comparison matrix that [main] of compare_authors.py builds from the
    frequency summary of the raw dataset. *)
Definition corpus_matrix (hemingway comparables : list file)
  : result ComparisonMatrix :=
  let df := frame_of_records (extract_main hemingway comparables) in
  create_comparison_matrix
    (create_frequency_summary Qsqrt df TARGET_ADPOSITIONS).

Definition corpus_distinctive_features (hemingway comparables : list file)
  : result (list DistinctiveFeature) :=
  m <- corpus_matrix hemingway comparables ;;
  Ok (identify_distinctive_features m default_threshold).

End Pipeline.

(* ================================================================== *)
(** ** A tokenizer for the examples *)

Definition is_letter (c : ascii) : bool :=
  let n := nat_of_ascii c in
  ((Nat.leb 65 n && Nat.leb n 90) || (Nat.leb 97 n && Nat.leb n 122))%bool.

Definition is_blank (c : ascii) : bool :=
  let n := nat_of_ascii c in
  (Nat.eqb n 32 || Nat.eqb n 10 || Nat.eqb n 9)%bool.

(** The tokens are collected last first. *)
Definition flush (word : string) (tokens : list string) : list string :=
  match word with
  | EmptyString => tokens
  | _ => word :: tokens
  end.

(** Blanks separate tokens, a run of letters is one token and any other
    character is a token of its own, which is what [word_tokenize] returns
    on the plain texts of the examples below. *)
Fixpoint split_tokens (s : string) (word : string) (tokens : list string)
  : list string :=
  match s with
  | EmptyString => rev (flush word tokens)
  | String c s' =>
      if is_letter c then split_tokens s' (word ++ String c EmptyString) tokens
      else if is_blank c then split_tokens s' EmptyString (flush word tokens)
      else split_tokens s' EmptyString
                        (String c EmptyString :: flush word tokens)
  end.

Definition split_tokenize (text : string) : list string :=
  split_tokens text EmptyString [].

(** A text of [n] copies of a word, each followed by a blank. *)
Fixpoint words (n : nat) (w : string) : string :=
  match n with
  | O => EmptyString
  | S n' => (w ++ " " ++ words n' w)%string
  end.

(** A square root for the examples, exact on the squares of integers. *)
Definition isqrt (q : Q) : Q := inject_Z (Z.sqrt (Qfloor q)).

(** A raw dataset of three works of one author, with 1, 2 and 3
    occurrences of "across" in 10,000 words each. *)
Definition three_works : DataFrame :=
  mkDF ["total_words"; "across_count"; "across_per_10k"]
       [ mkRow "hemingway" "one"
           [("total_words", Fin 10000); ("across_count", Fin 1);
            ("across_per_10k", Fin 1)];
         mkRow "hemingway" "two"
           [("total_words", Fin 10000); ("across_count", Fin 2);
            ("across_per_10k", Fin 2)];
         mkRow "hemingway" "three"
           [("total_words", Fin 10000); ("across_count", Fin 3);
            ("across_per_10k", Fin 3)] ].

(** The raw dataset of a corpus whose only document is empty. *)
Definition blank_corpus : DataFrame :=
  frame_of_records
    (extract_main split_tokenize [mkFile "blank" (Some EmptyString)] []).

(** A matrix of two authors, neither of them Hemingway. *)
Definition alpha_beta : ComparisonMatrix :=
  mkMatrix ["alpha"; "beta"] ["across"]
           [(("alpha", "across"), Fin 5); (("beta", "across"), Fin 0)].

(** Three authors with the rates 10, 2 and 2 for one adposition. *)
Definition ten_two_two : ComparisonMatrix :=
  mkMatrix ["anderson"; "faulkner"; "hemingway"] ["across"]
           [(("anderson", "across"), Fin 10);
            (("faulkner", "across"), Fin 2);
            (("hemingway", "across"), Fin 2)].

(** A corpus of two works: one occurrence of "across" in 688 words by
    Hemingway, two in 2065 words by Steinbeck. *)
Definition short_work : file :=
  mkFile "short" (Some (words 1 "across" ++ words 687 "the")%string).

Definition long_work : file :=
  mkFile "Of Mice and Men"
         (Some (words 2 "across" ++ words 2063 "the")%string).

Definition two_works : list (string * list string) :=
  [ ("hemingway",
     tokenize_text split_tokenize (words 1 "across" ++ words 687 "the"));
    ("John Steinbeck",
     tokenize_text split_tokenize (words 2 "across" ++ words 2063 "the")) ].

(* ================================================================== *)
(** ** More of the scripts *)

(** The encodings that [read_text_file] tries, in its order. *)
Inductive encoding : Type :=
| utf_8
| latin_1
| iso_8859_1
| cp1252.

Definition encodings : list encoding := [utf_8; latin_1; iso_8859_1; cp1252].

Section Decoding.

(** [open(filepath, 'r', encoding=e).read()] on a file of the given bytes:
    the text, or [None] for [UnicodeDecodeError]. *)
Variable decode : encoding -> string -> option string.

(** The loop of [read_text_file] over the encodings, and the [ValueError]
    after it. *)
Fixpoint first_decoding (encs : list encoding) (bytes : string)
  : result string :=
  match encs with
  | [] => Raise ValueError
  | e :: rest =>
      match decode e bytes with
      | Some text => Ok text
      | None => first_decoding rest bytes
      end
  end.

Definition read_text_bytes (bytes : string) : result string :=
  first_decoding encodings bytes.

End Decoding.

(** [Series.sort_values(ascending=False)] on a column of the matrix:
    greater values first, not-a-number values last.  Values that compare
    equal are kept in the order of the index here; pandas does not fix
    their order. *)
Definition ranks_before (x y : string * num) : bool :=
  (is_nan (snd y) || (negb (is_nan (snd x)) && geb (snd x) (snd y)))%bool.

Fixpoint insert_ranked (x : string * num) (l : list (string * num))
  : list (string * num) :=
  match l with
  | [] => [x]
  | y :: l' => if ranks_before x y then x :: l else y :: insert_ranked x l'
  end.

Definition sort_values_descending (l : list (string * num))
  : list (string * num) :=
  fold_right insert_ranked [] l.

(** [Series.to_dict()] *)
Definition to_dict (l : list (string * num)) : dict num :=
  fold_left (fun d '(k, v) => dict_set k v d) l [].

Definition calculate_author_rankings (m : ComparisonMatrix)
  : dict (dict num) :=
  fold_left
    (fun rankings adposition =>
       let sorted_authors :=
         sort_values_descending
           (map (fun a => (a, loc m a adposition)) (m_index m)) in
       dict_set adposition (to_dict sorted_authors) rankings)
    (m_columns m) [].

(** A decoder for the examples: UTF-8 restricted to the texts whose bytes
    are all below 128, Latin-1 as the identity on bytes. *)
Definition ascii_byte (c : ascii) : bool := Nat.ltb (nat_of_ascii c) 128.

Definition example_decode (e : encoding) (bytes : string) : option string :=
  match e with
  | utf_8 | cp1252 =>
      if forallb ascii_byte (list_ascii_of_string bytes) then Some bytes
      else None
  | latin_1 | iso_8859_1 => Some bytes
  end.

(** A raw dataset of two authors in three rows. *)
Definition two_authors : DataFrame :=
  mkDF ["total_words"; "across_count"; "across_per_10k"]
       [ mkRow "hemingway" "one"
           [("total_words", Fin 10000); ("across_count", Fin 1);
            ("across_per_10k", Fin 1)];
         mkRow "faulkner" "two"
           [("total_words", Fin 20000); ("across_count", Fin 4);
            ("across_per_10k", Fin 2)];
         mkRow "hemingway" "three"
           [("total_words", Fin 10000); ("across_count", Fin 3);
            ("across_per_10k", Fin 3)] ].

(** A raw dataset with the count column of "across" but not its rate. *)
Definition counts_only : DataFrame :=
  mkDF ["total_words"; "across_count"]
       [ mkRow "hemingway" "one"
           [("total_words", Fin 10000); ("across_count", Fin 1)] ].

(* ================================================================== *)
(** ** The specification's wording, for comparison *)

(** The tokens as the specification describes them: the maximal runs of
    letters of the text, nothing else being a token. *)
Fixpoint spec_word_runs_from (s : string) (word : string)
    (tokens : list string) : list string :=
  match s with
  | EmptyString => rev (flush word tokens)
  | String c s' =>
      if is_letter c
      then spec_word_runs_from s' (word ++ String c EmptyString) tokens
      else spec_word_runs_from s' EmptyString (flush word tokens)
  end.

Definition spec_word_runs (text : string) : list string :=
  spec_word_runs_from text EmptyString [].

(** The rate of the specification's WorkRecord: occurrences per 10,000
    words, not rounded, and 0 for a work without words. *)
Definition spec_rate (count total_words : Z) : num :=
  if total_words =? 0 then Fin 0
  else fin (inject_Z count / inject_Z total_words * 10000).

Definition occurrences (tokens : list string) (adp : string) : Z :=
  Z.of_nat (count_occ string_dec tokens adp).

(** The rate as the raw dataset holds it: rounded to two decimals. *)
Definition stored_rate (count total_words : Z) : value :=
  if total_words =? 0 then VInt 0
  else VNum (round2 (spec_rate count total_words)).

(** [sub in s], as a proposition. *)
Definition substring_of (sub s : string) : Prop :=
  exists before after : string, s = (before ++ sub ++ after)%string.

(** The decision of the detector on a cell, without the rounded fields. *)
Definition flagged (features : list DistinctiveFeature)
  : list (string * string * string) :=
  map (fun f => (df_author f, df_adposition f, distinctive_level f)) features.

(* ================================================================== *)
(** * The scripts over binary64 floats *)

(** The extraction, the frequency summary and the comparison once more,
    with a float as the binary64 value that Python and NumPy hold: every
    operation returns the float nearest to its exact result, ties going to
    the even mantissa.  [float] is the primitive type of the format and
    [spec_float] its specification, so the definitions evaluate to the
    floats the scripts store: 17 occurrences in 3,200 words have the rate
    53.125000000000007 and are stored as 53.13.

    [str.lower], the tokenizer, the reductions of pandas ([mean], [std],
    [min], [max]) and [round] on a NumPy float are parameters; the
    built-in [round] on a Python float is defined. *)

Module Binary64.

(** ** Integers and floats *)

(** A Python integer as an operand that has not been rounded: its absolute
    value as the mantissa, at exponent 0. *)
Definition Z2SF (z : Z) : spec_float :=
  match z with
  | Z0 => S754_zero false
  | Zpos m => S754_finite false m 0
  | Zneg m => S754_finite true m 0
  end.

(** [float(n)], the conversion that [x * n] applies to an integer operand:
    the nearest float, and [OverflowError] beyond the range of floats. *)
Definition py_float (n : Z) : result float :=
  match binary_normalize prec emax n 0 false with
  | S754_infinity _ => Raise OverflowError
  | x => Ok (SF2Prim x)
  end.

(** The quotient of two integers, rounded once. *)
Definition quotient (a b : Z) : spec_float :=
  SFdiv prec emax (Z2SF a) (Z2SF b).

(** Zero or a finite float. *)
Definition representable (x : spec_float) : bool :=
  match x with
  | S754_zero _ | S754_finite _ _ _ => true
  | _ => false
  end.

(** [a / b] on two Python integers: the float nearest to the quotient,
    [ZeroDivisionError] for a zero divisor and [OverflowError] for a
    quotient beyond the range of floats. *)
Definition py_truediv (a b : Z) : result float :=
  if b =? 0 then Raise ZeroDivisionError
  else if representable (quotient a b) then Ok (SF2Prim (quotient a b))
  else Raise OverflowError.

(** A hundred times the value [m * 2 ^ e], exactly. *)
Definition exact100 (m : positive) (e : Z) : Q :=
  match e with
  | Zneg p => (Zpos m * 100) # (2 ^ p)
  | _ => inject_Z (Zpos m * 100 * 2 ^ e)
  end.

(** The float nearest to [k / 100], with the given sign: the decimal
    digits of a rounded value read back as a float. *)
Definition cents (negative : bool) (k : Z) : float :=
  match k with
  | Zpos m => SF2Prim (SFdiv prec emax (S754_finite negative m 0)
                             (S754_finite false 100 0))
  | _ => SF2Prim (S754_zero negative)
  end.

(** The built-in [round(x, 2)] on a Python float: the exact value of [x]
    is rounded to the nearest multiple of 1/100, ties to the even one, and
    the result is the float nearest to that decimal; an infinity and
    not-a-number are returned as they are. *)
Definition py_round2 (x : float) : float :=
  match Prim2SF x with
  | S754_finite s m e => cents s (round_half_even (exact100 m e))
  | _ => x
  end.

(** ** Python values *)

Inductive value : Type :=
| VInt (z : Z)
| VFloat (x : float)
| VStr (s : string).

(** The built-in [round(v, 2)]: an [int] is returned as it is. *)
Definition py_round (v : value) : result value :=
  match v with
  | VInt z => Ok (VInt z)
  | VFloat x => Ok (VFloat (py_round2 x))
  | VStr _ => Raise TypeError
  end.

(** ** extract_prepositions.py *)

Definition normalize_frequency (counts : dict Z) (total_words : Z)
    (per_n_words : Z) : result (dict value) :=
  if total_words =? 0 then
    Ok (fold_left (fun d '(adp, _) => dict_set adp (VInt 0) d) counts [])
  else
    foldM (fun d '(adp, count) =>
             q <- py_truediv count total_words ;;
             n <- py_float per_n_words ;;
             Ok (dict_set adp (VFloat (q * n)%float) d))
          counts [].

(** The rate as the record of a work holds it: the integer 0 for a work
    without words, otherwise the rate per 10,000 words rounded to two
    decimals. *)
Definition stored_rate (count total_words : Z) : value :=
  if total_words =? 0 then VInt 0
  else VFloat (py_round2 (SF2Prim (quotient count total_words) * 10000)%float).

Section Text.

(** [str.lower] and [nltk.word_tokenize]. *)
Variable str_lower : string -> string.
Variable word_tokenize : string -> list string.

Definition tokenize_text (text : string) : list string :=
  word_tokenize (str_lower text).

Definition process_corpus_file (f : file) (author : string)
  : result (dict value) :=
  text <- read_text_file f ;;
  let tokens := tokenize_text text in
  let total_words := Z.of_nat (List.length tokens) in
  let adp_counts := count_adpositions tokens TARGET_ADPOSITIONS in
  normalized_freq <- normalize_frequency adp_counts total_words 10000 ;;
  let results :=
    [("author", VStr author); ("work", VStr (stem f));
     ("total_words", VInt total_words)] in
  let results :=
    fold_left (fun r '(adp, count) =>
                 dict_set (adp ++ "_count")%string (VInt count) r)
              adp_counts results in
  foldM (fun r '(adp, freq) =>
           v <- py_round freq ;;
           Ok (dict_set (adp ++ "_per_10k")%string v r))
        normalized_freq results.

(** The loop of [process_author_corpus] over the [.txt] files of one corpus
    folder; a file whose processing raises is reported and left out. *)
Definition process_author_corpus (txt_files : list file)
    (author_name : string) : list (dict value) :=
  fold_left
    (fun results f =>
       let actual_author :=
         if String.eqb author_name "comparables"
         then get_author_from_filename (stem f)
         else author_name in
       match process_corpus_file f actual_author with
       | Ok r => results ++ [r]
       | Raise _ => results
       end)
    txt_files [].

(** [main] of extract_prepositions.py over the two corpus folders. *)
Definition extract_main (hemingway comparables : list file)
  : list (dict value) :=
  process_author_corpus hemingway "hemingway"
  ++ process_author_corpus comparables "comparables".

End Text.

(** ** Data frames *)

(** A row of the raw dataset: the two string columns and the numeric cells
    by column name.  A cell that a row lacks reads as not-a-number. *)
Record row : Type := mkRow {
  r_author : string;
  r_work : string;
  r_cells : dict float
}.

(** [columns] names the numeric columns. *)
Record DataFrame : Type := mkDF {
  columns : list string;
  rows : list row
}.

Definition cell (r : row) (c : string) : float :=
  dict_get_default (r_cells r) c nan.

(** [df[df['author'] == author]] *)
Definition select_author (df : DataFrame) (author : string) : DataFrame :=
  mkDF (columns df)
       (filter (fun r => String.eqb (r_author r) author) (rows df)).

(** A numeric entry of a record as the cell of a float column: an integer
    becomes the float of the same value. *)
Definition numeric_cells (record : dict value) : dict float :=
  flat_map (fun '(k, v) =>
              match v with
              | VInt z => [(k, SF2Prim (binary_normalize prec emax z 0 false))]
              | VFloat x => [(k, x)]
              | VStr _ => []
              end)
           record.

Definition record_string (record : dict value) (k : string) : string :=
  match dict_get record k with
  | Some (VStr s) => s
  | _ => EmptyString
  end.

(** [pd.DataFrame(all_results)], written by [to_csv] and read back by
    [read_csv]: the records as rows, their numeric entries as cells, a
    float being read back as the float that was written. *)
Definition frame_of_records (records : list (dict value)) : DataFrame :=
  mkDF (unique (flat_map (fun r => dict_keys (numeric_cells r)) records))
       (map (fun r => mkRow (record_string r "author")
                            (record_string r "work") (numeric_cells r))
            records).

(** ** The frequency summary and the comparison matrix *)

Record FrequencySummaryEntry : Type := mkSummary {
  fs_author : string;
  fs_adposition : string;
  mean_frequency : float;
  std_frequency : float;
  min_frequency : float;
  max_frequency : float
}.

(** The author-by-adposition table: the row labels, the column labels and
    the cells that hold a value; any other cell is not-a-number. *)
Record ComparisonMatrix : Type := mkMatrix {
  m_index : list string;
  m_columns : list string;
  m_cells : list ((string * string) * float)
}.

Fixpoint lookup_cell (cells : list ((string * string) * float))
    (k : string * string) : option float :=
  match cells with
  | [] => None
  | (k', v) :: rest => if key_eqb k' k then Some v else lookup_cell rest k
  end.

(** [matrix.loc[author, adposition]] *)
Definition loc (m : ComparisonMatrix) (author adposition : string) : float :=
  match lookup_cell (m_cells m) (author, adposition) with
  | Some v => v
  | None => nan
  end.

(** [DataFrame.pivot(index, columns, values)]: the labels of both axes
    sorted, one cell per row of the long table; [ValueError] when two rows
    have the same pair of labels. *)
Definition pivot (labels : list (string * string)) (values : list float)
  : result ComparisonMatrix :=
  if has_duplicate labels then Raise ValueError
  else Ok (mkMatrix (sort_labels (unique (map fst labels)))
                    (sort_labels (unique (map snd labels)))
                    (combine labels values)).

(** A summary without entries is the frame without columns that
    [pd.DataFrame([])] builds, in which [pivot] finds no 'author'. *)
Definition create_comparison_matrix
    (frequency_summary : list FrequencySummaryEntry)
  : result ComparisonMatrix :=
  match frequency_summary with
  | [] => Raise (KeyError "author")
  | _ =>
      pivot (map (fun e => (fs_author e, fs_adposition e)) frequency_summary)
            (map mean_frequency frequency_summary)
  end.

Record HemingwayComparison : Type := mkComparison {
  hc_author : string;
  hc_adposition : string;
  hemingway_freq : float;
  author_freq : float;
  difference : float;
  ratio : float
}.

Record DistinctiveFeature : Type := mkFeature {
  df_author : string;
  df_adposition : string;
  author_frequency : float;
  others_mean_frequency : float;
  df_ratio : float;
  distinctive_level : string
}.

(** A float at run time is a NumPy scalar, as the cells of a frame and
    what is computed from them are, or a built-in float, as [np.inf] is. *)
Inductive scalar : Type :=
| Np (x : float)
| Py (x : float).

Section Library.

(** [round(x, 2)] on a NumPy float. *)
Variable np_round2 : float -> float.

(** [Series.mean()], [Series.std()], [Series.min()] and [Series.max()] on
    the values of a float column. *)
Variable series_mean : list float -> float.
Variable series_std : list float -> float.
Variable series_min : list float -> float.
Variable series_max : list float -> float.

(** [round(v, 2)] calls the rounding of the type of [v]. *)
Definition round_scalar (v : scalar) : float :=
  match v with
  | Np x => np_round2 x
  | Py x => py_round2 x
  end.

(** *** analyze_frequency.py *)

Definition frequency_summary_entry (author_df : DataFrame) (author : string)
    (adp : string) : list FrequencySummaryEntry :=
  let freq_col := (adp ++ "_per_10k")%string in
  if mem freq_col (columns author_df) then
    let freqs := map (fun r => cell r freq_col) (rows author_df) in
    [ mkSummary author adp
        (np_round2 (series_mean freqs)) (np_round2 (series_std freqs))
        (np_round2 (series_min freqs)) (np_round2 (series_max freqs)) ]
  else [].

Definition create_frequency_summary (df : DataFrame)
    (target_adpositions : list string) : list FrequencySummaryEntry :=
  flat_map
    (fun author =>
       let author_df := select_author df author in
       flat_map (frequency_summary_entry author_df author)
                target_adpositions)
    (unique (map r_author (rows df))).

(** *** compare_authors.py *)

Definition compare_cell (m : ComparisonMatrix) (author adposition : string)
  : HemingwayComparison :=
  let hem_freq := loc m "hemingway" adposition in
  let auth_freq := loc m author adposition in
  let diff := (auth_freq - hem_freq)%float in
  let ratio :=
    if (0 <? hem_freq)%float then Np (auth_freq / hem_freq)%float
    else Py infinity in
  mkComparison author adposition (np_round2 hem_freq) (np_round2 auth_freq)
               (np_round2 diff) (round_scalar ratio).

(** [None] stands for the [None] the function returns when no row is
    labelled 'hemingway'. *)
Definition compare_to_hemingway (m : ComparisonMatrix)
  : option (list HemingwayComparison) :=
  if negb (mem "hemingway" (m_index m)) then None
  else
    Some (flat_map
            (fun author =>
               if String.eqb author "hemingway" then []
               else map (compare_cell m author) (m_columns m))
            (m_index m)).

(** The mean of the column over every row but the author's own. *)
Definition others_mean (m : ComparisonMatrix) (author adposition : string)
  : float :=
  let other_authors :=
    filter (fun a => negb (String.eqb a author)) (m_index m) in
  series_mean (map (fun a => loc m a adposition) other_authors).

Definition distinctive_cell (m : ComparisonMatrix) (threshold : float)
    (author adposition : string) : list DistinctiveFeature :=
  let author_freq := loc m author adposition in
  let other_freq_mean := others_mean m author adposition in
  if (0 <? other_freq_mean)%float then
    let ratio := (author_freq / other_freq_mean)%float in
    if (threshold <=? ratio)%float then
      [ mkFeature author adposition (np_round2 author_freq)
          (np_round2 other_freq_mean) (np_round2 ratio)
          (if (2 <=? ratio)%float then "high" else "moderate") ]
    else []
  else [].

Definition identify_distinctive_features (m : ComparisonMatrix)
    (threshold : float) : list DistinctiveFeature :=
  flat_map
    (fun author => flat_map (distinctive_cell m threshold author)
                            (m_columns m))
    (m_index m).

(** *** The scripts in sequence *)

Variable str_lower : string -> string.
Variable word_tokenize : string -> list string.

(** The comparison matrix that [main] of compare_authors.py builds from the
    frequency summary of the raw dataset. *)
Definition corpus_matrix (hemingway comparables : list file)
  : result ComparisonMatrix :=
  let df :=
    frame_of_records
      (extract_main str_lower word_tokenize hemingway comparables) in
  create_comparison_matrix (create_frequency_summary df TARGET_ADPOSITIONS).

End Library.

(** The default of the [threshold] argument, 1.5. *)
Definition default_threshold : float := 1.5%float.

(** ** Rankings *)

(** [Series.sort_values(ascending=False)] on a column of the matrix:
    greater values first, not-a-number values last.  Values that compare
    equal are kept in the order of the index here; pandas does not fix
    their order. *)
Definition ranks_before (x y : string * float) : bool :=
  (PrimFloat.is_nan (snd y)
   || (negb (PrimFloat.is_nan (snd x)) && (snd y <=? snd x)%float))%bool.

Fixpoint insert_ranked (x : string * float) (l : list (string * float))
  : list (string * float) :=
  match l with
  | [] => [x]
  | y :: l' => if ranks_before x y then x :: l else y :: insert_ranked x l'
  end.

Definition sort_values_descending (l : list (string * float))
  : list (string * float) :=
  fold_right insert_ranked [] l.

(** [Series.to_dict()] *)
Definition to_dict (l : list (string * float)) : dict float :=
  fold_left (fun d '(k, v) => dict_set k v d) l [].

Definition calculate_author_rankings (m : ComparisonMatrix)
  : dict (dict float) :=
  fold_left
    (fun rankings adposition =>
       let sorted_authors :=
         sort_values_descending
           (map (fun a => (a, loc m a adposition)) (m_index m)) in
       dict_set adposition (to_dict sorted_authors) rankings)
    (m_columns m) [].

(** ** Library code for the examples *)

(** Rounding to the nearest integer, ties to the even one; a float with a
    non-negative exponent is an integer already. *)
Definition rint (x : float) : float :=
  match Prim2SF x with
  | S754_finite s m (Zneg p) =>
      match round_half_even (Zpos m # 2 ^ p) with
      | Zpos k => SF2Prim (binary_normalize prec emax
                             (if s then Zneg k else Zpos k) 0 false)
      | _ => SF2Prim (S754_zero s)
      end
  | _ => x
  end.

(** Rounding to two decimals as NumPy does it: scale by a hundred, round
    to the nearest integer and scale back. *)
Definition scaled_round2 (x : float) : float := (rint (x * 100) / 100)%float.

(** The values of a column that are numbers; pandas leaves the others out
    of a reduction. *)
Definition dropna (l : list float) : list float :=
  filter (fun x => negb (PrimFloat.is_nan x)) l.

(** The mean as the sum from left to right divided by the number of
    values, not-a-number when there is none. *)
Definition mean_of (l : list float) : float :=
  (fold_left PrimFloat.add (dropna l) 0
   / SF2Prim (binary_normalize prec emax
                (Z.of_nat (List.length (dropna l))) 0 false))%float.

(** The sample standard deviation: the square root of the sum of the
    squared distances to the mean divided by [n - 1], not-a-number for
    fewer than two values. *)
Definition std_of (l : list float) : float :=
  let n := Z.of_nat (List.length (dropna l)) in
  if n <=? 1 then nan
  else
    let avg := mean_of l in
    let sqr :=
      fold_left PrimFloat.add
                (map (fun x => ((avg - x) * (avg - x))%float) (dropna l))
                0%float in
    PrimFloat.sqrt
      (sqr / SF2Prim (binary_normalize prec emax (n - 1) 0 false))%float.

Definition min_of (l : list float) : float :=
  match dropna l with
  | [] => nan
  | x :: l' => fold_left (fun a b => if (b <? a)%float then b else a) l' x
  end.

Definition max_of (l : list float) : float :=
  match dropna l with
  | [] => nan
  | x :: l' => fold_left (fun a b => if (a <? b)%float then b else a) l' x
  end.

End Binary64.

(** ** Examples over binary64 floats *)

(** Three authors with the rates 10, 2 and 2 for one adposition. *)
Definition float_ten_two_two : Binary64.ComparisonMatrix :=
  Binary64.mkMatrix ["anderson"; "faulkner"; "hemingway"] ["across"]
    [(("anderson", "across"), 10%float);
     (("faulkner", "across"), 2%float);
     (("hemingway", "across"), 2%float)].

(** Two authors with the rates 0.15 and 0.10: the quotient of the two
    floats is 1.4999999999999998. *)
Definition fifteen_to_ten : Binary64.ComparisonMatrix :=
  Binary64.mkMatrix ["anderson"; "hemingway"] ["across"]
    [(("anderson", "across"), (15 / 100)%float);
     (("hemingway", "across"), (10 / 100)%float)].

(** Three authors with the rates 0.06, 0.01 and 0.05: the mean of the last
    two floats is 0.030000000000000002, and the quotient of the first by it
    is 1.9999999999999998. *)
Definition six_one_five : Binary64.ComparisonMatrix :=
  Binary64.mkMatrix ["anderson"; "faulkner"; "hemingway"] ["across"]
    [(("anderson", "across"), (6 / 100)%float);
     (("faulkner", "across"), (1 / 100)%float);
     (("hemingway", "across"), (5 / 100)%float)].

(** Rates of Faulkner and Hemingway for three adpositions. *)
Definition faulkner_hemingway : Binary64.ComparisonMatrix :=
  Binary64.mkMatrix ["faulkner"; "hemingway"] ["across"; "along"; "past"]
    [(("faulkner", "across"), (251 / 100)%float);
     (("faulkner", "along"), (47 / 100)%float);
     (("faulkner", "past"), (75 / 100)%float);
     (("hemingway", "across"), (15 / 10)%float);
     (("hemingway", "along"), (8 / 100)%float);
     (("hemingway", "past"), 0%float)].

(** A matrix in which an author's rate is a third of Hemingway's. *)
Definition float_one_to_three : Binary64.ComparisonMatrix :=
  Binary64.mkMatrix ["fitzgerald"; "hemingway"] ["across"]
    [(("fitzgerald", "across"), 1%float);
     (("hemingway", "across"), 3%float)].

(** The comparison matrix that the scripts build for the two works
    [short_work] and [long_work]. *)
Definition float_two_works_matrix : Binary64.ComparisonMatrix :=
  Binary64.mkMatrix
    ["John Steinbeck"; "hemingway"]
    ["across"; "along"; "around"; "beyond"; "past"; "through"]
    [ (("hemingway", "across"), (1453 / 100)%float);
      (("hemingway", "through"), 0%float);
      (("hemingway", "along"), 0%float);
      (("hemingway", "past"), 0%float);
      (("hemingway", "around"), 0%float);
      (("hemingway", "beyond"), 0%float);
      (("John Steinbeck", "across"), (969 / 100)%float);
      (("John Steinbeck", "through"), 0%float);
      (("John Steinbeck", "along"), 0%float);
      (("John Steinbeck", "past"), 0%float);
      (("John Steinbeck", "around"), 0%float);
      (("John Steinbeck", "beyond"), 0%float) ].

(** A raw dataset of two authors in three rows, and one without rows. *)
Definition float_two_authors : Binary64.DataFrame :=
  Binary64.mkDF ["total_words"; "across_count"; "across_per_10k"]
    [ Binary64.mkRow "hemingway" "one"
        [("total_words", 10000%float); ("across_count", 1%float);
         ("across_per_10k", 1%float)];
      Binary64.mkRow "faulkner" "two"
        [("total_words", 20000%float); ("across_count", 4%float);
         ("across_per_10k", 2%float)];
      Binary64.mkRow "hemingway" "three"
        [("total_words", 10000%float); ("across_count", 3%float);
         ("across_per_10k", 3%float)] ].

Definition float_no_rows : Binary64.DataFrame :=
  Binary64.mkDF ["total_words"; "across_count"; "across_per_10k"] [].

(** Two works of one author with the rates 0.10 and 0.11, whose float mean
    is 0.10500000000000001. *)
Definition ten_eleven : Binary64.DataFrame :=
  Binary64.mkDF ["across_per_10k"]
    [ Binary64.mkRow "hemingway" "one"
        [("across_per_10k", (10 / 100)%float)];
      Binary64.mkRow "hemingway" "two"
        [("across_per_10k", (11 / 100)%float)] ].

(** ** The specification's wording over binary64 floats *)

(** A text of ASCII characters only; on such a text [str.lower] changes
    the capital letters A to Z and nothing else. *)
Definition ascii_text (text : string) : bool :=
  forallb ascii_byte (list_ascii_of_string text).

(** The rate of the specification's WorkRecord: occurrences per 10,000
    words, not rounded, and 0 for a work without words. *)
Definition float_spec_rate (count total_words : Z) : float :=
  if total_words =? 0 then 0%float
  else (SF2Prim (Binary64.quotient count total_words) * 10000)%float.

(** The comparison matrix of the specification for a corpus of tokenized
    works, each with its author: a cell is the mean of the unrounded rates
    of the author's works. *)
Definition float_spec_matrix (series_mean : list float -> float)
    (works : list (string * list string)) : Binary64.ComparisonMatrix :=
  let authors := unique (map fst works) in
  Binary64.mkMatrix (sort_labels authors) (sort_labels TARGET_ADPOSITIONS)
    (flat_map
       (fun author =>
          map (fun adp =>
                 ((author, adp),
                  series_mean
                    (map (fun w =>
                            float_spec_rate (occurrences (snd w) adp)
                                            (Z.of_nat (List.length (snd w))))
                         (filter (fun w => String.eqb (fst w) author)
                                 works))))
              TARGET_ADPOSITIONS)
       authors).

(** The decision of the detector on a cell, without the rounded fields. *)
Definition float_flagged (features : list Binary64.DistinctiveFeature)
  : list (string * string * string) :=
  map (fun f => (Binary64.df_author f, Binary64.df_adposition f,
                 Binary64.distinctive_level f))
      features.

(* ================================================================== *)
(** * Properties *)

(** ** Dictionaries *)

Lemma dict_get_set_eq {V : Type} (d : dict V) (k : string) (v : V) :
  dict_get (dict_set k v d) k = Some v.
Proof.
  induction d as [|[k' v'] d IH]; simpl.
  - now rewrite String.eqb_refl.
  - destruct (String.eqb k' k) eqn:E; simpl.
    + now rewrite String.eqb_refl.
    + now rewrite E.
Qed.

Lemma dict_get_set_ne {V : Type} (d : dict V) (k k' : string) (v : V) :
  k <> k' -> dict_get (dict_set k v d) k' = dict_get d k'.
Proof.
  intros Hne. induction d as [|[k0 v0] d IH]; simpl.
  - apply String.eqb_neq in Hne. now rewrite Hne.
  - destruct (String.eqb k0 k) eqn:E; simpl.
    + apply String.eqb_eq in E. subst k0.
      apply String.eqb_neq in Hne. now rewrite Hne.
    + destruct (String.eqb k0 k'); [reflexivity | exact IH].
Qed.

Lemma dict_get_set {V : Type} (d : dict V) (k k' : string) (v : V) :
  dict_get (dict_set k v d) k' =
  if String.eqb k k' then Some v else dict_get d k'.
Proof.
  destruct (String.eqb_spec k k') as [->|Hne].
  - apply dict_get_set_eq.
  - now apply dict_get_set_ne.
Qed.

Lemma mem_In (k : string) (l : list string) : mem k l = true <-> In k l.
Proof.
  unfold mem. rewrite existsb_exists. split.
  - intros [x [Hin Heq]]. apply String.eqb_eq in Heq. now subst.
  - intros Hin. exists k. split; [exact Hin | apply String.eqb_refl].
Qed.

(** ** Counting tokens *)

Lemma Counter_step_get (c : dict Z) (t adp : string) :
  dict_get_default (dict_set t (dict_get_default c t 0 + 1) c) adp 0 =
  dict_get_default c adp 0 + (if string_dec t adp then 1 else 0).
Proof.
  unfold dict_get_default at 1. rewrite dict_get_set.
  destruct (String.eqb_spec t adp) as [->|Hne].
  - destruct (string_dec adp adp); [reflexivity | contradiction].
  - destruct (string_dec t adp); [contradiction|].
    unfold dict_get_default. destruct (dict_get c adp); lia.
Qed.

Lemma Counter_from_get (tokens : list string) (c : dict Z) (adp : string) :
  dict_get_default
    (fold_left (fun c t => dict_set t (dict_get_default c t 0 + 1) c) tokens c)
    adp 0
  = dict_get_default c adp 0 + occurrences tokens adp.
Proof.
  revert c. unfold occurrences.
  induction tokens as [|t tokens IH]; intros c; simpl.
  - lia.
  - rewrite IH, Counter_step_get.
    destruct (string_dec t adp); lia.
Qed.

(** [Counter(tokens).get(adp, 0)] is the number of tokens equal to [adp]. *)
Lemma Counter_get (tokens : list string) (adp : string) :
  dict_get_default (Counter tokens) adp 0 = occurrences tokens adp.
Proof.
  unfold Counter. now rewrite Counter_from_get.
Qed.

Lemma count_adpositions_from_get (tokens targets : list string)
    (d : dict Z) (adp : string) :
  dict_get
    (fold_left
       (fun d a => dict_set a (dict_get_default (Counter tokens) a 0) d)
       targets d) adp
  = if mem adp targets then Some (occurrences tokens adp) else dict_get d adp.
Proof.
  revert d. induction targets as [|a targets IH]; intros d; simpl.
  - reflexivity.
  - rewrite IH, dict_get_set, Counter_get.
    destruct (mem adp targets) eqn:Hm.
    + now rewrite orb_true_r.
    + rewrite orb_false_r.
      destruct (String.eqb_spec a adp) as [->|Hne].
      * now rewrite String.eqb_refl.
      * assert (Hne' : adp <> a) by congruence.
        apply String.eqb_neq in Hne'. now rewrite Hne'.
Qed.

(** The count stored for a target adposition is the number of tokens that
    are exactly that string. *)
Lemma count_adpositions_get (tokens targets : list string) (adp : string) :
  In adp targets ->
  dict_get (count_adpositions tokens targets) adp
  = Some (occurrences tokens adp).
Proof.
  intros Hin. unfold count_adpositions.
  rewrite count_adpositions_from_get.
  apply mem_In in Hin. now rewrite Hin.
Qed.

Lemma count_adpositions_TARGET (tokens : list string) :
  count_adpositions tokens TARGET_ADPOSITIONS
  = map (fun adp => (adp, occurrences tokens adp)) TARGET_ADPOSITIONS.
Proof.
  unfold count_adpositions, TARGET_ADPOSITIONS.
  cbn [fold_left dict_set String.eqb Ascii.eqb Bool.eqb map].
  now rewrite !Counter_get.
Qed.

(** ** The record of one work *)

Lemma mul_rate (c tw : Z) :
  mul (fin (inject_Z c / inject_Z tw)) (of_Z 10000)
  = fin (inject_Z c / inject_Z tw * 10000).
Proof.
  unfold mul, fin, of_Z. f_equal.
  apply Qred_complete. now rewrite Qred_correct.
Qed.

Arguments fin : simpl never.
Arguments mul : simpl never.
Arguments round2 : simpl never.
Arguments of_Z : simpl never.
Arguments occurrences : simpl never.
Arguments tokenize_text : simpl never.

(** The record that [process_corpus_file] returns for a readable file,
    entry by entry. *)
Lemma process_corpus_file_record (word_tokenize : string -> list string)
    (f : file) (text author : string) :
  contents f = Some text ->
  let tokens := tokenize_text word_tokenize text in
  let total_words := Z.of_nat (List.length tokens) in
  process_corpus_file word_tokenize f author
  = Ok ([("author", VStr author); ("work", VStr (stem f));
         ("total_words", VInt total_words)]
        ++ map (fun adp => ((adp ++ "_count")%string,
                            VInt (occurrences tokens adp)))
               TARGET_ADPOSITIONS
        ++ map (fun adp => ((adp ++ "_per_10k")%string,
                            stored_rate (occurrences tokens adp) total_words))
               TARGET_ADPOSITIONS).
Proof.
  intros Hread tokens total_words.
  unfold process_corpus_file, read_text_file. rewrite Hread.
  cbn [bind]. fold tokens. fold total_words.
  rewrite count_adpositions_TARGET.
  unfold normalize_frequency, stored_rate, spec_rate, py_truediv.
  destruct (total_words =? 0) eqn:Hzero.
  - reflexivity.
  - unfold TARGET_ADPOSITIONS.
    cbn [map foldM bind dict_set String.eqb Ascii.eqb Bool.eqb fold_left
         py_round app String.append].
    rewrite !mul_rate. reflexivity.
Qed.

(** One goal for each of the six target adpositions. *)
Ltac each_target Hin :=
  unfold TARGET_ADPOSITIONS in Hin; cbn [In] in Hin;
  repeat (destruct Hin as [<-|Hin]); [..|contradiction].

(** ** Authors of the comparables *)

Lemma prefix_spec (p s : string) :
  String.prefix p s = true <-> exists rest : string, s = (p ++ rest)%string.
Proof.
  revert s. induction p as [|a p IH]; intros s.
  - split; [intros _; now exists s | intros _; now destruct s].
  - destruct s as [|b s]; simpl.
    + split; [discriminate | intros [rest H]; discriminate].
    + destruct (ascii_dec a b) as [->|Hne].
      * rewrite IH. split; intros [rest H]; exists rest.
        -- now rewrite H.
        -- now injection H.
      * split; [discriminate|].
        intros [rest H]. injection H as Hb _. congruence.
Qed.

Lemma contains_prefix (sub s : string) :
  String.prefix sub s = true -> contains sub s = true.
Proof.
  intros H. destruct s; cbn [contains]; [exact H | now rewrite H].
Qed.

(** [contains] decides the substring relation. *)
Lemma contains_spec (sub s : string) :
  contains sub s = true <-> substring_of sub s.
Proof.
  unfold substring_of. split.
  - induction s as [|c s IH]; cbn [contains]; intros H.
    + apply prefix_spec in H. destruct H as [rest H].
      now exists EmptyString, rest.
    + apply orb_true_iff in H. destruct H as [H|H].
      * apply prefix_spec in H. destruct H as [rest H].
        now exists EmptyString, rest.
      * destruct (IH H) as [before [after Hs]].
        exists (String c before), after. simpl. now rewrite Hs.
  - intros [before [after H]]. revert s H.
    induction before as [|c before IH]; intros s H.
    + apply contains_prefix, prefix_spec. now exists after.
    + subst s. cbn [String.append contains].
      rewrite (IH _ eq_refl). apply orb_true_r.
Qed.

Lemma first_author_no_match (mapping : list (string * string))
    (filename : string) :
  (forall title author, In (title, author) mapping ->
                        ~ substring_of title filename) ->
  first_author mapping filename = "Unknown Author".
Proof.
  induction mapping as [|[title author] mapping IH]; intros Hnone; simpl.
  - reflexivity.
  - destruct (contains title filename) eqn:Hc.
    + apply contains_spec in Hc. exfalso.
      apply (Hnone title author); [now left | exact Hc].
    + apply IH. intros t a Hin. apply (Hnone t a). now right.
Qed.

Lemma first_author_first_match (before after : list (string * string))
    (title author filename : string) :
  substring_of title filename ->
  (forall t a, In (t, a) before -> ~ substring_of t filename) ->
  first_author (before ++ (title, author) :: after) filename = author.
Proof.
  intros Hmatch. induction before as [|[t a] before IH]; intros Hnone; simpl.
  - apply contains_spec in Hmatch. now rewrite Hmatch.
  - destruct (contains t filename) eqn:Hc.
    + apply contains_spec in Hc. exfalso.
      apply (Hnone t a); [now left | exact Hc].
    + apply IH. intros t' a' Hin. apply (Hnone t' a'). now right.
Qed.

Lemma process_author_corpus_from (word_tokenize : string -> list string)
    (author_name : string) (txt_files : list file)
    (results : list (dict value)) :
  fold_left
    (fun results f =>
       let actual_author :=
         if String.eqb author_name "comparables"
         then get_author_from_filename (stem f)
         else author_name in
       match process_corpus_file word_tokenize f actual_author with
       | Ok r => results ++ [r]
       | Raise _ => results
       end)
    txt_files results
  = results
    ++ flat_map
         (fun f =>
            match process_corpus_file word_tokenize f
                    (if String.eqb author_name "comparables"
                     then get_author_from_filename (stem f)
                     else author_name) with
            | Ok r => [r]
            | Raise _ => []
            end)
         txt_files.
Proof.
  revert results. induction txt_files as [|f files IH]; intros results.
  - simpl. now rewrite app_nil_r.
  - cbn [fold_left flat_map]. rewrite IH.
    destruct (process_corpus_file word_tokenize f _).
    + now rewrite <- app_assoc.
    + reflexivity.
Qed.

(** C10.  In the comparables folder every readable document yields a record
    whose author is looked up from the file name: the author of the first
    title of the table that occurs in the name, in the order of the table,
    and "Unknown Author" when no title occurs in it. *)
Theorem C10_comparables_author (word_tokenize : string -> list string)
    (txt_files : list file) (f : file) (text : string) :
  In f txt_files ->
  contents f = Some text ->
  let author := get_author_from_filename (stem f) in
  (exists r : dict value,
     In r (process_author_corpus word_tokenize txt_files "comparables")
     /\ dict_get r "author" = Some (VStr author)
     /\ dict_get r "work" = Some (VStr (stem f)))
  /\ ((forall title a, In (title, a) author_mapping ->
                       ~ substring_of title (stem f)) ->
      author = "Unknown Author")
  /\ (forall before title a after,
        author_mapping = before ++ (title, a) :: after ->
        substring_of title (stem f) ->
        (forall t a', In (t, a') before -> ~ substring_of t (stem f)) ->
        author = a).
Proof.
  intros Hin Hread author. split; [|split].
  - unfold process_author_corpus.
    rewrite process_author_corpus_from. cbn [app String.eqb Ascii.eqb Bool.eqb].
    eexists. split.
    + apply in_flat_map. exists f. split; [exact Hin|].
      rewrite (process_corpus_file_record _ _ _ _ Hread). now left.
    + split; reflexivity.
  - apply first_author_no_match.
  - intros before title a after Hmap Hmatch Hnone.
    unfold author, get_author_from_filename. rewrite Hmap.
    now apply first_author_first_match.
Qed.

Lemma C10_comparables_author_witness :
  let faulkner := mkFile "1919 - As I Lay Dying" (Some "along the road") in
  let notes := mkFile "notes" (Some "past the house") in
  In notes [faulkner; notes]
  /\ contents notes = Some "past the house"
  /\ (exists r : dict value,
        In r (process_author_corpus split_tokenize [faulkner; notes]
                                    "comparables")
        /\ dict_get r "author" = Some (VStr "Unknown Author")
        /\ dict_get r "work" = Some (VStr "notes"))
  /\ get_author_from_filename (stem faulkner) = "William Faulkner".
Proof.
  intros faulkner notes.
  split; [right; left; reflexivity|]. split; [reflexivity|].
  split.
  - exact (proj1 (C10_comparables_author split_tokenize [faulkner; notes]
                    notes "past the house"
                    (or_intror (or_introl eq_refl)) eq_refl)).
  - destruct (C10_comparables_author split_tokenize [faulkner; notes]
                faulkner "along the road" (or_introl eq_refl) eq_refl)
      as [_ [_ Hfirst]].
    apply (Hfirst
             [("Winesburg, Ohio", "Sherwood Anderson");
              ("The Great Gatsby", "F. Scott Fitzgerald");
              ("Manhattan Transfer", "John Dos Passos")]
             "As I Lay Dying" "William Faulkner"
             [("1919", "John Dos Passos");
              ("Of Mice and Men", "John Steinbeck")]).
    + reflexivity.
    + apply contains_spec. reflexivity.
    + intros t a Hin Hsub. apply contains_spec in Hsub.
      cbn [In] in Hin.
      repeat (destruct Hin as [Heq|Hin];
              [injection Heq as <- <-; vm_compute in Hsub; discriminate|]).
      contradiction.
Defined.

(** ** Column names *)

Lemma append_length (a b : string) :
  String.length (a ++ b) = (String.length a + String.length b)%nat.
Proof.
  induction a as [|c a IH]; simpl; [reflexivity | now rewrite IH].
Qed.

(** Two names with suffixes of the same length are equal only when both
    the stems and the suffixes are. *)
Lemma append_suffix_inj (a b s1 s2 : string) :
  String.length s1 = String.length s2 ->
  (a ++ s1)%string = (b ++ s2)%string ->
  a = b /\ s1 = s2.
Proof.
  intros Hlen. revert b.
  induction a as [|c a IH]; intros [|c' b] H; simpl in H.
  - now split.
  - exfalso. apply (f_equal String.length) in H. simpl in H.
    rewrite append_length in H. lia.
  - exfalso. apply (f_equal String.length) in H. simpl in H.
    rewrite append_length in H. lia.
  - injection H as -> H. destruct (IH b H) as [-> ->]. now split.
Qed.

Lemma append_inj_l (a b s : string) :
  (a ++ s)%string = (b ++ s)%string -> a = b.
Proof.
  intros H. now destruct (append_suffix_inj a b s s eq_refl H).
Qed.

(** ** Results of loops *)

Lemma mapM_In {A B : Type} (f : A -> result B) (l : list A) (bs : list B)
    (b : B) :
  mapM f l = Ok bs -> In b bs -> exists a, In a l /\ f a = Ok b.
Proof.
  revert bs. induction l as [|a l IH]; intros bs H Hin; simpl in H.
  - injection H as <-. contradiction.
  - destruct (f a) as [b0|] eqn:Hfa; [|discriminate]. simpl in H.
    destruct (mapM f l) as [bs0|]; [|discriminate]. simpl in H.
    injection H as <-. destruct Hin as [<-|Hin].
    + exists a. split; [now left | exact Hfa].
    + destruct (IH bs0 eq_refl Hin) as [a' [Ha' Hfa']].
      exists a'. split; [now right | exact Hfa'].
Qed.

(** A property that every step of a loop keeps holds at its end. *)
Lemma foldM_preserves {A B : Type} (f : B -> A -> result B) (P : B -> Prop)
    (l : list A) :
  (forall b a b', f b a = Ok b' -> P b -> P b') ->
  forall b b', foldM f l b = Ok b' -> P b -> P b'.
Proof.
  intros Hstep. induction l as [|a l IH]; intros b b' H Hb; simpl in H.
  - now injection H as <-.
  - destruct (f b a) as [b1|] eqn:Hf; [|discriminate]. simpl in H.
    apply (IH b1 b' H). exact (Hstep b a b1 Hf Hb).
Qed.

(** A property that one item's step sets up and every step keeps holds at
    the end of the loop. *)
Lemma foldM_establishes {A B : Type} (f : B -> A -> result B)
    (P : B -> Prop) (l : list A) (a0 : A) :
  In a0 l ->
  (forall b b', f b a0 = Ok b' -> P b') ->
  (forall b a b', f b a = Ok b' -> P b -> P b') ->
  forall b b', foldM f l b = Ok b' -> P b'.
Proof.
  intros Hin Hset Hkeep. induction l as [|a l IH]; [contradiction|].
  intros b b' H. simpl in H.
  destruct (f b a) as [b1|] eqn:Hf; [|discriminate]. simpl in H.
  destruct Hin as [->|Hin].
  - apply (foldM_preserves f P l Hkeep b1 b' H). exact (Hset b b1 Hf).
  - exact (IH Hin b1 b' H).
Qed.

(** ** Author statistics and the frequency summary *)

(** Settles a goal from an equation between two column names with
    different suffixes. *)
Ltac name_clash H :=
  solve [ apply append_suffix_inj in H; [destruct H; discriminate | reflexivity]
        | apply (f_equal String.length) in H; simpl in H;
          rewrite ?append_length in H; simpl in H; lia ].

Section Statistics.

Variable Qsqrt : Q -> Q.

Lemma author_adposition_stats_present (author_df : DataFrame)
    (d d' : dict value) (adp : string) :
  mem (adp ++ "_count") (columns author_df) = true ->
  author_adposition_stats Qsqrt author_df d adp = Ok d' ->
  let freqs := map (fun r => cell r (adp ++ "_per_10k")) (rows author_df) in
  let counts := map (fun r => cell r (adp ++ "_count")) (rows author_df) in
  d' = dict_set (adp ++ "_std_per_10k")
         (VNum (round2 (series_std Qsqrt freqs)))
         (dict_set (adp ++ "_avg_per_10k") (VNum (round2 (series_mean freqs)))
            (dict_set (adp ++ "_total_count") (VNum (series_sum counts)) d)).
Proof.
  unfold author_adposition_stats, column. intros Hcount. rewrite Hcount.
  destruct (mem (adp ++ "_per_10k") (columns author_df)); cbn [bind].
  - now intros [= <-].
  - discriminate.
Qed.

Lemma author_adposition_stats_absent (author_df : DataFrame)
    (d d' : dict value) (adp : string) :
  mem (adp ++ "_count") (columns author_df) = false ->
  author_adposition_stats Qsqrt author_df d adp = Ok d' ->
  d' = d.
Proof.
  unfold author_adposition_stats. intros Hcount. rewrite Hcount.
  now intros [= <-].
Qed.

Lemma stats_step_keeps_author (author_df : DataFrame) (v : value)
    (d : dict value) (adp : string) (d' : dict value) :
  author_adposition_stats Qsqrt author_df d adp = Ok d' ->
  dict_get d "author" = Some v ->
  dict_get d' "author" = Some v.
Proof.
  intros Hstep Hd.
  destruct (mem (adp ++ "_count") (columns author_df)) eqn:Hcount.
  - rewrite (author_adposition_stats_present _ _ _ _ Hcount Hstep).
    rewrite !dict_get_set_ne; [exact Hd | | | ]; intros H; name_clash H.
  - now rewrite (author_adposition_stats_absent _ _ _ _ Hcount Hstep).
Qed.

Lemma stats_step_keeps_avg (author_df : DataFrame) (adp0 : string)
    (d : dict value) (adp : string) (d' : dict value) :
  author_adposition_stats Qsqrt author_df d adp = Ok d' ->
  dict_get d (adp0 ++ "_avg_per_10k")
  = Some (VNum (round2 (series_mean
       (map (fun r => cell r (adp0 ++ "_per_10k")) (rows author_df))))) ->
  dict_get d' (adp0 ++ "_avg_per_10k")
  = Some (VNum (round2 (series_mean
       (map (fun r => cell r (adp0 ++ "_per_10k")) (rows author_df))))).
Proof.
  intros Hstep Hd.
  destruct (mem (adp ++ "_count") (columns author_df)) eqn:Hcount.
  - rewrite (author_adposition_stats_present _ _ _ _ Hcount Hstep).
    rewrite dict_get_set_ne by (intros H; name_clash H).
    rewrite dict_get_set.
    destruct (String.eqb_spec (adp ++ "_avg_per_10k") (adp0 ++ "_avg_per_10k"))
      as [Heq|Hne].
    + apply append_inj_l in Heq. now subst adp0.
    + rewrite dict_get_set_ne by (intros H; name_clash H). exact Hd.
  - now rewrite (author_adposition_stats_absent _ _ _ _ Hcount Hstep).
Qed.

Lemma stats_step_keeps_std (author_df : DataFrame) (adp0 : string)
    (d : dict value) (adp : string) (d' : dict value) :
  author_adposition_stats Qsqrt author_df d adp = Ok d' ->
  dict_get d (adp0 ++ "_std_per_10k")
  = Some (VNum (round2 (series_std Qsqrt
       (map (fun r => cell r (adp0 ++ "_per_10k")) (rows author_df))))) ->
  dict_get d' (adp0 ++ "_std_per_10k")
  = Some (VNum (round2 (series_std Qsqrt
       (map (fun r => cell r (adp0 ++ "_per_10k")) (rows author_df))))).
Proof.
  intros Hstep Hd.
  destruct (mem (adp ++ "_count") (columns author_df)) eqn:Hcount.
  - rewrite (author_adposition_stats_present _ _ _ _ Hcount Hstep).
    rewrite dict_get_set.
    destruct (String.eqb_spec (adp ++ "_std_per_10k") (adp0 ++ "_std_per_10k"))
      as [Heq|Hne].
    + apply append_inj_l in Heq. now subst adp0.
    + rewrite !dict_get_set_ne; [exact Hd | |]; intros H; name_clash H.
  - now rewrite (author_adposition_stats_absent _ _ _ _ Hcount Hstep).
Qed.

(** The entries of one author's statistics that the comparison reads. *)
Lemma author_statistics_row_entries (df : DataFrame)
    (targets : list string) (author : string) (st : dict value) :
  author_statistics_row Qsqrt df targets author = Ok st ->
  dict_get st "author" = Some (VStr author)
  /\ forall adp, In adp targets ->
       mem (adp ++ "_count") (columns df) = true ->
       let freqs := map (fun r => cell r (adp ++ "_per_10k"))
                        (rows (select_author df author)) in
       dict_get st (adp ++ "_avg_per_10k")
       = Some (VNum (round2 (series_mean freqs)))
       /\ dict_get st (adp ++ "_std_per_10k")
          = Some (VNum (round2 (series_std Qsqrt freqs))).
Proof.
  unfold author_statistics_row. intros Hrow.
  destruct (column (select_author df author) "total_words") as [tw|];
    [|discriminate].
  cbn [bind] in Hrow. split.
  - apply (foldM_preserves _ (fun d => dict_get d "author" = Some (VStr author))
             targets (stats_step_keeps_author _ _) _ _ Hrow).
    reflexivity.
  - intros adp Hin Hcount. split.
    + refine (foldM_establishes _
                (fun d => dict_get d (adp ++ "_avg_per_10k")%string = _)
                targets adp Hin _ _ _ _ Hrow).
      * intros b b' Hstep.
        rewrite (author_adposition_stats_present (select_author df author)
                   _ _ _ Hcount Hstep).
        rewrite dict_get_set_ne by (intros H; name_clash H).
        apply dict_get_set_eq.
      * intros b a b'. apply stats_step_keeps_avg.
    + refine (foldM_establishes _
                (fun d => dict_get d (adp ++ "_std_per_10k")%string = _)
                targets adp Hin _ _ _ _ Hrow).
      * intros b b' Hstep.
        rewrite (author_adposition_stats_present (select_author df author)
                   _ _ _ Hcount Hstep).
        apply dict_get_set_eq.
      * intros b a b'. apply stats_step_keeps_std.
Qed.

(** Where an entry of the frequency summary comes from. *)
Lemma create_frequency_summary_In (df : DataFrame) (targets : list string)
    (e : FrequencySummaryEntry) :
  In e (create_frequency_summary Qsqrt df targets) ->
  let freqs := map (fun r => cell r (fs_adposition e ++ "_per_10k"))
                   (rows (select_author df (fs_author e))) in
  In (fs_author e) (unique (map r_author (rows df)))
  /\ In (fs_adposition e) targets
  /\ mem (fs_adposition e ++ "_per_10k") (columns df) = true
  /\ mean_frequency e = round2 (series_mean freqs)
  /\ std_frequency e = round2 (series_std Qsqrt freqs)
  /\ min_frequency e = round2 (series_min freqs)
  /\ max_frequency e = round2 (series_max freqs).
Proof.
  unfold create_frequency_summary. intros Hin.
  apply in_flat_map in Hin. destruct Hin as [author [Hauthor Hin]].
  apply in_flat_map in Hin. destruct Hin as [adp [Hadp Hin]].
  unfold frequency_summary_entry in Hin. cbn [columns select_author] in Hin.
  destruct (mem (adp ++ "_per_10k") (columns df)) eqn:Hcol; [|contradiction].
  destruct Hin as [<-|[]]. cbn. repeat split; assumption.
Qed.

End Statistics.

(** C3.  On a raw dataset, the mean and the standard deviation that the
    author statistics hold for an author and an adposition are the ones
    the frequency summary holds for the same pair. *)
Theorem C3_summary_agrees_with_statistics (Qsqrt : Q -> Q) (df : DataFrame)
    (targets : list string) (stats : list (dict value)) (st : dict value)
    (e : FrequencySummaryEntry) :
  calculate_author_statistics Qsqrt df targets = Ok stats ->
  In st stats ->
  In e (create_frequency_summary Qsqrt df targets) ->
  dict_get st "author" = Some (VStr (fs_author e)) ->
  mem (fs_adposition e ++ "_count") (columns df) = true ->
  dict_get st (fs_adposition e ++ "_avg_per_10k")
  = Some (VNum (mean_frequency e))
  /\ dict_get st (fs_adposition e ++ "_std_per_10k")
     = Some (VNum (std_frequency e)).
Proof.
  intros Hstats Hst He Hauthor Hcount.
  unfold calculate_author_statistics in Hstats.
  destruct (mapM_In _ _ _ _ Hstats Hst) as [author [_ Hrow]].
  destruct (author_statistics_row_entries Qsqrt _ _ _ _ Hrow)
    as [Hauthor' Hentries].
  rewrite Hauthor' in Hauthor. injection Hauthor as ->.
  destruct (create_frequency_summary_In Qsqrt _ _ _ He)
    as [_ [Hadp [_ [Hmean [Hstd _]]]]].
  rewrite Hmean, Hstd. exact (Hentries _ Hadp Hcount).
Qed.

Lemma C3_summary_agrees_with_statistics_witness :
  let st := [("author", VStr "hemingway"); ("num_works", VInt 3);
             ("total_words", VNum (Fin 30000));
             ("avg_words_per_work", VNum (Fin 10000));
             ("across_total_count", VNum (Fin 6));
             ("across_avg_per_10k", VNum (Fin 2));
             ("across_std_per_10k", VNum (Fin 1))] in
  let e := mkSummary "hemingway" "across" (Fin 2) (Fin 1) (Fin 1) (Fin 3) in
  calculate_author_statistics isqrt three_works ["across"] = Ok [st]
  /\ In e (create_frequency_summary isqrt three_works ["across"])
  /\ dict_get st "across_avg_per_10k" = Some (VNum (mean_frequency e))
  /\ dict_get st "across_std_per_10k" = Some (VNum (std_frequency e)).
Proof.
  intros st e.
  assert (Hstats : calculate_author_statistics isqrt three_works ["across"]
                   = Ok [st]) by (vm_compute; reflexivity).
  assert (He : In e (create_frequency_summary isqrt three_works ["across"]))
    by (vm_compute; left; reflexivity).
  split; [exact Hstats|]. split; [exact He|].
  exact (C3_summary_agrees_with_statistics isqrt three_works ["across"]
           [st] st e Hstats (or_introl eq_refl) He eq_refl eq_refl).
Defined.

(** ** Totals *)

Lemma cell_set_eq (author work : string) (cells : dict num) (c : string)
    (v : num) :
  cell (mkRow author work (dict_set c v cells)) c = v.
Proof.
  unfold cell, dict_get_default. cbn [r_cells]. now rewrite dict_get_set_eq.
Qed.

Lemma cell_set_ne (author work : string) (cells : dict num) (c c' : string)
    (v : num) :
  c <> c' ->
  cell (mkRow author work (dict_set c v cells)) c'
  = cell (mkRow author work cells) c'.
Proof.
  intros Hne. unfold cell, dict_get_default. cbn [r_cells].
  now rewrite dict_get_set_ne.
Qed.

Lemma mapM_column_Ok (df : DataFrame) (cols : list string)
    (values : list (list num)) :
  mapM (column df) cols = Ok values ->
  forall c, In c cols -> mem c (columns df) = true.
Proof.
  revert values. induction cols as [|c0 cols IH]; intros values H c Hin.
  - contradiction.
  - cbn [mapM] in H. unfold column at 1 in H.
    destruct (mem c0 (columns df)) eqn:Hc0; [|discriminate].
    cbn [bind] in H.
    destruct (mapM (column df) cols) as [vs|] eqn:Hrest; [|discriminate].
    destruct Hin as [<-|Hin]; [exact Hc0 | exact (IH vs eq_refl c Hin)].
Qed.

(** The enriched dataset, row by row: the total count is the sum of the
    count cells and the total rate is that sum divided by [total_words],
    times 10,000, by the division of NumPy. *)
Lemma calculate_total_adpositions_rows (df df' : DataFrame)
    (targets : list string) :
  calculate_total_adpositions df targets = Ok df' ->
  (forall adp, In adp targets -> mem (adp ++ "_count") (columns df) = true)
  /\ mem "total_words" (columns df) = true
  /\ rows df'
     = map (fun r =>
              let total_count :=
                series_sum
                  (map (fun adp => cell r (adp ++ "_count")) targets) in
              mkRow (r_author r) (r_work r)
                (dict_set "total_adpositions_per_10k"
                   (mul (div total_count (cell r "total_words"))
                        (of_Z 10000))
                   (dict_set "total_adpositions_count" total_count
                             (r_cells r))))
           (rows df).
Proof.
  unfold calculate_total_adpositions. intros H.
  destruct (mapM (column df) _) as [vs|] eqn:Hcols; [|discriminate].
  cbn [bind] in H.
  destruct (column (with_column df "total_adpositions_count" _)
                   "total_adpositions_count"); [|discriminate].
  cbn [bind] in H.
  unfold column at 1 in H. cbn [columns with_column] in H.
  destruct (mem "total_words"
              (if mem "total_adpositions_count" (columns df)
               then columns df
               else columns df ++ ["total_adpositions_count"])) eqn:Htw;
    [|discriminate].
  cbn [bind] in H. injection H as <-.
  split; [|split].
  - intros adp Hin. apply (mapM_column_Ok _ _ _ Hcols).
    apply in_map_iff. now exists adp.
  - destruct (mem "total_adpositions_count" (columns df)); [exact Htw|].
    apply mem_In in Htw. apply in_app_or in Htw.
    destruct Htw as [Htw|[Htw|[]]]; [now apply mem_In | discriminate].
  - cbn [rows with_column]. rewrite map_map. apply map_ext. intros r.
    cbn [r_author r_work r_cells].
    rewrite cell_set_eq, cell_set_ne by discriminate.
    rewrite map_map. unfold cell. reflexivity.
Qed.

(** C6, at a work without words.  The enriched row of an empty document has
    the total count 0, the sum of its counts, but its total rate is
    not-a-number, not 0: the division of the total count by [total_words]
    has no guard for zero, unlike [normalize_frequency]. *)
Theorem C6_zero_words_total_rate :
  columns blank_corpus
  = ["total_words"; "across_count"; "through_count"; "along_count";
     "past_count"; "around_count"; "beyond_count"; "across_per_10k";
     "through_per_10k"; "along_per_10k"; "past_per_10k"; "around_per_10k";
     "beyond_per_10k"]
  /\ map (fun r => (r_author r, r_work r, cell r "total_words",
                    cell r "across_per_10k"))
         (rows blank_corpus)
     = [("hemingway", "blank", Fin 0, Fin 0)]
  /\ exists enriched : DataFrame,
       calculate_total_adpositions blank_corpus TARGET_ADPOSITIONS
       = Ok enriched
       /\ map (fun r => (cell r "total_adpositions_count",
                         cell r "total_adpositions_per_10k"))
              (rows enriched)
          = [(Fin 0, NaN)].
Proof.
  split; [vm_compute; reflexivity|].
  split; [vm_compute; reflexivity|].
  eexists. split; vm_compute; reflexivity.
Qed.

(** ** The comparison matrix *)

Lemma key_eqb_eq (k1 k2 : string * string) : key_eqb k1 k2 = true <-> k1 = k2.
Proof.
  destruct k1 as [a1 p1], k2 as [a2 p2]. unfold key_eqb. cbn [fst snd].
  rewrite andb_true_iff, !String.eqb_eq.
  split; [intros [-> ->]; reflexivity | intros [= -> ->]; now split].
Qed.

Lemma has_duplicate_NoDup (keys : list (string * string)) :
  has_duplicate keys = false <-> NoDup keys.
Proof.
  induction keys as [|k keys IH]; cbn [has_duplicate].
  - split; [constructor | reflexivity].
  - rewrite orb_false_iff, IH. split.
    + intros [Hk Hrest]. constructor; [|exact Hrest].
      intros Hin. apply not_true_iff_false in Hk. apply Hk.
      apply existsb_exists. exists k. split; [exact Hin|].
      now apply key_eqb_eq.
    + intros H. inversion H as [|k' keys' Hnotin Hrest]; subst.
      split; [|exact Hrest].
      apply not_true_iff_false. intros Hex.
      apply existsb_exists in Hex. destruct Hex as [k' [Hin Heq]].
      apply key_eqb_eq in Heq. now subst k'.
Qed.

Lemma unique_from_In (l seen : list string) (x : string) :
  In x (fold_left (fun seen x => if mem x seen then seen else seen ++ [x])
                  l seen)
  <-> In x seen \/ In x l.
Proof.
  revert seen. induction l as [|y l IH]; intros seen; cbn [fold_left].
  - cbn [In]. tauto.
  - rewrite IH. cbn [In]. destruct (mem y seen) eqn:Hy.
    + apply mem_In in Hy. split; [tauto|].
      intros [H|[->|H]]; tauto.
    + rewrite in_app_iff. cbn [In]. tauto.
Qed.

Lemma unique_In (l : list string) (x : string) : In x (unique l) <-> In x l.
Proof.
  unfold unique. rewrite unique_from_In. cbn [In]. tauto.
Qed.

Lemma insert_sorted_In (x y : string) (l : list string) :
  In y (insert_sorted x l) <-> y = x \/ In y l.
Proof.
  induction l as [|z l IH]; cbn [insert_sorted In].
  - split; intros [H|H]; auto.
  - destruct (String.leb x z); cbn [In]; [|rewrite IH]; split; intuition.
Qed.

Lemma sort_labels_In (l : list string) (x : string) :
  In x (sort_labels l) <-> In x l.
Proof.
  unfold sort_labels. induction l as [|y l IH]; cbn [fold_right In].
  - tauto.
  - rewrite insert_sorted_In, IH. split; intros [H|H]; auto.
Qed.




(** ** The comparison to Hemingway *)

Lemma compare_to_hemingway_pairs (m : ComparisonMatrix) (index : list string) :
  map (fun c => (hc_author c, hc_adposition c))
      (flat_map
         (fun author =>
            if String.eqb author "hemingway" then []
            else map (compare_cell m author) (m_columns m))
         index)
  = list_prod (filter (fun a => negb (String.eqb a "hemingway")) index)
              (m_columns m).
Proof.
  induction index as [|a index IH]; [reflexivity|].
  cbn [flat_map filter]. rewrite map_app, IH.
  destruct (String.eqb a "hemingway"); cbn [negb]; [reflexivity|].
  cbn [list_prod]. f_equal. rewrite map_map. now apply map_ext.
Qed.

Lemma compare_to_hemingway_In (m : ComparisonMatrix)
    (entries : list HemingwayComparison) (c : HemingwayComparison) :
  compare_to_hemingway m = Some entries ->
  In c entries ->
  hc_author c <> "hemingway"
  /\ In (hc_author c) (m_index m)
  /\ In (hc_adposition c) (m_columns m)
  /\ c = compare_cell m (hc_author c) (hc_adposition c).
Proof.
  unfold compare_to_hemingway.
  destruct (negb (mem "hemingway" (m_index m))); [discriminate|].
  intros [= <-] Hin.
  apply in_flat_map in Hin. destruct Hin as [a [Ha Hin]].
  destruct (String.eqb_spec a "hemingway") as [|Hne]; [contradiction|].
  apply in_map_iff in Hin. destruct Hin as [p [<- Hp]].
  cbn [hc_author hc_adposition compare_cell]. auto.
Qed.

(** C8 (as the code has it).  The baseline is the row labelled
    'hemingway': when the matrix has that row the comparison has one entry
    for every other author and every adposition, in the order of the
    matrix, and without it there is no comparison, whatever other rows the
    matrix has. *)
Theorem C8_baseline_is_hemingway (m : ComparisonMatrix) :
  (In "hemingway" (m_index m) ->
   exists entries : list HemingwayComparison,
     compare_to_hemingway m = Some entries
     /\ map (fun c => (hc_author c, hc_adposition c)) entries
        = list_prod
            (filter (fun a => negb (String.eqb a "hemingway")) (m_index m))
            (m_columns m))
  /\ (~ In "hemingway" (m_index m) -> compare_to_hemingway m = None).
Proof.
  unfold compare_to_hemingway. split; intros H.
  - apply mem_In in H. rewrite H. cbn [negb].
    eexists. split; [reflexivity | apply compare_to_hemingway_pairs].
  - destruct (mem "hemingway" (m_index m)) eqn:Hmem; [|reflexivity].
    apply mem_In in Hmem. contradiction.
Qed.

Lemma C8_baseline_is_hemingway_witness :
  In "hemingway" (m_index ten_two_two)
  /\ exists entries : list HemingwayComparison,
       compare_to_hemingway ten_two_two = Some entries
       /\ map (fun c => (hc_author c, hc_adposition c)) entries
          = [("anderson", "across"); ("faulkner", "across")].
Proof.
  assert (Hin : In "hemingway" (m_index ten_two_two))
    by (right; right; left; reflexivity).
  split; [exact Hin|].
  exact (proj1 (C8_baseline_is_hemingway ten_two_two) Hin).
Defined.

(** C8 as stated fails: no row but 'hemingway' can be the baseline; a
    matrix of the authors alpha and beta gets no comparison at all. *)
Lemma C8_other_baseline_counterexample :
  In "alpha" (m_index alpha_beta)
  /\ In "beta" (m_index alpha_beta)
  /\ compare_to_hemingway alpha_beta = None.
Proof.
  split; [now left|]. split; [right; now left|]. reflexivity.
Qed.

(** ** Distinctive features *)

Lemma distinctive_cell_In (m : ComparisonMatrix) (threshold : num)
    (author adp : string) (f : DistinctiveFeature) :
  In f (distinctive_cell m threshold author adp) <->
  gtb (others_mean m author adp) (Fin 0) = true
  /\ geb (div (loc m author adp) (others_mean m author adp)) threshold = true
  /\ f = mkFeature author adp (round2 (loc m author adp))
           (round2 (others_mean m author adp))
           (round2 (div (loc m author adp) (others_mean m author adp)))
           (if geb (div (loc m author adp) (others_mean m author adp)) (Fin 2)
            then "high" else "moderate").
Proof.
  unfold distinctive_cell.
  destruct (gtb (others_mean m author adp) (Fin 0)).
  - destruct (geb (div (loc m author adp) (others_mean m author adp))
                  threshold); cbn [In].
    + split; [intros [<-|[]]; auto | intros [_ [_ ->]]; now left].
    + split; [contradiction | intros [_ [H _]]; discriminate].
  - cbn [In]. split; [contradiction | intros [H _]; discriminate].
Qed.

Lemma identify_distinctive_features_In (m : ComparisonMatrix)
    (threshold : num) (f : DistinctiveFeature) :
  In f (identify_distinctive_features m threshold) <->
  In (df_author f) (m_index m)
  /\ In (df_adposition f) (m_columns m)
  /\ In f (distinctive_cell m threshold (df_author f) (df_adposition f)).
Proof.
  unfold identify_distinctive_features. rewrite in_flat_map. split.
  - intros [a [Ha Hin]]. apply in_flat_map in Hin.
    destruct Hin as [p [Hp Hin]].
    pose proof (proj1 (distinctive_cell_In _ _ _ _ _) Hin) as [_ [_ Hf]].
    assert (Hap : df_author f = a /\ df_adposition f = p) by (now rewrite Hf).
    destruct Hap as [-> ->]. auto.
  - intros [Ha [Hp Hin]]. exists (df_author f). split; [exact Ha|].
    apply in_flat_map. now exists (df_adposition f).
Qed.

(** ** Records of a corpus folder *)

Lemma process_author_corpus_In (word_tokenize : string -> list string)
    (txt_files : list file) (author_name : string) (record : dict value) :
  In record (process_author_corpus word_tokenize txt_files author_name) ->
  exists f author, process_corpus_file word_tokenize f author = Ok record.
Proof.
  unfold process_author_corpus. rewrite process_author_corpus_from.
  cbn [app]. intros Hin. apply in_flat_map in Hin.
  destruct Hin as [f [_ Hin]].
  destruct (process_corpus_file word_tokenize f _) as [r|] eqn:Hr;
    [|contradiction].
  destruct Hin as [<-|[]]. eauto.
Qed.

(* ================================================================== *)
(** * Further properties of the scripts *)

(** ** Reading a file *)

(** Latin-1 decodes every sequence of bytes, so [read_text_file] never
    reaches its [ValueError]: the text is the UTF-8 decoding of the file
    when there is one and its Latin-1 decoding otherwise, and the two
    encodings after Latin-1 are never used. *)
Theorem read_text_bytes_never_fails (decode : encoding -> string -> option string)
    (bytes : string) :
  (forall b, decode latin_1 b <> None) ->
  exists text : string,
    read_text_bytes decode bytes = Ok text
    /\ match decode utf_8 bytes with
       | Some utf8_text => text = utf8_text
       | None => decode latin_1 bytes = Some text
       end.
Proof.
  intros Hlatin. unfold read_text_bytes, encodings. cbn [first_decoding].
  destruct (decode utf_8 bytes) as [t|]; [now exists t|].
  destruct (decode latin_1 bytes) as [t|] eqn:Hl; [now exists t|].
  now destruct (Hlatin bytes).
Qed.

Lemma read_text_bytes_never_fails_witness :
  let bytes := String (ascii_of_nat 233) "t" in
  (forall b, example_decode latin_1 b <> None)
  /\ example_decode utf_8 bytes = None
  /\ read_text_bytes example_decode bytes = Ok bytes.
Proof.
  intros bytes.
  assert (Hlatin : forall b, example_decode latin_1 b <> None)
    by (intros b; discriminate).
  split; [exact Hlatin|]. split; [reflexivity|].
  destruct (read_text_bytes_never_fails example_decode bytes Hlatin)
    as [text [Hread Htext]].
  rewrite Hread. f_equal.
  change (example_decode utf_8 bytes) with (@None string) in Htext.
  change (example_decode latin_1 bytes) with (Some bytes) in Htext.
  now injection Htext.
Defined.

(** ** Counts and rates of one work *)

Lemma dict_set_fresh {V : Type} (d : dict V) (k : string) (v : V) :
  ~ In k (dict_keys d) -> dict_set k v d = d ++ [(k, v)].
Proof.
  induction d as [|[k' v'] d IH]; intros Hfresh; cbn [dict_set app].
  - reflexivity.
  - cbn [dict_keys map fst In] in Hfresh.
    destruct (String.eqb_spec k' k) as [->|Hne]; [tauto|].
    rewrite IH; [reflexivity|]. unfold dict_keys. tauto.
Qed.

Lemma dict_keys_app {V : Type} (d1 d2 : dict V) :
  dict_keys (d1 ++ d2) = dict_keys d1 ++ dict_keys d2.
Proof. unfold dict_keys. apply map_app. Qed.

(** A loop that sets distinct new keys appends them in order. *)
Lemma fold_dict_set_fresh {A V : Type} (key : A -> string) (val : A -> V)
    (l : list A) (d : dict V) :
  NoDup (map key l) ->
  (forall a, In a l -> ~ In (key a) (dict_keys d)) ->
  fold_left (fun d a => dict_set (key a) (val a) d) l d
  = d ++ map (fun a => (key a, val a)) l.
Proof.
  revert d. induction l as [|a l IH]; intros d Hnodup Hfresh;
    cbn [fold_left map].
  - now rewrite app_nil_r.
  - cbn [map] in Hnodup. inversion Hnodup as [|k ks Hnotin Hrest]; subst.
    rewrite dict_set_fresh by (apply Hfresh; now left).
    rewrite IH; [now rewrite <- app_assoc | exact Hrest |].
    intros b Hb. rewrite dict_keys_app, in_app_iff. cbn [dict_keys map fst In].
    intros [H|[H|[]]].
    + apply (Hfresh b); [now right | exact H].
    + apply Hnotin. rewrite H. apply in_map_iff. now exists b.
Qed.

Lemma count_adpositions_distinct (tokens targets : list string) :
  NoDup targets ->
  count_adpositions tokens targets
  = map (fun adp => (adp, occurrences tokens adp)) targets.
Proof.
  intros Hnodup. unfold count_adpositions.
  rewrite (fold_dict_set_fresh (fun a => a)
             (fun a => dict_get_default (Counter tokens) a 0)).
  - cbn [app]. apply map_ext. intros a. now rewrite Counter_get.
  - now rewrite map_id.
  - intros a _ [].
Qed.

Lemma count_occ_filter_ne (tokens : list string) (a b : string) :
  a <> b ->
  count_occ string_dec
    (filter (fun t => negb (String.eqb t a)) tokens) b
  = count_occ string_dec tokens b.
Proof.
  intros Hne. induction tokens as [|t tokens IH]; cbn [filter count_occ].
  - reflexivity.
  - destruct (String.eqb_spec t a) as [->|Hta]; cbn [negb count_occ].
    + destruct (string_dec a b); [contradiction | exact IH].
    + destruct (string_dec t b); now rewrite IH.
Qed.

Lemma length_filter_ne (tokens : list string) (a : string) :
  List.length tokens
  = (count_occ string_dec tokens a
     + List.length (filter (fun t => negb (String.eqb t a)) tokens))%nat.
Proof.
  induction tokens as [|t tokens IH]; cbn [filter count_occ List.length].
  - reflexivity.
  - destruct (String.eqb_spec t a) as [->|Hta]; cbn [negb List.length].
    + destruct (string_dec a a); [lia | contradiction].
    + destruct (string_dec t a); [contradiction | lia].
Qed.

(** The occurrences of distinct words add up to at most the number of
    tokens. *)
Lemma occurrences_sum_bound (targets tokens : list string) :
  NoDup targets ->
  fold_right Z.add 0 (map (occurrences tokens) targets)
  <= Z.of_nat (List.length tokens).
Proof.
  intros Hnodup. revert tokens.
  induction Hnodup as [|a targets Hnotin _ IH]; intros tokens;
    cbn [map fold_right].
  - lia.
  - specialize (IH (filter (fun t => negb (String.eqb t a)) tokens)).
    rewrite (length_filter_ne tokens a).
    assert (Hsame : map (occurrences tokens) targets
                    = map (occurrences
                             (filter (fun t => negb (String.eqb t a)) tokens))
                          targets).
    { apply map_ext_in. intros b Hb. unfold occurrences.
      rewrite count_occ_filter_ne; [reflexivity|].
      intros ->. contradiction. }
    rewrite Hsame. unfold occurrences at 1. lia.
Qed.

(** For distinct target adpositions, [count_adpositions] returns them as
    keys in their order, every count lies between 0 and the number of
    tokens, and the counts add up to at most the number of tokens. *)
Theorem count_adpositions_bounds (tokens targets : list string) :
  NoDup targets ->
  let counts := count_adpositions tokens targets in
  dict_keys counts = targets
  /\ (forall adp c, dict_get counts adp = Some c ->
        0 <= c <= Z.of_nat (List.length tokens))
  /\ fold_right Z.add 0 (map snd counts) <= Z.of_nat (List.length tokens).
Proof.
  intros Hnodup counts. unfold counts.
  rewrite (count_adpositions_distinct _ _ Hnodup).
  split; [|split].
  - unfold dict_keys. rewrite map_map. cbn [fst]. apply map_id.
  - intros adp c Hget.
    assert (Hc : c = occurrences tokens adp).
    { clear Hnodup. induction targets as [|a targets IH];
        cbn [map dict_get] in Hget; [discriminate|].
      destruct (String.eqb_spec a adp) as [->|];
        [now injection Hget | exact (IH Hget)]. }
    subst c. unfold occurrences. split; [lia|].
    apply inj_le, count_occ_bound.
  - rewrite map_map. cbn [snd]. now apply occurrences_sum_bound.
Qed.

Lemma count_adpositions_bounds_witness :
  let tokens := ["past"; "the"; "house"; "past"; "along"] in
  NoDup ["past"; "along"; "beyond"]
  /\ count_adpositions tokens ["past"; "along"; "beyond"]
     = [("past", 2); ("along", 1); ("beyond", 0)]
  /\ 2 + (1 + (0 + 0)) <= 5.
Proof.
  intros tokens.
  assert (Hnodup : NoDup ["past"; "along"; "beyond"]).
  { repeat constructor; cbn [In]; intros H;
      repeat (destruct H as [H|H]; [discriminate|]); exact H. }
  split; [exact Hnodup|]. split; [reflexivity|].
  exact (proj2 (proj2 (count_adpositions_bounds tokens
                         ["past"; "along"; "beyond"] Hnodup))).
Defined.

Lemma round_half_even_bounds (q : Q) (n : Z) :
  (0 <= q)%Q -> (q <= inject_Z n)%Q -> 0 <= round_half_even q <= n.
Proof.
  intros Hlo Hhi. unfold round_half_even.
  assert (Hf0 : 0 <= Qfloor q).
  { change 0 with (Qfloor (inject_Z 0)). now apply Qfloor_resp_le. }
  assert (Hfn : Qfloor q <= n).
  { rewrite <- (Qfloor_Z n). now apply Qfloor_resp_le. }
  destruct (Z.eq_dec (Qfloor q) n) as [Heq|Hne].
  - assert (Hq : (q == inject_Z n)%Q).
    { apply Qle_antisym; [exact Hhi|]. rewrite <- Heq. apply Qfloor_le. }
    assert (Hlt : (q - inject_Z (Qfloor q) < 1 # 2)%Q).
    { rewrite Heq, Hq.
      setoid_replace (inject_Z n - inject_Z n)%Q with 0%Q by ring.
      reflexivity. }
    rewrite (proj1 (Qlt_alt _ _) Hlt). lia.
  - destruct (Qcompare _ _); [destruct (Z.even _)| |]; lia.
Qed.

(** A rate between 0 and 10,000 stays there when rounded. *)
Lemma round2_rate_bounds (q : Q) :
  (0 <= q)%Q -> (q <= 10000)%Q ->
  exists r : Q, round2 (Fin q) = Fin r /\ (0 <= r)%Q /\ (r <= 10000)%Q.
Proof.
  intros Hlo Hhi. cbn [round2]. eexists. split; [reflexivity|].
  destruct (round_half_even_bounds (q * 100) 1000000) as [Hk0 Hk1].
  - now apply Qmult_le_0_compat.
  - apply (Qle_trans _ (10000 * 100)); [|discriminate].
    now apply Qmult_le_compat_r.
  - rewrite Qred_correct. split.
    + apply Qle_shift_div_l; [reflexivity|].
      rewrite Qmult_0_l. change 0%Q with (inject_Z 0). now rewrite <- Zle_Qle.
    + apply Qle_shift_div_r; [reflexivity|].
      change (10000 * 100)%Q with (inject_Z 1000000). now rewrite <- Zle_Qle.
Qed.

Lemma spec_rate_bounds (count total_words : Z) :
  0 <= count <= total_words ->
  (total_words =? 0) = false ->
  exists q : Q, spec_rate count total_words = Fin (Qred q)
                /\ (0 <= q)%Q /\ (q <= 10000)%Q.
Proof.
  intros [Hlo Hhi] Hzero. unfold spec_rate. rewrite Hzero.
  eexists. split; [reflexivity|].
  apply Z.eqb_neq in Hzero.
  assert (Htw : (0 < inject_Z total_words)%Q).
  { change 0%Q with (inject_Z 0). rewrite <- Zlt_Qlt. lia. }
  assert (Hc : (0 <= inject_Z count)%Q).
  { change 0%Q with (inject_Z 0). now rewrite <- Zle_Qle. }
  split.
  - apply Qmult_le_0_compat; [|discriminate].
    apply Qle_shift_div_l; [exact Htw|]. now rewrite Qmult_0_l.
  - apply (Qle_trans _ (1 * 10000)); [|discriminate].
    apply Qmult_le_compat_r; [|discriminate].
    apply Qle_shift_div_r; [exact Htw|].
    rewrite Qmult_1_l. now rewrite <- Zle_Qle.
Qed.

Lemma stored_rate_bounds (count total_words : Z) :
  0 <= count <= total_words ->
  exists q : Q,
    match stored_rate count total_words with
    | VInt z => of_Z z
    | VNum x => x
    | VStr _ => NaN
    end = Fin q
    /\ (0 <= q)%Q /\ (q <= 10000)%Q.
Proof.
  intros Hc. unfold stored_rate.
  destruct (total_words =? 0) eqn:Hzero.
  - exists 0%Q. repeat split; discriminate.
  - destruct (spec_rate_bounds count total_words Hc Hzero)
      as [q [-> [Hlo Hhi]]].
    apply round2_rate_bounds; now rewrite Qred_correct.
Qed.

Lemma occurrences_bounds (tokens : list string) (adp : string) :
  0 <= occurrences tokens adp <= Z.of_nat (List.length tokens).
Proof.
  unfold occurrences. split; [lia | apply inj_le, count_occ_bound].
Qed.

Lemma record_rate_cell (word_tokenize : string -> list string)
    (f : file) (text author : string) (record : dict value) (adp : string) :
  contents f = Some text ->
  process_corpus_file word_tokenize f author = Ok record ->
  In adp TARGET_ADPOSITIONS ->
  let tokens := tokenize_text word_tokenize text in
  dict_get_default (numeric_cells record) (adp ++ "_per_10k") NaN
  = match stored_rate (occurrences tokens adp)
                      (Z.of_nat (List.length tokens)) with
    | VInt z => of_Z z
    | VNum x => x
    | VStr _ => NaN
    end.
Proof.
  intros Hread Hrecord Hin tokens.
  rewrite (process_corpus_file_record _ _ _ _ Hread) in Hrecord.
  injection Hrecord as <-. fold tokens. unfold stored_rate.
  destruct (Z.of_nat _ =? 0); each_target Hin; reflexivity.
Qed.

(** Every rate in the record of a work, read as a cell of the raw dataset,
    is a number between 0 and 10,000. *)
Theorem stored_rates_between_0_and_10000
    (word_tokenize : string -> list string) (f : file) (author : string)
    (record : dict value) (adp : string) :
  process_corpus_file word_tokenize f author = Ok record ->
  In adp TARGET_ADPOSITIONS ->
  exists q : Q,
    dict_get_default (numeric_cells record) (adp ++ "_per_10k") NaN = Fin q
    /\ (0 <= q)%Q /\ (q <= 10000)%Q.
Proof.
  intros Hrecord Hin.
  destruct (contents f) as [text|] eqn:Hread.
  - rewrite (record_rate_cell _ _ _ _ _ _ Hread Hrecord Hin).
    apply stored_rate_bounds, occurrences_bounds.
  - unfold process_corpus_file, read_text_file in Hrecord.
    rewrite Hread in Hrecord. discriminate.
Qed.

Lemma stored_rates_between_0_and_10000_witness :
  let record :=
    [("author", VStr "hemingway"); ("work", VStr "river");
     ("total_words", VInt 3);
     ("across_count", VInt 1); ("through_count", VInt 0);
     ("along_count", VInt 0); ("past_count", VInt 0);
     ("around_count", VInt 0); ("beyond_count", VInt 0);
     ("across_per_10k", VNum (Fin (333333 # 100)));
     ("through_per_10k", VNum (Fin 0));
     ("along_per_10k", VNum (Fin 0)); ("past_per_10k", VNum (Fin 0));
     ("around_per_10k", VNum (Fin 0));
     ("beyond_per_10k", VNum (Fin 0))] in
  process_corpus_file split_tokenize (mkFile "river" (Some "Across the river"))
                      "hemingway" = Ok record
  /\ exists q : Q,
       dict_get_default (numeric_cells record) "across_per_10k" NaN = Fin q
       /\ (0 <= q)%Q /\ (q <= 10000)%Q.
Proof.
  intros record.
  assert (Hrecord : process_corpus_file split_tokenize
                      (mkFile "river" (Some "Across the river")) "hemingway"
                    = Ok record) by (vm_compute; reflexivity).
  split; [exact Hrecord|].
  exact (stored_rates_between_0_and_10000 split_tokenize _ _ record "across"
           Hrecord (or_introl eq_refl)).
Defined.

(** ** The records of a folder *)

(** [process_author_corpus] returns one record for every file that can be
    read, in the order of the files, and leaves out the others without
    raising, whatever the folder; outside the comparables folder every
    record carries the name of the folder as its author. *)
Theorem process_author_corpus_records (word_tokenize : string -> list string)
    (txt_files : list file) (author_name : string) :
  let records := process_author_corpus word_tokenize txt_files author_name in
  map (fun r => dict_get r "work") records
  = map (fun f => Some (VStr (stem f)))
        (filter (fun f => match contents f with
                          | Some _ => true
                          | None => false
                          end)
                txt_files)
  /\ (author_name <> "comparables" ->
      Forall (fun r => dict_get r "author" = Some (VStr author_name)) records).
Proof.
  intros records. unfold records, process_author_corpus.
  rewrite process_author_corpus_from. cbn [app]. split.
  - induction txt_files as [|f files IH]; cbn [flat_map filter map];
      [reflexivity|].
    destruct (contents f) as [text|] eqn:Hread.
    + rewrite (process_corpus_file_record _ _ _ _ Hread).
      cbn [app map]. f_equal. exact IH.
    + unfold process_corpus_file at 1, read_text_file.
      rewrite Hread. cbn [bind app]. exact IH.
  - intros Hname. apply String.eqb_neq in Hname. rewrite Hname.
    induction txt_files as [|f files IH]; cbn [flat_map]; [constructor|].
    destruct (contents f) as [text|] eqn:Hread.
    + rewrite (process_corpus_file_record _ _ _ _ Hread).
      cbn [app]. constructor; [reflexivity | exact IH].
    + unfold process_corpus_file at 1, read_text_file.
      rewrite Hread. cbn [bind app]. exact IH.
Qed.

Lemma process_author_corpus_records_witness :
  let files := [ mkFile "one" (Some "past the house"); mkFile "two" None;
                 mkFile "The Great Gatsby" (Some "along the road") ] in
  "hemingway" <> "comparables"
  /\ map (fun r => dict_get r "work")
         (process_author_corpus split_tokenize files "hemingway")
     = [Some (VStr "one"); Some (VStr "The Great Gatsby")]
  /\ Forall (fun r => dict_get r "author" = Some (VStr "hemingway"))
            (process_author_corpus split_tokenize files "hemingway")
  /\ map (fun r => dict_get r "work")
         (process_author_corpus split_tokenize files "comparables")
     = [Some (VStr "one"); Some (VStr "The Great Gatsby")].
Proof.
  intros files.
  assert (Hname : "hemingway" <> "comparables") by discriminate.
  split; [exact Hname|].
  destruct (process_author_corpus_records split_tokenize files "hemingway")
    as [Hworks Hauthors].
  split; [exact Hworks|]. split; [exact (Hauthors Hname)|].
  exact (proj1 (process_author_corpus_records split_tokenize files
                  "comparables")).
Defined.

(** ** One row of statistics per author *)

Lemma mapM_Forall2 {A B : Type} (f : A -> result B) (l : list A)
    (bs : list B) :
  mapM f l = Ok bs -> Forall2 (fun a b => f a = Ok b) l bs.
Proof.
  revert bs. induction l as [|a l IH]; intros bs H; cbn [mapM] in H.
  - injection H as <-. constructor.
  - destruct (f a) as [b|] eqn:Hfa; [|discriminate]. cbn [bind] in H.
    destruct (mapM f l) as [bs'|]; [|discriminate]. cbn [bind] in H.
    injection H as <-. constructor; [exact Hfa | now apply IH].
Qed.

Lemma Forall2_map_eq {A B C : Type} (f : B -> C) (g : A -> C)
    (l : list A) (l' : list B) :
  Forall2 (fun a b => f b = g a) l l' -> map f l' = map g l.
Proof.
  induction 1 as [|a b l l' Hab _ IH]; [reflexivity|].
  cbn [map]. now rewrite Hab, IH.
Qed.

Lemma unique_from_NoDup (l seen : list string) :
  NoDup seen ->
  NoDup (fold_left (fun seen x => if mem x seen then seen else seen ++ [x])
                   l seen).
Proof.
  revert seen. induction l as [|x l IH]; intros seen Hseen; cbn [fold_left].
  - exact Hseen.
  - apply IH. destruct (mem x seen) eqn:Hx; [exact Hseen|].
    apply NoDup_app; [exact Hseen | repeat constructor; intros [] |].
    intros y Hy [<-|[]]. apply mem_In in Hy. congruence.
Qed.

Lemma unique_NoDup (l : list string) : NoDup (unique l).
Proof. apply unique_from_NoDup. constructor. Qed.

Section StatisticsRows.

Variable Qsqrt : Q -> Q.

(** An entry with a short key is not one of an adposition. *)
Lemma stats_step_keeps_short (author_df : DataFrame) (k : string) (v : value)
    (d : dict value) (adp : string) (d' : dict value) :
  (String.length k < 12)%nat ->
  author_adposition_stats Qsqrt author_df d adp = Ok d' ->
  dict_get d k = Some v ->
  dict_get d' k = Some v.
Proof.
  intros Hshort Hstep Hd.
  destruct (mem (adp ++ "_count") (columns author_df)) eqn:Hcount.
  - rewrite (author_adposition_stats_present _ _ _ _ _ Hcount Hstep).
    rewrite !dict_get_set_ne; [exact Hd | | | ]; intros H;
      apply (f_equal String.length) in H; rewrite append_length in H;
      cbn [String.length] in H; lia.
  - now rewrite (author_adposition_stats_absent _ _ _ _ _ Hcount Hstep).
Qed.

Lemma author_statistics_row_head (df : DataFrame) (targets : list string)
    (author : string) (st : dict value) :
  author_statistics_row Qsqrt df targets author = Ok st ->
  dict_get st "author" = Some (VStr author)
  /\ dict_get st "num_works"
     = Some (VInt (Z.of_nat
                     (List.length
                        (filter (fun r => String.eqb (r_author r) author)
                                (rows df))))).
Proof.
  unfold author_statistics_row. intros Hrow.
  destruct (column (select_author df author) "total_words") as [tw|];
    [|discriminate].
  cbn [bind] in Hrow. split.
  - refine (foldM_preserves _
              (fun d => dict_get d "author" = Some (VStr author)) targets
              _ _ _ Hrow eq_refl).
    intros b a b'. apply stats_step_keeps_short. cbn. lia.
  - refine (foldM_preserves _
              (fun d => dict_get d "num_works"
                        = Some (VInt (Z.of_nat
                                  (List.length
                                     (rows (select_author df author))))))
              targets _ _ _ Hrow eq_refl).
    intros b a b'. apply stats_step_keeps_short. cbn. lia.
Qed.

End StatisticsRows.

Lemma one_key_among_distinct (k : string) (keys : list string) :
  NoDup keys -> In k keys ->
  fold_right Nat.add 0%nat
    (map (fun a => if String.eqb k a then 1%nat else 0%nat) keys) = 1%nat.
Proof.
  intros Hnodup. induction Hnodup as [|a keys Hnotin _ IH]; intros Hin;
    [contradiction|].
  cbn [map fold_right]. destruct (String.eqb_spec k a) as [->|Hne].
  - assert (Hzero : fold_right Nat.add 0%nat
              (map (fun b => if String.eqb a b then 1%nat else 0%nat) keys)
            = 0%nat).
    { clear IH Hin. induction keys as [|b keys IH]; [reflexivity|].
      cbn [map fold_right].
      destruct (String.eqb_spec a b) as [->|_].
      - exfalso. apply Hnotin. now left.
      - rewrite IH; [reflexivity|]. intros H. apply Hnotin. now right. }
    now rewrite Hzero.
  - destruct Hin as [->|Hin]; [contradiction|]. now rewrite IH.
Qed.

(** Rows grouped by a key: the group sizes over distinct keys that cover
    the rows add up to the number of rows. *)
Lemma group_sizes_sum (l : list row) (keys : list string) :
  NoDup keys ->
  (forall r, In r l -> In (r_author r) keys) ->
  fold_right Nat.add 0%nat
    (map (fun a => List.length
                     (filter (fun r => String.eqb (r_author r) a) l))
         keys)
  = List.length l.
Proof.
  intros Hnodup. induction l as [|r l IH]; intros Hcover.
  - clear. induction keys as [|a keys IH]; [reflexivity|].
    cbn [map fold_right filter List.length Nat.add]. exact IH.
  - assert (Hsplit :
      fold_right Nat.add 0%nat
        (map (fun a => List.length
                         (filter (fun r' => String.eqb (r_author r') a)
                                 (r :: l)))
             keys)
      = (fold_right Nat.add 0%nat
           (map (fun a => if String.eqb (r_author r) a then 1%nat else 0%nat)
                keys)
         + fold_right Nat.add 0%nat
             (map (fun a => List.length
                              (filter (fun r' => String.eqb (r_author r') a)
                                      l))
                  keys))%nat).
    { clear. induction keys as [|a keys IHk]; [reflexivity|].
      cbn [map fold_right]. rewrite IHk. cbn [filter].
      destruct (String.eqb (r_author r) a); cbn [List.length]; lia. }
    rewrite Hsplit, IH by (intros r' Hr'; apply Hcover; now right).
    rewrite (one_key_among_distinct (r_author r) keys Hnodup)
      by (apply Hcover; now left).
    reflexivity.
Qed.

(** The author statistics have one row for every distinct author of the
    dataset, in the order of first appearance; [num_works] of a row is the
    number of the author's works, and these numbers add up to the number of
    rows of the dataset. *)
Theorem author_statistics_one_row_per_author (Qsqrt : Q -> Q)
    (df : DataFrame) (targets : list string) (stats : list (dict value)) :
  calculate_author_statistics Qsqrt df targets = Ok stats ->
  let authors := unique (map r_author (rows df)) in
  let works a :=
    List.length (filter (fun r => String.eqb (r_author r) a) (rows df)) in
  NoDup authors
  /\ (forall a, In a authors <-> exists r, In r (rows df) /\ r_author r = a)
  /\ map (fun st => dict_get st "author") stats
     = map (fun a => Some (VStr a)) authors
  /\ map (fun st => dict_get st "num_works") stats
     = map (fun a => Some (VInt (Z.of_nat (works a)))) authors
  /\ fold_right Nat.add 0%nat (map works authors) = List.length (rows df).
Proof.
  intros Hstats authors works.
  assert (Hin : forall a, In a authors <->
                          exists r, In r (rows df) /\ r_author r = a).
  { intros a. unfold authors. rewrite unique_In, in_map_iff.
    split; intros [r H]; exists r; tauto. }
  split; [apply unique_NoDup|]. split; [exact Hin|].
  apply mapM_Forall2 in Hstats.
  split; [|split].
  - apply (Forall2_map_eq _ (fun a => Some (VStr a))).
    eapply Forall2_impl; [|exact Hstats]. intros a st Hrow.
    exact (proj1 (author_statistics_row_head Qsqrt _ _ _ _ Hrow)).
  - apply (Forall2_map_eq _ (fun a => Some (VInt (Z.of_nat (works a))))).
    eapply Forall2_impl; [|exact Hstats]. intros a st Hrow.
    exact (proj2 (author_statistics_row_head Qsqrt _ _ _ _ Hrow)).
  - apply group_sizes_sum; [apply unique_NoDup|].
    intros r Hr. apply Hin. now exists r.
Qed.

Lemma author_statistics_one_row_per_author_witness :
  exists stats : list (dict value),
    calculate_author_statistics isqrt two_authors ["across"] = Ok stats
    /\ map (fun st => dict_get st "author") stats
       = [Some (VStr "hemingway"); Some (VStr "faulkner")]
    /\ map (fun st => dict_get st "num_works") stats
       = [Some (VInt 2); Some (VInt 1)].
Proof.
  destruct (calculate_author_statistics isqrt two_authors ["across"])
    as [stats|] eqn:Hstats; [|vm_compute in Hstats; discriminate].
  exists stats. split; [reflexivity|].
  destruct (author_statistics_one_row_per_author isqrt two_authors
              ["across"] stats Hstats) as [_ [_ [Hauthors [Hworks _]]]].
  split; [exact Hauthors | exact Hworks].
Defined.

(** ** Standard deviation and missing columns *)

Lemma series_count_le_length (l : list num) :
  series_count l <= Z.of_nat (List.length l).
Proof.
  unfold series_count, dropna. apply inj_le, filter_length_le.
Qed.

(** The standard deviation of fewer than two observations is
    not-a-number. *)
Lemma series_std_short (Qsqrt : Q -> Q) (l : list num) :
  (List.length l <= 1)%nat -> series_std Qsqrt l = NaN.
Proof.
  intros Hlen. unfold series_std.
  pose proof (series_count_le_length l) as Hcount.
  destruct (series_count l <=? 1) eqn:Hle; [reflexivity|].
  apply Z.leb_gt in Hle. lia.
Qed.

(** For an author with a single work, the standard deviation of every
    adposition is not-a-number in the author statistics. *)
Theorem single_work_std_is_nan (Qsqrt : Q -> Q) (df : DataFrame)
    (targets : list string) (stats : list (dict value)) (st : dict value)
    (author adp : string) :
  calculate_author_statistics Qsqrt df targets = Ok stats ->
  In st stats ->
  dict_get st "author" = Some (VStr author) ->
  List.length (filter (fun r => String.eqb (r_author r) author) (rows df))
  = 1%nat ->
  In adp targets ->
  mem (adp ++ "_count") (columns df) = true ->
  dict_get st (adp ++ "_std_per_10k") = Some (VNum NaN).
Proof.
  intros Hstats Hst Hauthor Hone Hadp Hcount.
  unfold calculate_author_statistics in Hstats.
  destruct (mapM_In _ _ _ _ Hstats Hst) as [author' [_ Hrow]].
  destruct (author_statistics_row_entries Qsqrt _ _ _ _ Hrow)
    as [Hauthor' Hentries].
  rewrite Hauthor' in Hauthor. injection Hauthor as ->.
  destruct (Hentries adp Hadp Hcount) as [_ Hstd].
  rewrite Hstd, series_std_short; [reflexivity|].
  rewrite length_map. cbn [rows select_author]. lia.
Qed.

Lemma single_work_std_is_nan_witness :
  exists (stats : list (dict value)) (st : dict value),
    calculate_author_statistics isqrt two_authors ["across"] = Ok stats
    /\ In st stats
    /\ dict_get st "author" = Some (VStr "faulkner")
    /\ dict_get st "across_std_per_10k" = Some (VNum NaN).
Proof.
  destruct (calculate_author_statistics isqrt two_authors ["across"])
    as [stats|] eqn:Hstats; [|vm_compute in Hstats; discriminate].
  assert (Hrows : exists st, In st stats
                             /\ dict_get st "author" = Some (VStr "faulkner")).
  { vm_compute in Hstats. injection Hstats as <-.
    eexists. split; [right; left; reflexivity | reflexivity]. }
  destruct Hrows as [st [Hst Hauthor]].
  exists stats, st. split; [reflexivity|]. split; [exact Hst|].
  split; [exact Hauthor|].
  exact (single_work_std_is_nan isqrt two_authors ["across"] stats st
           "faulkner" "across" Hstats Hst Hauthor eq_refl
           (or_introl eq_refl) eq_refl).
Defined.

Lemma unique_from_prefix (l seen : list string) :
  exists rest : list string,
    fold_left (fun seen x => if mem x seen then seen else seen ++ [x]) l seen
    = seen ++ rest.
Proof.
  revert seen. induction l as [|x l IH]; intros seen; cbn [fold_left].
  - exists []. now rewrite app_nil_r.
  - destruct (mem x seen).
    + apply IH.
    + destruct (IH (seen ++ [x])) as [rest Hrest].
      exists (x :: rest). now rewrite Hrest, <- app_assoc.
Qed.

Section MissingColumns.

Variable Qsqrt : Q -> Q.

Lemma stats_step_raise (author_df : DataFrame) (d : dict value)
    (adp : string) (e : exn) :
  author_adposition_stats Qsqrt author_df d adp = Raise e ->
  e = KeyError (adp ++ "_per_10k").
Proof.
  unfold author_adposition_stats, column.
  destruct (mem (adp ++ "_count") (columns author_df)); [|discriminate].
  destruct (mem (adp ++ "_per_10k") (columns author_df)); cbn [bind].
  - discriminate.
  - now intros [= <-].
Qed.

Lemma stats_loop_raises (author_df : DataFrame) (targets : list string)
    (adp : string) (d : dict value) :
  In adp targets ->
  mem (adp ++ "_count") (columns author_df) = true ->
  mem (adp ++ "_per_10k") (columns author_df) = false ->
  exists t, In t targets
            /\ foldM (author_adposition_stats Qsqrt author_df) targets d
               = Raise (KeyError (t ++ "_per_10k")).
Proof.
  intros Hin Hcount Hfreq. revert d.
  induction targets as [|t targets IH]; intros d; [contradiction|].
  cbn [foldM].
  destruct (author_adposition_stats Qsqrt author_df d t) as [d1|e] eqn:Hstep.
  - cbn [bind]. destruct Hin as [->|Hin].
    + unfold author_adposition_stats, column in Hstep.
      rewrite Hcount, Hfreq in Hstep. discriminate.
    + destruct (IH Hin d1) as [t' [Ht' Hraise]].
      exists t'. split; [now right | exact Hraise].
  - cbn [bind]. rewrite (stats_step_raise _ _ _ _ Hstep).
    exists t. split; [now left | reflexivity].
Qed.

(** A dataset that has the count column of a target adposition but not
    its rate column makes the author statistics fail with a [KeyError] for
    a rate column, where the frequency summary leaves the adposition out
    without an error. *)
Theorem statistics_need_the_rate_column (df : DataFrame)
    (targets : list string) (adp : string) :
  rows df <> [] ->
  mem "total_words" (columns df) = true ->
  In adp targets ->
  mem (adp ++ "_count") (columns df) = true ->
  mem (adp ++ "_per_10k") (columns df) = false ->
  (exists t, In t targets
             /\ calculate_author_statistics Qsqrt df targets
                = Raise (KeyError (t ++ "_per_10k")))
  /\ forall e, In e (create_frequency_summary Qsqrt df targets) ->
               fs_adposition e <> adp.
Proof.
  intros Hrows Htw Hin Hcount Hfreq. split.
  - unfold calculate_author_statistics.
    destruct (rows df) as [|r rs]; [contradiction|].
    unfold unique. cbn [map fold_left mem existsb app].
    destruct (unique_from_prefix (map r_author rs) [r_author r])
      as [rest ->].
    cbn [app mapM]. unfold author_statistics_row at 1.
    unfold column at 1. cbn [columns select_author]. rewrite Htw.
    cbn [bind].
    destruct (stats_loop_raises (select_author df (r_author r)) targets adp
                [("author", VStr (r_author r));
                 ("num_works",
                  VInt (Z.of_nat
                          (List.length
                             (rows (select_author df (r_author r))))));
                 ("total_words",
                  VNum (series_sum
                          (map (fun r0 => cell r0 "total_words")
                               (rows (select_author df (r_author r))))));
                 ("avg_words_per_work",
                  VNum (series_mean
                          (map (fun r0 => cell r0 "total_words")
                               (rows (select_author df (r_author r))))))]
                Hin Hcount Hfreq) as [t [Ht Hraise]].
    exists t. split; [exact Ht|]. now rewrite Hraise.
  - intros e He Heq.
    destruct (create_frequency_summary_In Qsqrt _ _ _ He)
      as [_ [_ [Hcol _]]].
    rewrite Heq in Hcol. congruence.
Qed.

End MissingColumns.

Lemma statistics_need_the_rate_column_witness :
  rows counts_only <> []
  /\ calculate_author_statistics isqrt counts_only ["across"]
     = Raise (KeyError "across_per_10k")
  /\ create_frequency_summary isqrt counts_only ["across"] = [].
Proof.
  assert (Hrows : rows counts_only <> []) by discriminate.
  split; [exact Hrows|].
  destruct (statistics_need_the_rate_column isqrt counts_only ["across"]
              "across" Hrows eq_refl (or_introl eq_refl) eq_refl eq_refl)
    as [[t [Ht Hraise]] Hsummary].
  destruct Ht as [<-|[]].
  split; [exact Hraise|].
  destruct (create_frequency_summary isqrt counts_only ["across"])
    as [|e es] eqn:Hs; [reflexivity|].
  exfalso. vm_compute in Hs. discriminate.
Defined.

(** ** The enriched dataset *)

Lemma Forall2_map_right {A B : Type} (g : A -> B) (l : list A) :
  Forall2 (fun a b => b = g a) l (map g l).
Proof. induction l; constructor; auto. Qed.

Lemma mapM_column_present (df : DataFrame) (cols : list string) :
  (forall c, In c cols -> mem c (columns df) = true) ->
  exists values, mapM (column df) cols = Ok values.
Proof.
  induction cols as [|c cols IH]; intros Hcols; cbn [mapM].
  - now eexists.
  - unfold column at 1. rewrite (Hcols c (or_introl eq_refl)). cbn [bind].
    destruct IH as [vs ->]; [intros c' Hc'; apply Hcols; now right|].
    cbn [bind]. now eexists.
Qed.

Lemma mapM_column_raise (df : DataFrame) (cols : list string) (e : exn) :
  mapM (column df) cols = Raise e -> exists k, e = KeyError k.
Proof.
  induction cols as [|c cols IH]; cbn [mapM]; [discriminate|].
  unfold column at 1. destruct (mem c (columns df)); cbn [bind].
  - destruct (mapM (column df) cols) as [vs|e'] eqn:Hrest; cbn [bind].
    + discriminate.
    + intros [= <-]. now apply IH.
  - intros [= <-]. now eexists.
Qed.

Lemma mem_app_last (c : string) (l : list string) (x : string) :
  mem c (l ++ [x]) = (mem c l || String.eqb c x)%bool.
Proof.
  unfold mem. rewrite existsb_app. cbn [existsb]. now rewrite orb_false_r.
Qed.

Lemma calculate_total_adpositions_Ok (df : DataFrame) (targets : list string) :
  (forall adp, In adp targets -> mem (adp ++ "_count") (columns df) = true) ->
  mem "total_words" (columns df) = true ->
  exists enriched, calculate_total_adpositions df targets = Ok enriched.
Proof.
  intros Hcounts Htw. unfold calculate_total_adpositions.
  destruct (mapM_column_present df
              (map (fun adp => (adp ++ "_count")%string) targets))
    as [vs ->].
  { intros c Hc. apply in_map_iff in Hc. destruct Hc as [adp [<- Hadp]].
    now apply Hcounts. }
  cbn [bind]. unfold column. cbn [columns with_column].
  destruct (mem "total_adpositions_count" (columns df)) eqn:Htotal.
  - rewrite Htotal, Htw. cbn [bind]. now eexists.
  - rewrite !mem_app_last, Htw. cbn [orb String.eqb Ascii.eqb Bool.eqb].
    rewrite orb_true_r. cbn [bind]. now eexists.
Qed.

(** [calculate_total_adpositions] succeeds exactly when the dataset has the
    count column of every target adposition and the [total_words] column;
    any failure is a [KeyError]. *)
Theorem total_adpositions_needs_its_columns (df : DataFrame)
    (targets : list string) :
  ((exists enriched, calculate_total_adpositions df targets = Ok enriched)
   <-> (forall adp, In adp targets ->
                    mem (adp ++ "_count") (columns df) = true)
       /\ mem "total_words" (columns df) = true)
  /\ (forall e, calculate_total_adpositions df targets = Raise e ->
                exists k, e = KeyError k).
Proof.
  split; [split|].
  - intros [enriched H].
    destruct (calculate_total_adpositions_rows _ _ _ H) as [Hc [Htw _]].
    now split.
  - intros [Hcounts Htw]. now apply calculate_total_adpositions_Ok.
  - intros e. unfold calculate_total_adpositions.
    destruct (mapM (column df) _) as [vs|e'] eqn:Hcols; cbn [bind].
    + unfold column. cbn [columns with_column].
      repeat match goal with
             | |- context [if ?b then Ok _ else Raise _] =>
                 destruct b; cbn [bind]
             end; try discriminate; intros [= <-]; now eexists.
    + intros [= <-]. exact (mapM_column_raise _ _ _ Hcols).
Qed.

(** The enriched dataset has the rows of the dataset in their order, each
    with the same author, the same work and the same cell in every column
    but the two that the function writes; it has every column of the
    dataset and the two new ones. *)
Theorem total_adpositions_enriched_rows (df enriched : DataFrame)
    (targets : list string) :
  calculate_total_adpositions df targets = Ok enriched ->
  Forall2
    (fun r r' =>
       r_author r' = r_author r
       /\ r_work r' = r_work r
       /\ forall c, c <> "total_adpositions_count" ->
                    c <> "total_adpositions_per_10k" ->
                    cell r' c = cell r c)
    (rows df) (rows enriched)
  /\ (forall c, In c (columns df) -> In c (columns enriched))
  /\ In "total_adpositions_count" (columns enriched)
  /\ In "total_adpositions_per_10k" (columns enriched).
Proof.
  intros H.
  destruct (calculate_total_adpositions_rows _ _ _ H) as [_ [_ Hrows]].
  split.
  - rewrite Hrows.
    eapply Forall2_impl; [|apply Forall2_map_right].
    intros r r' ->. cbn [r_author r_work].
    split; [reflexivity|]. split; [reflexivity|].
    intros c Hc1 Hc2. rewrite !cell_set_ne by congruence.
    now destruct r.
  - unfold calculate_total_adpositions in H.
    destruct (mapM (column df) _); [|discriminate]. cbn [bind] in H.
    destruct (column _ "total_adpositions_count"); [|discriminate].
    cbn [bind] in H.
    destruct (column _ "total_words"); [|discriminate].
    cbn [bind] in H. injection H as <-. cbn [columns with_column].
    set (cols1 := if mem "total_adpositions_count" (columns df)
                  then columns df
                  else columns df ++ ["total_adpositions_count"]).
    assert (H1 : forall c, In c (columns df) -> In c cols1).
    { intros c Hc. unfold cols1.
      destruct (mem _ (columns df)); [exact Hc|].
      apply in_or_app. now left. }
    assert (H2 : In "total_adpositions_count" cols1).
    { unfold cols1.
      destruct (mem _ (columns df)) eqn:Hm; [now apply mem_In|].
      apply in_or_app. right. now left. }
    assert (H3 : forall c, In c cols1 ->
                In c (if mem "total_adpositions_per_10k" cols1 then cols1
                      else cols1 ++ ["total_adpositions_per_10k"])).
    { intros c Hc. destruct (mem _ cols1); [exact Hc|].
      apply in_or_app. now left. }
    split; [|split].
    + intros c Hc. now apply H3, H1.
    + now apply H3.
    + destruct (mem "total_adpositions_per_10k" cols1) eqn:Hm;
        [now apply mem_In|].
      apply in_or_app. right. now left.
Qed.

Lemma total_adpositions_needs_its_columns_witness :
  (forall adp, In adp ["across"] ->
               mem (adp ++ "_count") (columns three_works) = true)
  /\ mem "total_words" (columns three_works) = true
  /\ (exists enriched,
        calculate_total_adpositions three_works ["across"] = Ok enriched)
  /\ calculate_total_adpositions three_works ["across"; "past"]
     = Raise (KeyError "past_count").
Proof.
  assert (Hcounts : forall adp, In adp ["across"] ->
            mem (adp ++ "_count") (columns three_works) = true).
  { intros adp [<-|[]]. reflexivity. }
  split; [exact Hcounts|]. split; [reflexivity|]. split.
  - apply (proj1 (total_adpositions_needs_its_columns three_works ["across"])).
    split; [exact Hcounts | reflexivity].
  - reflexivity.
Defined.

Lemma total_adpositions_enriched_rows_witness :
  exists enriched : DataFrame,
    calculate_total_adpositions three_works ["across"] = Ok enriched
    /\ map (fun r => (r_author r, r_work r, cell r "across_count"))
           (rows enriched)
       = map (fun r => (r_author r, r_work r, cell r "across_count"))
             (rows three_works)
    /\ In "total_words" (columns enriched)
    /\ In "total_adpositions_count" (columns enriched)
    /\ In "total_adpositions_per_10k" (columns enriched).
Proof.
  destruct (calculate_total_adpositions three_works ["across"])
    as [enriched|] eqn:H; [|vm_compute in H; discriminate].
  exists enriched. split; [reflexivity|].
  destruct (total_adpositions_enriched_rows three_works enriched ["across"] H)
    as [Hrows [Hcols [Hcount Hrate]]].
  split; [|split; [|split]].
  - clear H Hcols Hcount Hrate.
    induction Hrows as [|r r' l l' [Ha [Hw Hc]] _ IH]; [reflexivity|].
    cbn [map]. rewrite Ha, Hw, (Hc "across_count") by discriminate.
    f_equal. exact IH.
  - apply Hcols. now left.
  - exact Hcount.
  - exact Hrate.
Defined.

(** ** From the frequency summary to the matrix *)

Lemma NoDup_list_prod {A B : Type} (l : list A) (l' : list B) :
  NoDup l -> NoDup l' -> NoDup (list_prod l l').
Proof.
  intros Hl Hl'. induction Hl as [|x l Hnotin _ IH]; cbn [list_prod].
  - constructor.
  - apply NoDup_app.
    + clear IH. induction Hl' as [|y l' Hy _ IH']; cbn [map]; constructor.
      * intros Hin. apply in_map_iff in Hin.
        destruct Hin as [y' [[= ->] Hy']]. contradiction.
      * exact IH'.
    + exact IH.
    + intros [a b] Hin1 Hin2.
      apply in_map_iff in Hin1. destruct Hin1 as [y [[= <- <-] _]].
      apply in_prod_iff in Hin2. tauto.
Qed.

(** The pairs of labels of the frequency summary: every distinct author
    with every target adposition whose rate column exists. *)
Lemma create_frequency_summary_keys (Qsqrt : Q -> Q) (df : DataFrame)
    (targets : list string) :
  map (fun e => (fs_author e, fs_adposition e))
      (create_frequency_summary Qsqrt df targets)
  = list_prod (unique (map r_author (rows df)))
              (filter (fun adp => mem (adp ++ "_per_10k") (columns df))
                      targets).
Proof.
  unfold create_frequency_summary.
  induction (unique (map r_author (rows df))) as [|a authors IH].
  - reflexivity.
  - cbn [flat_map list_prod]. rewrite map_app, IH. f_equal.
    clear IH. induction targets as [|p targets IHt]; [reflexivity|].
    cbn [flat_map filter]. rewrite map_app, IHt.
    unfold frequency_summary_entry at 1. cbn [columns select_author].
    destruct (mem (p ++ "_per_10k") (columns df)); reflexivity.
Qed.

(** The frequency summary has one entry for every distinct author and
    every target adposition whose rate column exists: authors in the order
    of first appearance, adpositions in the order of the targets. *)
Theorem frequency_summary_one_entry_per_pair (Qsqrt : Q -> Q)
    (df : DataFrame) (targets : list string) :
  let summary := create_frequency_summary Qsqrt df targets in
  let authors := unique (map r_author (rows df)) in
  let present :=
    filter (fun adp => mem (adp ++ "_per_10k") (columns df)) targets in
  map (fun e => (fs_author e, fs_adposition e)) summary
  = list_prod authors present
  /\ List.length summary = (List.length authors * List.length present)%nat
  /\ (NoDup targets ->
      NoDup (map (fun e => (fs_author e, fs_adposition e)) summary)).
Proof.
  intros summary authors present.
  pose proof (create_frequency_summary_keys Qsqrt df targets) as Hkeys.
  fold summary authors present in Hkeys.
  split; [exact Hkeys|]. split.
  - rewrite <- length_prod, <- Hkeys. now rewrite length_map.
  - intros Hnodup. rewrite Hkeys.
    apply NoDup_list_prod; [apply unique_NoDup | now apply NoDup_filter].
Qed.

Lemma frequency_summary_one_entry_per_pair_witness :
  NoDup ["across"; "past"]
  /\ map (fun e => (fs_author e, fs_adposition e))
         (create_frequency_summary isqrt two_authors ["across"; "past"])
     = [("hemingway", "across"); ("faulkner", "across")]
  /\ NoDup (map (fun e => (fs_author e, fs_adposition e))
                (create_frequency_summary isqrt two_authors
                                          ["across"; "past"])).
Proof.
  assert (Hnodup : NoDup ["across"; "past"]).
  { repeat constructor; cbn [In]; intros H;
      repeat (destruct H as [H|H]; [discriminate|]); exact H. }
  split; [exact Hnodup|].
  destruct (frequency_summary_one_entry_per_pair isqrt two_authors
              ["across"; "past"]) as [Hkeys [_ Hdistinct]].
  split; [exact Hkeys | exact (Hdistinct Hnodup)].
Defined.

(** ** Labels of the matrix *)

Lemma insert_sorted_HdRel (x y : string) (l : list string) :
  String.leb y x = true ->
  HdRel (fun a b => String.leb a b = true) y l ->
  HdRel (fun a b => String.leb a b = true) y (insert_sorted x l).
Proof.
  intros Hyx Hhd. destruct l as [|z l]; cbn [insert_sorted].
  - now constructor.
  - destruct (String.leb x z); constructor;
      [exact Hyx | now inversion Hhd].
Qed.

Lemma insert_sorted_Sorted (x : string) (l : list string) :
  Sorted (fun a b => String.leb a b = true) l ->
  Sorted (fun a b => String.leb a b = true) (insert_sorted x l).
Proof.
  induction 1 as [|y l Hsorted IH Hhd]; cbn [insert_sorted].
  - repeat constructor.
  - destruct (String.leb x y) eqn:Hxy.
    + constructor; [now constructor | now constructor].
    + constructor; [exact IH|].
      apply insert_sorted_HdRel; [|exact Hhd].
      destruct (String.leb_total x y) as [H|H]; [congruence | exact H].
Qed.

Lemma sort_labels_Sorted (l : list string) :
  Sorted (fun a b => String.leb a b = true) (sort_labels l).
Proof.
  unfold sort_labels. induction l as [|x l IH]; cbn [fold_right].
  - constructor.
  - now apply insert_sorted_Sorted.
Qed.

Lemma insert_sorted_NoDup (x : string) (l : list string) :
  ~ In x l -> NoDup l -> NoDup (insert_sorted x l).
Proof.
  intros Hx Hl. induction Hl as [|y l Hy Hl IH]; cbn [insert_sorted].
  - repeat constructor. intros [].
  - destruct (String.leb x y).
    + constructor; [exact Hx | now constructor].
    + constructor.
      * rewrite insert_sorted_In. intros [->|H]; [|contradiction].
        apply Hx. now left.
      * apply IH. intros H. apply Hx. now right.
Qed.

Lemma sort_labels_NoDup (l : list string) :
  NoDup l -> NoDup (sort_labels l).
Proof.
  unfold sort_labels. induction 1 as [|x l Hx _ IH]; cbn [fold_right].
  - constructor.
  - apply insert_sorted_NoDup; [|exact IH].
    fold (sort_labels l). now rewrite sort_labels_In.
Qed.

Lemma lookup_cell_absent (keys : list (string * string)) (values : list num)
    (k : string * string) :
  ~ In k keys -> lookup_cell (combine keys values) k = None.
Proof.
  revert values. induction keys as [|k0 keys IH]; intros values Hk.
  - reflexivity.
  - destruct values as [|v values]; [reflexivity|].
    cbn [combine lookup_cell].
    destruct (key_eqb k0 k) eqn:Heq.
    + apply key_eqb_eq in Heq. exfalso. apply Hk. now left.
    + apply IH. intros H. apply Hk. now right.
Qed.

(** The matrix of a frequency summary has the authors of the summary as
    row labels and its adpositions as column labels, each in increasing
    order and without repetition; a cell for which the summary has no row
    is not-a-number. *)
Theorem comparison_matrix_labels (fs : list FrequencySummaryEntry)
    (m : ComparisonMatrix) :
  create_comparison_matrix fs = Ok m ->
  Sorted (fun a b => String.leb a b = true) (m_index m)
  /\ NoDup (m_index m)
  /\ (forall a, In a (m_index m) <-> exists e, In e fs /\ fs_author e = a)
  /\ Sorted (fun a b => String.leb a b = true) (m_columns m)
  /\ NoDup (m_columns m)
  /\ (forall p, In p (m_columns m) <->
                exists e, In e fs /\ fs_adposition e = p)
  /\ (forall a p,
        (forall e, In e fs -> (fs_author e, fs_adposition e) <> (a, p)) ->
        loc m a p = NaN).
Proof.
  unfold create_comparison_matrix, pivot.
  destruct (has_duplicate _); [discriminate|]. intros [= <-].
  cbn [m_index m_columns]. rewrite !map_map. cbn [fst snd].
  split; [apply sort_labels_Sorted|].
  split; [apply sort_labels_NoDup, unique_NoDup|].
  split.
  { intros a. rewrite sort_labels_In, unique_In, in_map_iff.
    split; intros [e H]; exists e; tauto. }
  split; [apply sort_labels_Sorted|].
  split; [apply sort_labels_NoDup, unique_NoDup|].
  split.
  { intros p. rewrite sort_labels_In, unique_In, in_map_iff.
    split; intros [e H]; exists e; tauto. }
  intros a p Habsent. unfold loc. cbn [m_cells].
  rewrite lookup_cell_absent; [reflexivity|].
  intros Hin. apply in_map_iff in Hin. destruct Hin as [e [Heq He]].
  exact (Habsent e He Heq).
Qed.

Lemma comparison_matrix_labels_witness :
  let fs := [ mkSummary "hemingway" "past" (Fin 5) NaN (Fin 5) (Fin 5);
              mkSummary "faulkner" "across" (Fin 7) NaN (Fin 7) (Fin 7) ] in
  exists m : ComparisonMatrix,
    create_comparison_matrix fs = Ok m
    /\ m_index m = ["faulkner"; "hemingway"]
    /\ m_columns m = ["across"; "past"]
    /\ NoDup (m_index m)
    /\ loc m "hemingway" "across" = NaN.
Proof.
  intros fs.
  destruct (create_comparison_matrix fs) as [m|] eqn:Hm;
    [|vm_compute in Hm; discriminate].
  exists m. split; [reflexivity|].
  destruct (comparison_matrix_labels fs m Hm)
    as [_ [Hnodup [_ [_ [_ [_ Hnan]]]]]].
  assert (Hcell : loc m "hemingway" "across" = NaN).
  { apply Hnan. intros e He Heq. cbn [In fs] in He.
    destruct He as [<-|[<-|[]]]; discriminate. }
  vm_compute in Hm. injection Hm as <-.
  split; [reflexivity|]. split; [reflexivity|].
  split; [exact Hnodup | exact Hcell].
Defined.

(** ** More on the comparison to Hemingway *)

Lemma filter_other_labels_all (h : string) (l : list string) :
  ~ In h l -> filter (fun a => negb (String.eqb a h)) l = l.
Proof.
  induction l as [|x l IH]; intros Hh; cbn [filter]; [reflexivity|].
  destruct (String.eqb_spec x h) as [->|_]; cbn [negb].
  - exfalso. apply Hh. now left.
  - rewrite IH; [reflexivity|]. intros H. apply Hh. now right.
Qed.

Lemma filter_other_labels_length (h : string) (l : list string) :
  NoDup l -> In h l ->
  S (List.length (filter (fun a => negb (String.eqb a h)) l)) = List.length l.
Proof.
  induction 1 as [|x l Hx _ IH]; intros Hin; [contradiction|].
  cbn [filter List.length].
  destruct (String.eqb_spec x h) as [->|Hne]; cbn [negb List.length].
  - now rewrite filter_other_labels_all.
  - destruct Hin as [->|Hin]; [contradiction|]. now rewrite IH.
Qed.

(** With distinct row labels, the comparison to Hemingway has an entry for
    each of the other authors and each adposition and none for Hemingway:
    (authors - 1) x adpositions entries. *)
Theorem compare_to_hemingway_entry_count (m : ComparisonMatrix) :
  NoDup (m_index m) ->
  In "hemingway" (m_index m) ->
  exists entries : list HemingwayComparison,
    compare_to_hemingway m = Some entries
    /\ (List.length (m_index m) * List.length (m_columns m)
        = List.length entries + List.length (m_columns m))%nat
    /\ Forall (fun c => hc_author c <> "hemingway") entries.
Proof.
  intros Hnodup Hin.
  destruct (compare_to_hemingway m) as [entries|] eqn:Hentries.
  - exists entries. split; [reflexivity|]. split.
    + assert (Hlen : List.length entries
                     = (List.length
                          (filter (fun a => negb (String.eqb a "hemingway"))
                                  (m_index m))
                        * List.length (m_columns m))%nat).
      { rewrite <- length_prod.
        rewrite <- (length_map (fun c => (hc_author c, hc_adposition c))).
        f_equal. unfold compare_to_hemingway in Hentries.
        destruct (negb (mem "hemingway" (m_index m))); [discriminate|].
        injection Hentries as <-. apply compare_to_hemingway_pairs. }
      rewrite Hlen, <- (filter_other_labels_length "hemingway" _ Hnodup Hin).
      lia.
    + apply Forall_forall. intros c Hc.
      exact (proj1 (compare_to_hemingway_In m entries c Hentries Hc)).
  - unfold compare_to_hemingway in Hentries.
    apply mem_In in Hin. rewrite Hin in Hentries. discriminate.
Qed.

Lemma compare_to_hemingway_entry_count_witness :
  NoDup (m_index ten_two_two)
  /\ In "hemingway" (m_index ten_two_two)
  /\ exists entries : list HemingwayComparison,
       compare_to_hemingway ten_two_two = Some entries
       /\ List.length entries = 2%nat.
Proof.
  assert (Hnodup : NoDup (m_index ten_two_two)).
  { repeat constructor; cbn [In]; intros H;
      repeat (destruct H as [H|H]; [discriminate|]); exact H. }
  assert (Hin : In "hemingway" (m_index ten_two_two))
    by (right; right; left; reflexivity).
  split; [exact Hnodup|]. split; [exact Hin|].
  destruct (compare_to_hemingway_entry_count ten_two_two Hnodup Hin)
    as [entries [Hentries [Hlen _]]].
  exists entries. split; [exact Hentries|].
  cbn [ten_two_two m_index m_columns List.length] in Hlen. lia.
Defined.

(** Whenever Hemingway's rate is not positive - zero, missing or
    not-a-number - the ratio is plus infinity, whatever the author's rate,
    a rate of zero included; with a missing rate of Hemingway the
    difference is not-a-number. *)
Theorem ratio_without_positive_baseline (m : ComparisonMatrix)
    (entries : list HemingwayComparison) (c : HemingwayComparison) :
  compare_to_hemingway m = Some entries ->
  In c entries ->
  gtb (loc m "hemingway" (hc_adposition c)) (Fin 0) = false ->
  ratio c = PInf
  /\ (lookup_cell (m_cells m) ("hemingway", hc_adposition c) = None ->
      hemingway_freq c = NaN /\ difference c = NaN).
Proof.
  intros Hentries Hin Hnot.
  destruct (compare_to_hemingway_In m entries c Hentries Hin)
    as [_ [_ [_ Hc]]].
  rewrite Hc. cbn [ratio difference hemingway_freq compare_cell
                   hc_adposition] in *.
  rewrite Hnot. split; [reflexivity|].
  intros Hmissing. unfold loc at 1 3. rewrite Hmissing.
  split; [reflexivity|].
  now destruct (loc m (hc_author c) (hc_adposition c)).
Qed.

Lemma ratio_without_positive_baseline_witness :
  let m := mkMatrix ["faulkner"; "hemingway"] ["across"; "past"]
             [(("faulkner", "across"), Fin 0);
              (("faulkner", "past"), Fin 3);
              (("hemingway", "across"), Fin 0)] in
  exists entries : list HemingwayComparison,
    compare_to_hemingway m = Some entries
    /\ map (fun c => (hc_adposition c, difference c)) entries
       = [("across", Fin 0); ("past", NaN)]
    /\ Forall (fun c => ratio c = PInf) entries.
Proof.
  intros m.
  destruct (compare_to_hemingway m) as [entries|] eqn:Hentries;
    [|vm_compute in Hentries; discriminate].
  exists entries. split; [reflexivity|].
  assert (Hall : Forall (fun c => ratio c = PInf) entries).
  { apply Forall_forall. intros c Hc.
    apply (ratio_without_positive_baseline m entries c Hentries Hc).
    destruct (compare_to_hemingway_In m entries c Hentries Hc)
      as [_ [_ [Hp _]]].
    cbn [m m_columns In] in Hp.
    destruct Hp as [<-|[<-|[]]]; reflexivity. }
  split; [|exact Hall].
  vm_compute in Hentries. injection Hentries as <-. reflexivity.
Defined.

(** ** More on the distinctive features *)

Lemma leb_trans (x y z : num) :
  leb x y = true -> leb y z = true -> leb x z = true.
Proof.
  destruct x as [| | |a], y as [| | |b], z as [| | |c]; cbn [leb];
    try discriminate; try reflexivity.
  rewrite !Qle_bool_iff. apply Qle_trans.
Qed.

Lemma flat_map_nil {A B : Type} (f : A -> list B) (l : list A) :
  (forall x, In x l -> f x = []) -> flat_map f l = [].
Proof.
  induction l as [|x l IH]; intros H; cbn [flat_map]; [reflexivity|].
  rewrite (H x (or_introl eq_refl)), IH; [reflexivity|].
  intros y Hy. apply H. now right.
Qed.

Lemma filter_flat_map {A B : Type} (p : B -> bool) (f : A -> list B)
    (l : list A) :
  filter p (flat_map f l) = flat_map (fun x => filter p (f x)) l.
Proof.
  induction l as [|x l IH]; cbn [flat_map]; [reflexivity|].
  now rewrite filter_app, IH.
Qed.

(** A matrix with a single author, or none, has no distinctive feature:
    there is no other author to compare with. *)
Theorem single_author_no_features (m : ComparisonMatrix) (threshold : num) :
  (List.length (m_index m) <= 1)%nat ->
  identify_distinctive_features m threshold = [].
Proof.
  intros Hlen. unfold identify_distinctive_features.
  apply flat_map_nil. intros a Ha. apply flat_map_nil. intros p _.
  unfold distinctive_cell, others_mean.
  destruct (m_index m) as [|a0 [|a1 rest]]; [contradiction| |cbn in Hlen; lia].
  destruct Ha as [<-|[]]. cbn [filter].
  rewrite String.eqb_refl. reflexivity.
Qed.

Lemma single_author_no_features_witness :
  let m := mkMatrix ["hemingway"] ["across"]
             [(("hemingway", "across"), Fin 5)] in
  (List.length (m_index m) <= 1)%nat
  /\ identify_distinctive_features m default_threshold = [].
Proof.
  intros m.
  assert (Hlen : (List.length (m_index m) <= 1)%nat) by (cbn; lia).
  split; [exact Hlen|].
  exact (single_author_no_features m default_threshold Hlen).
Defined.

(** Raising the threshold never adds a feature: what is emitted at a
    threshold is emitted at every lower one. *)
Theorem higher_threshold_fewer_features (m : ComparisonMatrix)
    (low high : num) (f : DistinctiveFeature) :
  leb low high = true ->
  In f (identify_distinctive_features m high) ->
  In f (identify_distinctive_features m low).
Proof.
  intros Hle Hin.
  apply identify_distinctive_features_In in Hin.
  destruct Hin as [Ha [Hp Hcell]].
  apply identify_distinctive_features_In.
  split; [exact Ha|]. split; [exact Hp|].
  apply distinctive_cell_In in Hcell. destruct Hcell as [Hpos [Hge Hf]].
  apply distinctive_cell_In. split; [exact Hpos|]. split; [|exact Hf].
  unfold geb in *. exact (leb_trans _ _ _ Hle Hge).
Qed.

Lemma higher_threshold_fewer_features_witness :
  let anderson := mkFeature "anderson" "across" (Fin 10) (Fin 2) (Fin 5)
                            "high" in
  leb default_threshold (Fin 4) = true
  /\ In anderson (identify_distinctive_features ten_two_two (Fin 4))
  /\ In anderson (identify_distinctive_features ten_two_two default_threshold).
Proof.
  intros anderson.
  assert (Hle : leb default_threshold (Fin 4) = true) by reflexivity.
  assert (Hin : In anderson (identify_distinctive_features ten_two_two (Fin 4)))
    by (vm_compute; left; reflexivity).
  split; [exact Hle|]. split; [exact Hin|].
  exact (higher_threshold_fewer_features ten_two_two default_threshold (Fin 4)
           anderson Hle Hin).
Defined.

(** For a threshold of at most 2, the features of level "high" are the
    features found with the threshold 2, in the same order. *)
Theorem high_features_are_those_at_2 (m : ComparisonMatrix) (threshold : num) :
  leb threshold (Fin 2) = true ->
  filter (fun f => String.eqb (distinctive_level f) "high")
         (identify_distinctive_features m threshold)
  = identify_distinctive_features m (Fin 2).
Proof.
  intros Hle. unfold identify_distinctive_features.
  rewrite filter_flat_map. apply flat_map_ext. intros a.
  rewrite filter_flat_map. apply flat_map_ext. intros p.
  unfold distinctive_cell.
  destruct (gtb (others_mean m a p) (Fin 0)); [|reflexivity].
  destruct (geb (div (loc m a p) (others_mean m a p)) (Fin 2)) eqn:H2.
  - unfold geb in *. rewrite (leb_trans _ _ _ Hle H2). reflexivity.
  - destruct (geb (div (loc m a p) (others_mean m a p)) threshold);
      reflexivity.
Qed.

Lemma high_features_are_those_at_2_witness :
  let m := mkMatrix ["anderson"; "faulkner"; "hemingway"] ["across"; "past"]
             [(("anderson", "across"), Fin 10);
              (("faulkner", "across"), Fin 2);
              (("hemingway", "across"), Fin 2);
              (("anderson", "past"), Fin 3);
              (("faulkner", "past"), Fin 5);
              (("hemingway", "past"), Fin 3)] in
  leb default_threshold (Fin 2) = true
  /\ flagged (identify_distinctive_features m default_threshold)
     = [("anderson", "across", "high"); ("faulkner", "past", "moderate")]
  /\ flagged (identify_distinctive_features m (Fin 2))
     = [("anderson", "across", "high")].
Proof.
  intros m.
  assert (Hle : leb default_threshold (Fin 2) = true) by reflexivity.
  split; [exact Hle|]. split; [vm_compute; reflexivity|].
  rewrite <- (high_features_are_those_at_2 m default_threshold Hle).
  vm_compute. reflexivity.
Defined.

Lemma div_zero_by_positive (q : Q) (others : num) :
  (q == 0)%Q -> gtb others (Fin 0) = true -> div (Fin q) others = Fin 0.
Proof.
  intros Hq Hpos. destruct others as [| | |b]; try discriminate.
  - reflexivity.
  - cbn [div]. unfold gtb, ltb, Qltb in Hpos.
    destruct (Qzero b) eqn:Hb.
    + unfold Qzero in Hb. apply Qeq_bool_eq in Hb.
      assert (Hle : Qle_bool b 0 = true)
        by (apply Qle_bool_iff; rewrite Hb; apply Qle_refl).
      rewrite Hle in Hpos. discriminate.
    + unfold fin. rewrite (Qred_complete (q / b) 0); [reflexivity|].
      rewrite Hq. unfold Qdiv. apply Qmult_0_l.
Qed.

(** With a positive threshold, an adposition whose rate is zero for an
    author is never a distinctive feature of that author. *)
Theorem zero_rate_never_distinctive (m : ComparisonMatrix) (threshold : num)
    (author adp : string) (q : Q) (f : DistinctiveFeature) :
  ltb (Fin 0) threshold = true ->
  loc m author adp = Fin q ->
  (q == 0)%Q ->
  In f (identify_distinctive_features m threshold) ->
  ~ (df_author f = author /\ df_adposition f = adp).
Proof.
  intros Hthreshold Hloc Hq Hin [Ha Hp].
  apply identify_distinctive_features_In in Hin.
  destruct Hin as [_ [_ Hcell]]. rewrite Ha, Hp in Hcell.
  apply distinctive_cell_In in Hcell. destruct Hcell as [Hpos [Hge _]].
  rewrite Hloc, (div_zero_by_positive q _ Hq Hpos) in Hge.
  unfold geb in Hge.
  destruct threshold as [| | |c]; cbn [ltb leb] in *; try discriminate.
  unfold Qltb in Hthreshold. rewrite Hge in Hthreshold. discriminate.
Qed.

Lemma zero_rate_never_distinctive_witness :
  let m := mkMatrix ["faulkner"; "hemingway"] ["beyond"]
             [(("faulkner", "beyond"), Fin 4);
              (("hemingway", "beyond"), Fin 0)] in
  ltb (Fin 0) default_threshold = true
  /\ loc m "hemingway" "beyond" = Fin 0
  /\ identify_distinctive_features m default_threshold = []
  /\ ~ In (mkFeature "hemingway" "beyond" (Fin 0) (Fin 4) (Fin 0) "moderate")
          (identify_distinctive_features m default_threshold).
Proof.
  intros m.
  split; [reflexivity|]. split; [reflexivity|].
  split; [vm_compute; reflexivity|].
  intros Hin.
  exact (zero_rate_never_distinctive m default_threshold "hemingway" "beyond"
           0 _ eq_refl eq_refl (Qeq_refl 0) Hin (conj eq_refl eq_refl)).
Defined.

(** ** Rankings *)

Lemma leb_total (x y : num) :
  is_nan x = false -> is_nan y = false -> leb x y = false -> leb y x = true.
Proof.
  destruct x as [| | |a], y as [| | |b]; cbn [is_nan leb];
    try discriminate; try reflexivity.
  intros _ _ H. apply Qle_bool_iff.
  destruct (Qlt_le_dec b a) as [Hlt|Hle].
  - now apply Qlt_le_weak.
  - apply Qle_bool_iff in Hle. congruence.
Qed.

Lemma ranks_before_total (x y : string * num) :
  ranks_before x y = false -> ranks_before y x = true.
Proof.
  unfold ranks_before, geb. intros H.
  apply orb_false_iff in H. destruct H as [Hy H].
  destruct (is_nan (snd x)) eqn:Hx; [reflexivity|].
  cbn [negb andb] in H. rewrite Hy. cbn [orb negb andb].
  now apply leb_total.
Qed.

Lemma insert_ranked_HdRel (x y : string * num) (l : list (string * num)) :
  ranks_before y x = true ->
  HdRel (fun a b => ranks_before a b = true) y l ->
  HdRel (fun a b => ranks_before a b = true) y (insert_ranked x l).
Proof.
  intros Hyx Hhd. destruct l as [|z l]; cbn [insert_ranked].
  - now constructor.
  - destruct (ranks_before x z); constructor;
      [exact Hyx | now inversion Hhd].
Qed.

Lemma insert_ranked_Sorted (x : string * num) (l : list (string * num)) :
  Sorted (fun a b => ranks_before a b = true) l ->
  Sorted (fun a b => ranks_before a b = true) (insert_ranked x l).
Proof.
  induction 1 as [|y l Hsorted IH Hhd]; cbn [insert_ranked].
  - repeat constructor.
  - destruct (ranks_before x y) eqn:Hxy.
    + constructor; [now constructor | now constructor].
    + constructor; [exact IH|].
      apply insert_ranked_HdRel; [|exact Hhd].
      now apply ranks_before_total.
Qed.

Lemma insert_ranked_Permutation (x : string * num)
    (l : list (string * num)) :
  Permutation (insert_ranked x l) (x :: l).
Proof.
  induction l as [|y l IH]; cbn [insert_ranked].
  - reflexivity.
  - destruct (ranks_before x y); [reflexivity|].
    rewrite IH. apply perm_swap.
Qed.

Lemma sort_values_descending_Sorted (l : list (string * num)) :
  Sorted (fun a b => ranks_before a b = true) (sort_values_descending l).
Proof.
  unfold sort_values_descending. induction l as [|x l IH]; cbn [fold_right].
  - constructor.
  - now apply insert_ranked_Sorted.
Qed.

Lemma sort_values_descending_Permutation (l : list (string * num)) :
  Permutation (sort_values_descending l) l.
Proof.
  unfold sort_values_descending. induction l as [|x l IH]; cbn [fold_right].
  - reflexivity.
  - rewrite insert_ranked_Permutation. now constructor.
Qed.

Lemma to_dict_from (l : list (string * num)) (d : dict num) :
  NoDup (map fst l) ->
  (forall a, In a l -> ~ In (fst a) (dict_keys d)) ->
  fold_left (fun d '(k, v) => dict_set k v d) l d = d ++ l.
Proof.
  revert d. induction l as [|[k v] l IH]; intros d Hnodup Hfresh;
    cbn [fold_left].
  - now rewrite app_nil_r.
  - cbn [map fst] in Hnodup. inversion Hnodup as [|k' ks Hk Hrest]; subst.
    rewrite dict_set_fresh by (apply (Hfresh (k, v)); now left).
    rewrite IH; [now rewrite <- app_assoc | exact Hrest |].
    intros a Ha. rewrite dict_keys_app, in_app_iff.
    cbn [dict_keys map fst In]. intros [H|[H|[]]].
    + apply (Hfresh a); [now right | exact H].
    + apply Hk. rewrite H. now apply in_map.
Qed.

(** A series with distinct labels is its own dictionary. *)
Lemma to_dict_distinct (l : list (string * num)) :
  NoDup (map fst l) -> to_dict l = l.
Proof.
  intros Hnodup. unfold to_dict.
  rewrite to_dict_from; [reflexivity | exact Hnodup | intros a _ []].
Qed.

Lemma rankings_from_get (m : ComparisonMatrix) (cols : list string)
    (d : dict (dict num)) (p : string) :
  In p cols ->
  dict_get
    (fold_left
       (fun rankings adposition =>
          dict_set adposition
            (to_dict (sort_values_descending
                        (map (fun a => (a, loc m a adposition)) (m_index m))))
            rankings)
       cols d) p
  = Some (to_dict (sort_values_descending
                     (map (fun a => (a, loc m a p)) (m_index m)))).
Proof.
  revert d. induction cols as [|c cols IH]; intros d Hin; [contradiction|].
  cbn [fold_left].
  destruct (in_dec string_dec p cols) as [Hp|Hp].
  - now apply IH.
  - destruct Hin as [->|Hin]; [|contradiction].
    clear IH. generalize (dict_get_set_eq d p
      (to_dict (sort_values_descending
                  (map (fun a => (a, loc m a p)) (m_index m))))).
    generalize (dict_set p
      (to_dict (sort_values_descending
                  (map (fun a => (a, loc m a p)) (m_index m)))) d).
    induction cols as [|c cols IH]; intros d' Hd'; [exact Hd'|].
    cbn [fold_left]. apply IH.
    + intros H. apply Hp. now right.
    + rewrite dict_get_set_ne; [exact Hd'|].
      intros ->. apply Hp. now left.
Qed.

Lemma Sorted_weaken {A : Type} (R R' : A -> A -> Prop) (l : list A) :
  (forall x y, R x y -> R' x y) -> Sorted R l -> Sorted R' l.
Proof.
  intros Himpl. induction 1 as [|x l _ IH Hhd]; constructor; [exact IH|].
  destruct Hhd; constructor. now apply Himpl.
Qed.

Lemma ranks_before_meaning (x y : string * num) :
  ranks_before x y = true ->
  is_nan (snd y) = true
  \/ (is_nan (snd x) = false /\ leb (snd y) (snd x) = true).
Proof.
  unfold ranks_before, geb. intros H.
  apply orb_true_iff in H. destruct H as [H|H]; [now left|].
  apply andb_true_iff in H. destruct H as [Hx Hge].
  right. split; [now apply negb_true_iff | exact Hge].
Qed.

(** The ranking of an adposition lists every author of the matrix once
    with the value of the cell, greater values first and not-a-number
    values last. *)
Theorem author_rankings_sorted (m : ComparisonMatrix) (adp : string) :
  NoDup (m_index m) ->
  In adp (m_columns m) ->
  exists ranking : dict num,
    dict_get (calculate_author_rankings m) adp = Some ranking
    /\ Permutation ranking (map (fun a => (a, loc m a adp)) (m_index m))
    /\ Sorted (fun x y =>
                 is_nan (snd y) = true
                 \/ (is_nan (snd x) = false /\ leb (snd y) (snd x) = true))
              ranking
    /\ forall author, In author (m_index m) ->
         dict_get ranking author = Some (loc m author adp).
Proof.
  intros Hnodup Hin. unfold calculate_author_rankings.
  rewrite (rankings_from_get m _ _ adp Hin).
  pose proof (sort_values_descending_Permutation
                (map (fun a => (a, loc m a adp)) (m_index m))) as Hperm.
  assert (Hkeys : NoDup (map fst (sort_values_descending
                    (map (fun a => (a, loc m a adp)) (m_index m))))).
  { apply (Permutation_NoDup (Permutation_sym (Permutation_map fst Hperm))).
    rewrite map_map. cbn [fst]. now rewrite map_id. }
  rewrite (to_dict_distinct _ Hkeys).
  eexists. split; [reflexivity|]. split; [exact Hperm|].
  split.
  { apply (Sorted_weaken _ _ _ ranks_before_meaning).
    apply sort_values_descending_Sorted. }
  intros author Hauthor.
  assert (Hentry : In (author, loc m author adp)
                      (sort_values_descending
                         (map (fun a => (a, loc m a adp)) (m_index m)))).
  { apply (Permutation_in _ (Permutation_sym Hperm)).
    apply in_map_iff. now exists author. }
  revert Hkeys Hentry.
  generalize (sort_values_descending
                (map (fun a => (a, loc m a adp)) (m_index m))).
  intros l. induction l as [|[k v] l IH]; intros Hkeys Hentry;
    [contradiction|].
  cbn [dict_get]. cbn [map fst] in Hkeys.
  inversion Hkeys as [|k' ks Hk Hrest]; subst.
  destruct Hentry as [[= -> ->]|Hentry].
  - now rewrite String.eqb_refl.
  - destruct (String.eqb_spec k author) as [->|_].
    + exfalso. apply Hk. apply in_map_iff.
      now exists (author, loc m author adp).
    + now apply IH.
Qed.

Lemma author_rankings_sorted_witness :
  let m := mkMatrix ["anderson"; "dos passos"; "faulkner"; "hemingway"]
             ["across"]
             [(("anderson", "across"), Fin 1);
              (("faulkner", "across"), Fin 3);
              (("hemingway", "across"), Fin 2)] in
  NoDup (m_index m)
  /\ In "across" (m_columns m)
  /\ dict_get (calculate_author_rankings m) "across"
     = Some [("faulkner", Fin 3); ("hemingway", Fin 2); ("anderson", Fin 1);
             ("dos passos", NaN)]
  /\ exists ranking : dict num,
       dict_get (calculate_author_rankings m) "across" = Some ranking
       /\ dict_get ranking "faulkner" = Some (Fin 3).
Proof.
  intros m.
  assert (Hnodup : NoDup (m_index m)).
  { repeat constructor; cbn [In]; intros H;
      repeat (destruct H as [H|H]; [discriminate|]); exact H. }
  assert (Hin : In "across" (m_columns m)) by (now left).
  split; [exact Hnodup|]. split; [exact Hin|].
  split; [vm_compute; reflexivity|].
  destruct (author_rankings_sorted m "across" Hnodup Hin)
    as [ranking [Hget [_ [_ Hcells]]]].
  exists ranking. split; [exact Hget|].
  exact (Hcells "faulkner" (or_intror (or_intror (or_introl eq_refl)))).
Defined.

(** ** The scripts in sequence never fail *)

Lemma record_numeric_keys (word_tokenize : string -> list string)
    (f : file) (author : string) (record : dict value) :
  process_corpus_file word_tokenize f author = Ok record ->
  dict_keys (numeric_cells record)
  = "total_words"
    :: map (fun adp => (adp ++ "_count")%string) TARGET_ADPOSITIONS
    ++ map (fun adp => (adp ++ "_per_10k")%string) TARGET_ADPOSITIONS.
Proof.
  intros Hrecord.
  destruct (contents f) as [text|] eqn:Hread.
  - rewrite (process_corpus_file_record _ _ _ _ Hread) in Hrecord.
    injection Hrecord as <-. unfold stored_rate.
    destruct (Z.of_nat _ =? 0); reflexivity.
  - unfold process_corpus_file, read_text_file in Hrecord.
    rewrite Hread in Hrecord. discriminate.
Qed.

Lemma extract_main_In (word_tokenize : string -> list string)
    (hemingway comparables : list file) (record : dict value) :
  In record (extract_main word_tokenize hemingway comparables) ->
  exists f author, process_corpus_file word_tokenize f author = Ok record.
Proof.
  unfold extract_main. intros Hin. apply in_app_or in Hin.
  destruct Hin as [Hin|Hin]; exact (process_author_corpus_In _ _ _ _ Hin).
Qed.

(** The raw dataset of a corpus with a readable document has the word
    count column and the count and rate columns of every target. *)
Lemma extracted_frame_columns (word_tokenize : string -> list string)
    (hemingway comparables : list file) (c : string) :
  extract_main word_tokenize hemingway comparables <> [] ->
  In c ("total_words"
        :: map (fun adp => (adp ++ "_count")%string) TARGET_ADPOSITIONS
        ++ map (fun adp => (adp ++ "_per_10k")%string) TARGET_ADPOSITIONS) ->
  mem c (columns (frame_of_records
                    (extract_main word_tokenize hemingway comparables)))
  = true.
Proof.
  intros Hrecords Hc. apply mem_In. unfold frame_of_records. cbn [columns].
  apply unique_In, in_flat_map.
  destruct (extract_main word_tokenize hemingway comparables)
    as [|record records] eqn:Hmain; [contradiction|].
  exists record. split; [now left|].
  destruct (extract_main_In word_tokenize hemingway comparables record)
    as [f [author Hf]]; [rewrite Hmain; now left|].
  now rewrite (record_numeric_keys _ _ _ _ Hf).
Qed.

Section Success.

Variable Qsqrt : Q -> Q.

Lemma stats_loop_Ok (author_df : DataFrame) (targets : list string)
    (d : dict value) :
  (forall adp, In adp targets ->
               mem (adp ++ "_per_10k") (columns author_df) = true) ->
  exists d', foldM (author_adposition_stats Qsqrt author_df) targets d = Ok d'.
Proof.
  revert d. induction targets as [|t targets IH]; intros d Hcols;
    cbn [foldM]; [now eexists|].
  assert (Hstep : exists d1,
            author_adposition_stats Qsqrt author_df d t = Ok d1).
  { unfold author_adposition_stats, column.
    destruct (mem (t ++ "_count") (columns author_df)); [|now eexists].
    rewrite (Hcols t (or_introl eq_refl)). cbn [bind]. now eexists. }
  destruct Hstep as [d1 ->]. cbn [bind].
  apply IH. intros adp Hadp. apply Hcols. now right.
Qed.

Lemma mapM_Ok {A B : Type} (f : A -> result B) (l : list A) :
  (forall a, In a l -> exists b, f a = Ok b) ->
  exists bs, mapM f l = Ok bs.
Proof.
  induction l as [|a l IH]; intros Hf; cbn [mapM]; [now eexists|].
  destruct (Hf a (or_introl eq_refl)) as [b ->]. cbn [bind].
  destruct IH as [bs ->]; [intros a' Ha'; apply Hf; now right|].
  cbn [bind]. now eexists.
Qed.

Lemma calculate_author_statistics_Ok (df : DataFrame)
    (targets : list string) :
  mem "total_words" (columns df) = true ->
  (forall adp, In adp targets ->
               mem (adp ++ "_per_10k") (columns df) = true) ->
  exists stats, calculate_author_statistics Qsqrt df targets = Ok stats.
Proof.
  intros Htw Hcols. unfold calculate_author_statistics.
  apply mapM_Ok. intros author _. unfold author_statistics_row, column.
  cbn [columns select_author]. rewrite Htw. cbn [bind].
  now apply stats_loop_Ok.
Qed.

End Success.

Lemma TARGET_ADPOSITIONS_NoDup : NoDup TARGET_ADPOSITIONS.
Proof.
  unfold TARGET_ADPOSITIONS.
  repeat constructor; cbn [In]; intros H;
    repeat (destruct H as [H|H]; [discriminate|]); exact H.
Qed.

(** For a corpus with at least one readable document, no stage of the
    analysis and of the comparison raises on what the extraction wrote:
    the totals, the author statistics, the comparison matrix and the
    distinctive features are all computed, and the matrix has a row for
    the author of every work and a column for each of the six
    adpositions. *)
Theorem pipeline_never_fails (word_tokenize : string -> list string)
    (Qsqrt : Q -> Q) (hemingway comparables : list file) :
  extract_main word_tokenize hemingway comparables <> [] ->
  let df := frame_of_records
              (extract_main word_tokenize hemingway comparables) in
  (exists enriched,
     calculate_total_adpositions df TARGET_ADPOSITIONS = Ok enriched)
  /\ (exists stats,
        calculate_author_statistics Qsqrt df TARGET_ADPOSITIONS = Ok stats)
  /\ (exists m,
        corpus_matrix word_tokenize Qsqrt hemingway comparables = Ok m
        /\ (forall r, In r (rows df) -> In (r_author r) (m_index m))
        /\ (forall adp, In adp TARGET_ADPOSITIONS -> In adp (m_columns m)))
  /\ (exists features,
        corpus_distinctive_features word_tokenize Qsqrt hemingway comparables
        = Ok features).
Proof.
  intros Hrecords df.
  assert (Hcol : forall c,
            In c ("total_words"
                  :: map (fun adp => (adp ++ "_count")%string)
                         TARGET_ADPOSITIONS
                  ++ map (fun adp => (adp ++ "_per_10k")%string)
                         TARGET_ADPOSITIONS) ->
            mem c (columns df) = true).
  { intros c. now apply extracted_frame_columns. }
  assert (Htw : mem "total_words" (columns df) = true)
    by (apply Hcol; now left).
  assert (Hcounts : forall adp, In adp TARGET_ADPOSITIONS ->
            mem (adp ++ "_count") (columns df) = true).
  { intros adp Hadp. apply Hcol. right. apply in_or_app. left.
    apply in_map_iff. now exists adp. }
  assert (Hrates : forall adp, In adp TARGET_ADPOSITIONS ->
            mem (adp ++ "_per_10k") (columns df) = true).
  { intros adp Hadp. apply Hcol. right. apply in_or_app. right.
    apply in_map_iff. now exists adp. }
  assert (Hrow : exists r, In r (rows df)).
  { unfold df, frame_of_records. cbn [rows].
    destruct (extract_main word_tokenize hemingway comparables)
      as [|record records]; [contradiction|].
    eexists. now left. }
  assert (Hmatrix : exists m,
            corpus_matrix word_tokenize Qsqrt hemingway comparables = Ok m
            /\ (forall r, In r (rows df) -> In (r_author r) (m_index m))
            /\ (forall adp, In adp TARGET_ADPOSITIONS ->
                            In adp (m_columns m))).
  { unfold corpus_matrix. fold df.
    pose proof (create_frequency_summary_keys Qsqrt df TARGET_ADPOSITIONS)
      as Hkeys.
    assert (Hdistinct :
              NoDup (map (fun e => (fs_author e, fs_adposition e))
                         (create_frequency_summary Qsqrt df
                                                   TARGET_ADPOSITIONS))).
    { rewrite Hkeys. apply NoDup_list_prod; [apply unique_NoDup|].
      apply NoDup_filter, TARGET_ADPOSITIONS_NoDup. }
    unfold create_comparison_matrix, pivot.
    rewrite (proj2 (has_duplicate_NoDup _) Hdistinct).
    eexists. split; [reflexivity|]. cbn [m_index m_columns].
    rewrite !map_map.
    assert (Hpair : forall r adp, In r (rows df) ->
              In adp TARGET_ADPOSITIONS ->
              exists e, In e (create_frequency_summary Qsqrt df
                                                       TARGET_ADPOSITIONS)
                        /\ fs_author e = r_author r
                        /\ fs_adposition e = adp).
    { intros r adp Hr Hadp.
      assert (Hin : In (r_author r, adp)
                (map (fun e => (fs_author e, fs_adposition e))
                     (create_frequency_summary Qsqrt df TARGET_ADPOSITIONS))).
      { rewrite Hkeys. apply in_prod.
        - apply unique_In, in_map_iff. now exists r.
        - apply filter_In. split; [exact Hadp | now apply Hrates]. }
      apply in_map_iff in Hin. destruct Hin as [e [[= Ha Hp] He]].
      now exists e. }
    split.
    - intros r Hr.
      destruct (Hpair r "across" Hr (or_introl eq_refl)) as [e [He [Ha _]]].
      apply sort_labels_In, unique_In, in_map_iff. now exists e.
    - intros adp Hadp. destruct Hrow as [r Hr].
      destruct (Hpair r adp Hr Hadp) as [e [He [_ Hp]]].
      apply sort_labels_In, unique_In, in_map_iff. now exists e. }
  split; [now apply calculate_total_adpositions_Ok|].
  split; [now apply calculate_author_statistics_Ok|].
  split; [exact Hmatrix|].
  destruct Hmatrix as [m [Hm _]].
  unfold corpus_distinctive_features. rewrite Hm. cbn [bind]. now eexists.
Qed.

Lemma pipeline_never_fails_witness :
  extract_main split_tokenize [short_work] [long_work] <> []
  /\ (exists stats,
        calculate_author_statistics isqrt
          (frame_of_records
             (extract_main split_tokenize [short_work] [long_work]))
          TARGET_ADPOSITIONS = Ok stats)
  /\ (exists features,
        corpus_distinctive_features split_tokenize isqrt
          [short_work] [long_work] = Ok features).
Proof.
  assert (Hrecords : extract_main split_tokenize [short_work] [long_work]
                     <> []).
  { intros H.
    apply (f_equal (@List.length (dict value))) in H.
    vm_compute in H. discriminate. }
  split; [exact Hrecords|].
  destruct (pipeline_never_fails split_tokenize isqrt [short_work] [long_work]
              Hrecords) as [_ [Hstats [_ Hfeatures]]].
  split; [exact Hstats | exact Hfeatures].
Defined.

(* ================================================================== *)
(** * Properties over binary64 floats *)

(** ** The quotient of a count by the number of words *)

Lemma digits2_pos_size (p : positive) : digits2_pos p = Pos.size p.
Proof. induction p as [p IH|p IH|]; simpl; now rewrite ?IH. Qed.

Lemma Zdigits2_nonneg (m : Z) : 0 <= Zdigits2 m.
Proof. destruct m; cbn; lia. Qed.

Lemma Zdigits2_lower (m : Z) : 0 <= m -> m < 2 ^ Zdigits2 m.
Proof.
  intros Hm. destruct m as [|p|p]; [reflexivity| |lia].
  cbn [Zdigits2]. rewrite digits2_pos_size.
  change 2 with (Z.pos 2). rewrite <- Pos2Z.inj_pow.
  apply Pos2Z.pos_lt_pos, Pos.size_gt.
Qed.

Lemma Zdigits2_upper (m k : Z) :
  0 <= m -> 0 <= k -> m < 2 ^ k -> Zdigits2 m <= k.
Proof.
  intros Hm Hk Hlt. destruct m as [|p|p]; [exact Hk| |lia].
  cbn [Zdigits2]. rewrite digits2_pos_size.
  pose proof (Pos.size_le p) as Hle.
  assert (H2 : 2 ^ Z.pos (Pos.size p) <= 2 * Z.pos p).
  { change 2 with (Z.pos 2) at 1. rewrite <- Pos2Z.inj_pow.
    change (2 * Z.pos p) with (Z.pos p~0). now apply Pos2Z.pos_le_pos. }
  assert (H3 : 2 ^ Z.pos (Pos.size p) < 2 ^ (k + 1)).
  { rewrite Z.pow_add_r by lia. lia. }
  apply Z.pow_lt_mono_r_iff in H3; lia.
Qed.

(** Shifting a mantissa to the right keeps it between zero and itself. *)
Lemma shr_1_bounds (mrs : shr_record) :
  0 <= shr_m mrs -> 0 <= shr_m (shr_1 mrs) <= shr_m mrs.
Proof.
  destruct mrs as [m r s]. cbn [shr_m].
  destruct m as [|[p|p|]|[p|p|]]; cbn [shr_1 shr_m]; lia.
Qed.

Lemma iter_shr_1_bounds (p : positive) (mrs : shr_record) :
  0 <= shr_m mrs -> 0 <= shr_m (iter_pos shr_1 p mrs) <= shr_m mrs.
Proof.
  revert mrs. induction p as [p IH|p IH|]; intros mrs Hm; cbn [iter_pos].
  - pose proof (shr_1_bounds mrs Hm) as H1.
    pose proof (IH (shr_1 mrs) (proj1 H1)) as H2.
    pose proof (IH _ (proj1 H2)) as H3. lia.
  - pose proof (IH mrs Hm) as H2.
    pose proof (IH _ (proj1 H2)) as H3. lia.
  - now apply shr_1_bounds.
Qed.

Lemma shr_record_of_loc_m (m : Z) (l : location) :
  shr_m (shr_record_of_loc m l) = m.
Proof. now destruct l as [|[]]. Qed.

Lemma shr_fexp_bounds (m e : Z) (l : location) :
  0 <= m ->
  0 <= shr_m (fst (shr_fexp prec emax m e l)) <= m
  /\ snd (shr_fexp prec emax m e l)
     = Z.max e (fexp prec emax (Zdigits2 m + e)).
Proof.
  intros Hm. unfold shr_fexp, shr.
  destruct (fexp prec emax (Zdigits2 m + e) - e) as [|p|p] eqn:Hn;
    cbn [fst snd].
  - rewrite shr_record_of_loc_m. lia.
  - pose proof (iter_shr_1_bounds p (shr_record_of_loc m l)) as H.
    rewrite shr_record_of_loc_m in H. split; [now apply H | lia].
  - rewrite shr_record_of_loc_m. lia.
Qed.

Lemma round_nearest_even_bounds (m : Z) (l : location) :
  0 <= m -> 0 <= round_nearest_even m l <= m + 1.
Proof.
  intros Hm. unfold round_nearest_even.
  destruct l as [|[]]; try destruct (Z.even m); lia.
Qed.

(** Rounding a mantissa below [2 ^ 1075], at an exponent that puts the
    value below 2, gives zero or a finite float: the exponent of the result
    stays within the format. *)
Lemma binary_round_aux_representable (sx : bool) (mx ex : Z) (lx : location) :
  0 <= mx -> mx < 2 ^ 1075 -> ex <= 0 -> Zdigits2 mx + ex <= 1 ->
  Binary64.representable (binary_round_aux prec emax sx mx ex lx) = true.
Proof.
  intros Hm Hlt He Hsum. unfold binary_round_aux.
  destruct (shr_fexp_bounds mx ex lx Hm) as [Hm1 He1].
  destruct (shr_fexp prec emax mx ex lx) as [mrs' e'].
  cbn [fst snd] in Hm1, He1.
  set (m1 := round_nearest_even (shr_m mrs') (loc_of_shr_record mrs')).
  assert (Hm1' : 0 <= m1 <= mx + 1).
  { pose proof (round_nearest_even_bounds (shr_m mrs')
                  (loc_of_shr_record mrs') (proj1 Hm1)) as H.
    fold m1 in H. lia. }
  destruct (shr_fexp_bounds m1 e' loc_Exact (proj1 Hm1')) as [Hm2 He2].
  destruct (shr_fexp prec emax m1 e' loc_Exact) as [mrs'' e''].
  cbn [fst snd] in Hm2, He2.
  assert (Hd1 : Zdigits2 m1 <= 1076).
  { apply Zdigits2_upper; [lia | lia |].
    change (2 ^ 1076) with (2 * 2 ^ 1075). lia. }
  pose proof (Zdigits2_nonneg mx) as Hd0.
  assert (Hd2 : Zdigits2 m1 <= Zdigits2 mx + 1).
  { apply Zdigits2_upper; [lia | lia |].
    pose proof (Zdigits2_lower mx Hm).
    rewrite Z.pow_add_r by lia. lia. }
  assert (He'' : e'' <= 971).
  { subst e'' e'. unfold fexp, SpecFloat.emin, prec, emax. lia. }
  destruct (shr_m mrs'') as [|p|p]; [reflexivity| |lia].
  replace (e'' <=? emax - prec) with true; [reflexivity|].
  symmetry. apply Z.leb_le. unfold emax, prec. lia.
Qed.

(** The quotient of a count by a total that is at least the count is zero
    or a finite float. *)
Lemma quotient_fraction (a b : Z) :
  0 <= a <= b -> 0 < b ->
  Binary64.representable (Binary64.quotient a b) = true.
Proof.
  intros Ha Hb. unfold Binary64.quotient.
  destruct b as [|pb|pb]; [lia| |lia].
  destruct a as [|pa|pa]; [reflexivity| |lia].
  cbn [Binary64.Z2SF SFdiv]. unfold SFdiv_core_binary.
  set (d1 := Zdigits2 (Z.pos pa)). set (d2 := Zdigits2 (Z.pos pb)).
  set (e' := Z.min (fexp prec emax (d1 + 0 - (d2 + 0))) (0 - 0)).
  assert (He' : -1074 <= e' <= 0).
  { unfold e', fexp, SpecFloat.emin, prec, emax. lia. }
  set (s := 0 - 0 - e').
  set (m' := match s with
             | 0 => Z.pos pa
             | Z.pos _ => Z.shiftl (Z.pos pa) s
             | Z.neg _ => 0
             end).
  assert (Hm' : m' = Z.pos pa * 2 ^ s).
  { unfold m'. destruct s as [|ps|ps] eqn:Hs; [lia| |lia].
    now rewrite Z.shiftl_mul_pow2 by lia. }
  assert (Hs : 0 <= s <= 1074) by (unfold s; lia).
  pose proof (Z.div_eucl_eq m' (Z.pos pb)) as Hdiv.
  pose proof (Z.mod_pos_bound m' (Z.pos pb)) as Hmod.
  unfold Z.modulo in Hmod.
  destruct (Z.div_eucl m' (Z.pos pb)) as [q r].
  specialize (Hdiv ltac:(lia)). specialize (Hmod ltac:(lia)).
  assert (Hpow : 0 < 2 ^ s) by (apply Z.pow_pos_nonneg; lia).
  assert (Hq : 0 <= q <= 2 ^ s).
  { split; [nia|].
    assert (H : Z.pos pb * q <= Z.pos pb * 2 ^ s) by nia.
    apply Z.mul_le_mono_pos_l in H; lia. }
  apply binary_round_aux_representable.
  - lia.
  - assert (2 ^ s <= 2 ^ 1074) by (apply Z.pow_le_mono_r; lia).
    change (2 ^ 1075) with (2 * 2 ^ 1074). lia.
  - lia.
  - assert (Zdigits2 q <= s + 1).
    { apply Zdigits2_upper; [lia|lia|]. rewrite Z.pow_add_r by lia. lia. }
    lia.
Qed.

Lemma py_truediv_fraction (a b : Z) :
  0 <= a <= b -> 0 < b ->
  Binary64.py_truediv a b = Ok (SF2Prim (Binary64.quotient a b)).
Proof.
  intros Ha Hb. unfold Binary64.py_truediv.
  replace (b =? 0) with false by (symmetry; apply Z.eqb_neq; lia).
  now rewrite quotient_fraction.
Qed.

Lemma py_float_10000 : Binary64.py_float 10000 = Ok 10000%float.
Proof. reflexivity. Qed.

(** ** The record of one work *)

Arguments Binary64.py_truediv : simpl never.
Arguments Binary64.py_float : simpl never.
Arguments Binary64.py_round2 : simpl never.
Arguments Binary64.quotient : simpl never.
Arguments Binary64.tokenize_text : simpl never.

(** The record that [process_corpus_file] returns for a readable file,
    entry by entry. *)
Lemma binary64_corpus_file_record (str_lower : string -> string)
    (word_tokenize : string -> list string)
    (f : file) (text author : string) :
  contents f = Some text ->
  let tokens := Binary64.tokenize_text str_lower word_tokenize text in
  let total_words := Z.of_nat (List.length tokens) in
  Binary64.process_corpus_file str_lower word_tokenize f author
  = Ok ([("author", Binary64.VStr author);
         ("work", Binary64.VStr (stem f));
         ("total_words", Binary64.VInt total_words)]
        ++ map (fun adp => ((adp ++ "_count")%string,
                            Binary64.VInt (occurrences tokens adp)))
               TARGET_ADPOSITIONS
        ++ map (fun adp => ((adp ++ "_per_10k")%string,
                            Binary64.stored_rate (occurrences tokens adp)
                                                 total_words))
               TARGET_ADPOSITIONS).
Proof.
  intros Hread tokens total_words.
  unfold Binary64.process_corpus_file, read_text_file. rewrite Hread.
  cbn [bind]. fold tokens. fold total_words.
  rewrite count_adpositions_TARGET.
  unfold Binary64.normalize_frequency, Binary64.stored_rate.
  destruct (total_words =? 0) eqn:Hzero.
  - reflexivity.
  - assert (Hdiv : forall adp,
              Binary64.py_truediv (occurrences tokens adp) total_words
              = Ok (SF2Prim (Binary64.quotient (occurrences tokens adp)
                                               total_words))).
    { intros adp. apply py_truediv_fraction.
      - apply occurrences_bounds.
      - apply Z.eqb_neq in Hzero. unfold total_words in *. lia. }
    unfold TARGET_ADPOSITIONS.
    cbn [map foldM bind].
    rewrite !Hdiv, !py_float_10000.
    cbn [map foldM bind dict_set String.eqb Ascii.eqb Bool.eqb fold_left
         Binary64.py_round app String.append].
    reflexivity.
Qed.

(** C1.  A readable document always yields a record, never a division
    fault: the quotient of a count by the number of words is zero or a
    finite float.  The record holds the number of tokens, the count of
    every target adposition and its rate: when the work has words, the
    float quotient of the count by the number of words, multiplied by
    10,000 and rounded to two decimals; the integer 0 when it has none. *)
Theorem C1_rates_per_10k (str_lower : string -> string)
    (word_tokenize : string -> list string)
    (f : file) (text author : string) :
  contents f = Some text ->
  let tokens := Binary64.tokenize_text str_lower word_tokenize text in
  let total_words := Z.of_nat (List.length tokens) in
  exists results : dict Binary64.value,
    Binary64.process_corpus_file str_lower word_tokenize f author = Ok results
    /\ dict_get results "total_words" = Some (Binary64.VInt total_words)
    /\ forall adp : string, In adp TARGET_ADPOSITIONS ->
         let count := occurrences tokens adp in
         dict_get results (adp ++ "_count")%string
         = Some (Binary64.VInt count)
         /\ (0 < total_words ->
             Binary64.py_truediv count total_words
             = Ok (SF2Prim (Binary64.quotient count total_words))
             /\ dict_get results (adp ++ "_per_10k")%string
                = Some (Binary64.VFloat
                          (Binary64.py_round2
                             (SF2Prim (Binary64.quotient count total_words)
                              * 10000)%float)))
         /\ (total_words = 0 ->
             dict_get results (adp ++ "_per_10k")%string
             = Some (Binary64.VInt 0)).
Proof.
  intros Hread tokens total_words.
  eexists. split; [apply (binary64_corpus_file_record _ _ _ _ _ Hread)|].
  fold tokens. fold total_words.
  split; [reflexivity|].
  intros adp Hin count. unfold Binary64.stored_rate.
  assert (Hcases : (0 < total_words -> (total_words =? 0) = false)
                   /\ (total_words = 0 -> (total_words =? 0) = true)).
  { split; intros H; [apply Z.eqb_neq; lia | now apply Z.eqb_eq]. }
  destruct Hcases as [Hpos Hzero].
  assert (Hdiv : 0 < total_words ->
            Binary64.py_truediv count total_words
            = Ok (SF2Prim (Binary64.quotient count total_words))).
  { intros H. apply py_truediv_fraction; [apply occurrences_bounds | exact H]. }
  each_target Hin;
    (split; [reflexivity|];
     split; intros H;
     [split; [exact (Hdiv H)|]; rewrite (Hpos H) | rewrite (Hzero H)];
     reflexivity).
Qed.

Lemma C1_rates_per_10k_witness :
  let text := (words 17 "Across" ++ words 3183 "the")%string in
  let f := mkFile "river" (Some text) in
  contents f = Some text
  /\ (exists results : dict Binary64.value,
        Binary64.process_corpus_file lower split_tokenize f "hemingway"
        = Ok results
        /\ dict_get results "total_words" = Some (Binary64.VInt 3200)
        /\ dict_get results "across_count" = Some (Binary64.VInt 17)
        /\ dict_get results "across_per_10k"
           = Some (Binary64.VFloat (5313 / 100)%float)
        /\ dict_get results "beyond_per_10k"
           = Some (Binary64.VFloat 0%float))
  /\ SF2Prim (Binary64.quotient 17 3200) = (17 / 3200)%float
  /\ (53125 / 1000 <? 17 / 3200 * 10000)%float = true
  /\ Binary64.stored_rate 3 80000 = Binary64.VFloat (37 / 100)%float.
Proof.
  intros text f.
  split; [reflexivity|].
  split; [|split; [|split]; vm_compute; reflexivity].
  destruct (C1_rates_per_10k lower split_tokenize f text "hemingway" eq_refl)
    as [results [Hok [Htotal Hadp]]].
  exists results. split; [exact Hok|].
  assert (Hlen : Z.of_nat (List.length
                   (Binary64.tokenize_text lower split_tokenize text)) = 3200)
    by (vm_compute; reflexivity).
  rewrite Hlen in Htotal, Hadp.
  split; [exact Htotal|].
  destruct (Hadp "across" (or_introl eq_refl)) as [Hcount [Hrate _]].
  destruct (Hadp "beyond") as [_ [Hbeyond _]]; [cbn; tauto|].
  assert (Hacross : occurrences
                      (Binary64.tokenize_text lower split_tokenize text)
                      "across" = 17) by (vm_compute; reflexivity).
  assert (Hnone : occurrences
                    (Binary64.tokenize_text lower split_tokenize text)
                    "beyond" = 0) by (vm_compute; reflexivity).
  rewrite Hacross in Hcount, Hrate. rewrite Hnone in Hbeyond.
  split; [exact Hcount|]. split.
  - exact (proj2 (Hrate eq_refl)).
  - exact (proj2 (Hbeyond eq_refl)).
Defined.

(** ** Tokens *)

(** [lower] changes the capital letters A to Z into their small letters,
    32 code points up, and leaves every other character as it is. *)
Lemma lower_folds (text : string) :
  Forall2
    (fun c c' =>
       let n := nat_of_ascii c in
       nat_of_ascii c'
       = if (Nat.leb 65 n && Nat.leb n 90)%bool then (n + 32)%nat else n)
    (list_ascii_of_string text) (list_ascii_of_string (lower text)).
Proof.
  induction text as [|c text IH]; cbn [lower list_ascii_of_string];
    constructor; [|exact IH].
  unfold lower_ascii, is_upper. cbn zeta.
  destruct (Nat.leb 65 (nat_of_ascii c) && Nat.leb (nat_of_ascii c) 90)%bool
    eqn:Hup; [|reflexivity].
  apply andb_true_iff in Hup. destruct Hup as [_ Hhi].
  apply Nat.leb_le in Hhi. apply nat_ascii_embedding. lia.
Qed.

(** C2 (as the code has it).  The tokens of a document are what the
    tokenizer returns on the lower-cased text, whatever they are; on a
    text of ASCII characters lower-casing changes the capital letters A to
    Z into their small letters and nothing else.  The count of a target
    adposition is the number of tokens equal to it, and [total_words] is
    the number of all tokens. *)
Theorem C2_tokens_counted (str_lower : string -> string)
    (word_tokenize : string -> list string)
    (f : file) (text author : string) :
  contents f = Some text ->
  (forall t, ascii_text t = true -> str_lower t = lower t) ->
  let tokens := word_tokenize (str_lower text) in
  Binary64.tokenize_text str_lower word_tokenize text = tokens
  /\ (ascii_text text = true ->
      Forall2
        (fun c c' =>
           let n := nat_of_ascii c in
           nat_of_ascii c'
           = if (Nat.leb 65 n && Nat.leb n 90)%bool then (n + 32)%nat else n)
        (list_ascii_of_string text)
        (list_ascii_of_string (str_lower text)))
  /\ (forall targets adp, In adp targets ->
        dict_get (count_adpositions tokens targets) adp
        = Some (Z.of_nat (count_occ string_dec tokens adp)))
  /\ exists results : dict Binary64.value,
       Binary64.process_corpus_file str_lower word_tokenize f author
       = Ok results
       /\ dict_get results "total_words"
          = Some (Binary64.VInt (Z.of_nat (List.length tokens)))
       /\ forall adp, In adp TARGET_ADPOSITIONS ->
            dict_get results (adp ++ "_count")%string
            = Some (Binary64.VInt (Z.of_nat (count_occ string_dec tokens adp))).
Proof.
  intros Hread Hlower tokens.
  split; [reflexivity|].
  split; [intros Hascii; rewrite (Hlower _ Hascii); apply lower_folds|].
  split; [intros targets adp Hin; now apply count_adpositions_get|].
  eexists. split; [apply (binary64_corpus_file_record _ _ _ _ _ Hread)|].
  split; [reflexivity|].
  intros adp Hin. each_target Hin; reflexivity.
Qed.

Lemma C2_tokens_counted_witness :
  let f := mkFile "river" (Some "Across, the river.") in
  contents f = Some "Across, the river."
  /\ (forall t, ascii_text t = true -> lower t = lower t)
  /\ Binary64.tokenize_text lower split_tokenize "Across, the river."
     = ["across"; ","; "the"; "river"; "."]
  /\ list_ascii_of_string (lower "Across, the river.")
     = list_ascii_of_string "across, the river."
  /\ exists results : dict Binary64.value,
       Binary64.process_corpus_file lower split_tokenize f "hemingway"
       = Ok results
       /\ dict_get results "total_words" = Some (Binary64.VInt 5)
       /\ dict_get results "across_count" = Some (Binary64.VInt 1).
Proof.
  split; [reflexivity|].
  split; [reflexivity|].
  destruct (C2_tokens_counted lower split_tokenize
              (mkFile "river" (Some "Across, the river."))
              "Across, the river." "hemingway" eq_refl
              (fun t _ => eq_refl))
    as [Htokens [_ [_ [results [Hok [Htotal Hcount]]]]]].
  split; [exact Htokens|].
  split; [reflexivity|].
  exists results. split; [exact Hok|]. split; [exact Htotal|].
  exact (Hcount "across" (or_introl eq_refl)).
Defined.

(** C2 as stated fails where the tokenizer returns a punctuation mark as a
    token: with a tokenizer that does, as [word_tokenize] does, the comma
    and the full stop are tokens and are counted in [total_words]. *)
Lemma C2_punctuation_counterexample :
  let text := "Across, the river." in
  Binary64.tokenize_text lower split_tokenize text
  = ["across"; ","; "the"; "river"; "."]
  /\ spec_word_runs (lower text) = ["across"; "the"; "river"]
  /\ Binary64.tokenize_text lower split_tokenize text
     <> spec_word_runs (lower text)
  /\ Binary64.process_corpus_file lower split_tokenize
       (mkFile "river" (Some text)) "hemingway"
     = Ok [("author", Binary64.VStr "hemingway");
           ("work", Binary64.VStr "river");
           ("total_words", Binary64.VInt 5);
           ("across_count", Binary64.VInt 1);
           ("through_count", Binary64.VInt 0);
           ("along_count", Binary64.VInt 0);
           ("past_count", Binary64.VInt 0);
           ("around_count", Binary64.VInt 0);
           ("beyond_count", Binary64.VInt 0);
           ("across_per_10k", Binary64.VFloat 2000%float);
           ("through_per_10k", Binary64.VFloat 0%float);
           ("along_per_10k", Binary64.VFloat 0%float);
           ("past_per_10k", Binary64.VFloat 0%float);
           ("around_per_10k", Binary64.VFloat 0%float);
           ("beyond_per_10k", Binary64.VFloat 0%float)].
Proof.
  split; [vm_compute; reflexivity|].
  split; [vm_compute; reflexivity|].
  split; [vm_compute; discriminate|].
  vm_compute. reflexivity.
Qed.

(** ** Comparisons of floats *)

Lemma float_zero_not_positive (x : float) :
  (x =? 0)%float = true -> (0 <? x)%float = false.
Proof.
  rewrite FloatAxioms.eqb_spec, FloatAxioms.ltb_spec.
  change (Prim2SF 0) with (S754_zero false).
  destruct (Prim2SF x) as [s|s| |s m e]; try destruct s; cbn; intros H;
    try reflexivity; discriminate.
Qed.

(** A float that is neither zero nor negative is positive or not a
    number. *)
Lemma float_positive_or_nan (x : float) :
  (x =? 0)%float = false -> (x <? 0)%float = false ->
  (0 <? x)%float = true \/ Prim2SF x = S754_nan.
Proof.
  rewrite FloatAxioms.eqb_spec, !FloatAxioms.ltb_spec.
  change (Prim2SF 0) with (S754_zero false).
  destruct (Prim2SF x) as [s|s| |s m e]; try destruct s; cbn; intros H1 H2;
    try discriminate; auto.
Qed.

(** No number is at most the quotient by not-a-number. *)
Lemma float_leb_div_nan (t x y : float) :
  Prim2SF y = S754_nan -> (t <=? x / y)%float = false.
Proof.
  intros Hy. rewrite FloatAxioms.leb_spec, FloatAxioms.div_spec, Hy.
  unfold SF64div. replace (SFdiv prec emax (Prim2SF x) S754_nan) with S754_nan
    by (now destruct (Prim2SF x)).
  now destruct (Prim2SF t).
Qed.

(** ** The comparison to Hemingway *)

Lemma binary64_compare_to_hemingway_In (np_round2 : float -> float)
    (m : Binary64.ComparisonMatrix)
    (entries : list Binary64.HemingwayComparison)
    (c : Binary64.HemingwayComparison) :
  Binary64.compare_to_hemingway np_round2 m = Some entries ->
  In c entries ->
  Binary64.hc_author c <> "hemingway"
  /\ In (Binary64.hc_author c) (Binary64.m_index m)
  /\ In (Binary64.hc_adposition c) (Binary64.m_columns m)
  /\ c = Binary64.compare_cell np_round2 m (Binary64.hc_author c)
                               (Binary64.hc_adposition c).
Proof.
  unfold Binary64.compare_to_hemingway.
  destruct (negb (mem "hemingway" (Binary64.m_index m))); [discriminate|].
  intros [= <-] Hin.
  apply in_flat_map in Hin. destruct Hin as [a [Ha Hin]].
  destruct (String.eqb_spec a "hemingway") as [|Hne]; [contradiction|].
  apply in_map_iff in Hin. destruct Hin as [p [<- Hp]].
  cbn [Binary64.hc_author Binary64.hc_adposition Binary64.compare_cell]. auto.
Qed.

(** C5 (as the code has it).  With a row for Hemingway the comparison is
    built without a fault.  An entry holds the two rates, their difference
    and their ratio, each rounded to two decimals: the ratio is the rounded
    quotient of the two floats when the rate of Hemingway is positive, and
    plus infinity otherwise, in particular when that rate is zero. *)
Theorem C5_difference_and_ratio (np_round2 : float -> float)
    (m : Binary64.ComparisonMatrix) :
  In "hemingway" (Binary64.m_index m) ->
  exists entries : list Binary64.HemingwayComparison,
    Binary64.compare_to_hemingway np_round2 m = Some entries
    /\ forall c, In c entries ->
         let baseline_rate :=
           Binary64.loc m "hemingway" (Binary64.hc_adposition c) in
         let author_rate :=
           Binary64.loc m (Binary64.hc_author c) (Binary64.hc_adposition c) in
         Binary64.hc_author c <> "hemingway"
         /\ Binary64.hemingway_freq c = np_round2 baseline_rate
         /\ Binary64.author_freq c = np_round2 author_rate
         /\ Binary64.difference c
            = np_round2 (author_rate - baseline_rate)%float
         /\ ((0 <? baseline_rate)%float = true ->
             Binary64.ratio c = np_round2 (author_rate / baseline_rate)%float)
         /\ ((0 <? baseline_rate)%float = false ->
             Binary64.ratio c = infinity)
         /\ ((baseline_rate =? 0)%float = true ->
             Binary64.ratio c = infinity).
Proof.
  intros Hhem.
  destruct (Binary64.compare_to_hemingway np_round2 m) as [entries|] eqn:He.
  - exists entries. split; [reflexivity|].
    intros c Hin baseline_rate author_rate.
    destruct (binary64_compare_to_hemingway_In np_round2 m entries c He Hin)
      as [Hne [_ [_ Hc]]].
    split; [exact Hne|].
    rewrite Hc.
    cbn [Binary64.hemingway_freq Binary64.author_freq Binary64.difference
         Binary64.ratio Binary64.compare_cell Binary64.hc_author
         Binary64.hc_adposition].
    fold baseline_rate. fold author_rate.
    split; [reflexivity|]. split; [reflexivity|]. split; [reflexivity|].
    assert (Hinf : (0 <? baseline_rate)%float = false ->
              Binary64.round_scalar np_round2
                (if (0 <? baseline_rate)%float
                 then Binary64.Np (author_rate / baseline_rate)
                 else Binary64.Py infinity) = infinity).
    { intros Hle. rewrite Hle. reflexivity. }
    split; [|split].
    + intros Hpos. now rewrite Hpos.
    + exact Hinf.
    + intros Hzero. apply Hinf. now apply float_zero_not_positive.
  - exfalso. unfold Binary64.compare_to_hemingway in He.
    apply mem_In in Hhem. rewrite Hhem in He. discriminate.
Qed.

Lemma C5_difference_and_ratio_witness :
  let across := Binary64.mkComparison "faulkner" "across" (15 / 10)%float
                  (251 / 100)%float (101 / 100)%float (167 / 100)%float in
  let along := Binary64.mkComparison "faulkner" "along" (8 / 100)%float
                 (47 / 100)%float (39 / 100)%float (587 / 100)%float in
  let past := Binary64.mkComparison "faulkner" "past" 0%float (75 / 100)%float
                (75 / 100)%float infinity in
  In "hemingway" (Binary64.m_index faulkner_hemingway)
  /\ Binary64.compare_to_hemingway Binary64.scaled_round2 faulkner_hemingway
     = Some [across; along; past]
  /\ Binary64.difference across
     = Binary64.scaled_round2 (251 / 100 - 15 / 10)%float
  /\ Binary64.ratio across
     = Binary64.scaled_round2 (251 / 100 / (15 / 10))%float
  /\ Binary64.ratio along
     = Binary64.scaled_round2 (47 / 100 / (8 / 100))%float
  /\ (47 / 100 / (8 / 100) <? 5875 / 1000)%float = true
  /\ Binary64.ratio past = infinity.
Proof.
  intros across along past.
  assert (Hhem : In "hemingway" (Binary64.m_index faulkner_hemingway))
    by (right; left; reflexivity).
  split; [exact Hhem|].
  destruct (C5_difference_and_ratio Binary64.scaled_round2 faulkner_hemingway
              Hhem) as [entries [Hentries Hfields]].
  assert (Hm : Binary64.compare_to_hemingway Binary64.scaled_round2
                 faulkner_hemingway = Some [across; along; past])
    by (vm_compute; reflexivity).
  rewrite Hm in Hentries. injection Hentries as <-.
  split; [reflexivity|].
  destruct (Hfields across (or_introl eq_refl))
    as [_ [_ [_ [Hdiff [Hratio _]]]]].
  destruct (Hfields along (or_intror (or_introl eq_refl)))
    as [_ [_ [_ [_ [Halong _]]]]].
  destruct (Hfields past (or_intror (or_intror (or_introl eq_refl))))
    as [_ [_ [_ [_ [_ [_ Hinf]]]]]].
  split; [exact Hdiff|].
  split; [apply Hratio; vm_compute; reflexivity|].
  split; [apply Halong; vm_compute; reflexivity|].
  split; [vm_compute; reflexivity|].
  apply Hinf. vm_compute. reflexivity.
Defined.

(** C5 as stated fails for the ratio: it is stored rounded, so one third
    is stored as 0.33, whether a NumPy float is rounded by scaling or as
    the built-in [round] does it. *)
Lemma C5_ratio_counterexample :
  Binary64.compare_to_hemingway Binary64.scaled_round2 float_one_to_three
  = Some [Binary64.mkComparison "fitzgerald" "across" 3%float 1%float
            (-2)%float (33 / 100)%float]
  /\ Binary64.compare_to_hemingway Binary64.py_round2 float_one_to_three
     = Some [Binary64.mkComparison "fitzgerald" "across" 3%float 1%float
               (-2)%float (33 / 100)%float]
  /\ (Binary64.loc float_one_to_three "fitzgerald" "across"
      / Binary64.loc float_one_to_three "hemingway" "across")%float
     = (1 / 3)%float
  /\ (33 / 100)%float <> (1 / 3)%float.
Proof.
  split; [vm_compute; reflexivity|].
  split; [vm_compute; reflexivity|].
  split; [vm_compute; reflexivity|].
  intros H. apply (f_equal Prim2SF) in H. vm_compute in H. discriminate.
Qed.

(** ** Distinctive features *)

Lemma binary64_distinctive_cell_In (np_round2 : float -> float)
    (series_mean : list float -> float)
    (m : Binary64.ComparisonMatrix) (threshold : float)
    (author adp : string) (f : Binary64.DistinctiveFeature) :
  let rate := Binary64.loc m author adp in
  let others := Binary64.others_mean series_mean m author adp in
  In f (Binary64.distinctive_cell np_round2 series_mean m threshold author adp)
  <->
  (0 <? others)%float = true
  /\ (threshold <=? rate / others)%float = true
  /\ f = Binary64.mkFeature author adp (np_round2 rate) (np_round2 others)
           (np_round2 (rate / others)%float)
           (if (2 <=? rate / others)%float then "high" else "moderate").
Proof.
  intros rate others. unfold Binary64.distinctive_cell.
  fold rate. fold others.
  destruct (0 <? others)%float.
  - destruct (threshold <=? rate / others)%float; cbn [In].
    + split; [intros [<-|[]]; auto | intros [_ [_ ->]]; now left].
    + split; [contradiction | intros [_ [H _]]; discriminate].
  - cbn [In]. split; [contradiction | intros [H _]; discriminate].
Qed.

Lemma binary64_distinctive_features_In (np_round2 : float -> float)
    (series_mean : list float -> float)
    (m : Binary64.ComparisonMatrix) (threshold : float)
    (f : Binary64.DistinctiveFeature) :
  In f (Binary64.identify_distinctive_features np_round2 series_mean m
          threshold)
  <->
  In (Binary64.df_author f) (Binary64.m_index m)
  /\ In (Binary64.df_adposition f) (Binary64.m_columns m)
  /\ In f (Binary64.distinctive_cell np_round2 series_mean m threshold
             (Binary64.df_author f) (Binary64.df_adposition f)).
Proof.
  unfold Binary64.identify_distinctive_features. rewrite in_flat_map. split.
  - intros [a [Ha Hin]]. apply in_flat_map in Hin.
    destruct Hin as [p [Hp Hin]].
    pose proof (proj1 (binary64_distinctive_cell_In _ _ _ _ _ _ _) Hin)
      as [_ [_ Hf]].
    assert (Hap : Binary64.df_author f = a /\ Binary64.df_adposition f = p)
      by (now rewrite Hf).
    destruct Hap as [-> ->]. auto.
  - intros [Ha [Hp Hin]]. exists (Binary64.df_author f). split; [exact Ha|].
    apply in_flat_map. now exists (Binary64.df_adposition f).
Qed.

(** C4.  For a cell of the matrix, the mean of the others is the mean of
    the column over all rows but the author's.  No feature is emitted for
    the cell when that mean is zero; one is emitted exactly when the mean
    is positive and the unrounded quotient of the cell by it reaches the
    threshold, which for a mean that is neither zero nor negative is
    exactly when the quotient reaches the threshold; its level is "high"
    when the quotient reaches 2 and "moderate" otherwise. *)
Theorem C4_distinctive_features (np_round2 : float -> float)
    (series_mean : list float -> float)
    (m : Binary64.ComparisonMatrix) (threshold : float)
    (author adp : string) :
  In author (Binary64.m_index m) ->
  In adp (Binary64.m_columns m) ->
  let author_rate := Binary64.loc m author adp in
  let others_mean_rate :=
    series_mean
      (map (fun a => Binary64.loc m a adp)
           (filter (fun a => negb (String.eqb a author))
                   (Binary64.m_index m))) in
  let ratio := (author_rate / others_mean_rate)%float in
  let emitted f :=
    In f (Binary64.identify_distinctive_features np_round2 series_mean m
            threshold)
    /\ Binary64.df_author f = author /\ Binary64.df_adposition f = adp in
  ((others_mean_rate =? 0)%float = true -> forall f, ~ emitted f)
  /\ ((exists f, emitted f) <->
      (0 <? others_mean_rate)%float = true
      /\ (threshold <=? ratio)%float = true)
  /\ ((others_mean_rate =? 0)%float = false ->
      (others_mean_rate <? 0)%float = false ->
      ((exists f, emitted f) <-> (threshold <=? ratio)%float = true))
  /\ (forall f, emitted f ->
        Binary64.author_frequency f = np_round2 author_rate
        /\ Binary64.others_mean_frequency f = np_round2 others_mean_rate
        /\ Binary64.df_ratio f = np_round2 ratio
        /\ ((2 <=? ratio)%float = true ->
            Binary64.distinctive_level f = "high")
        /\ ((2 <=? ratio)%float = false ->
            Binary64.distinctive_level f = "moderate")).
Proof.
  intros Hauthor Hadp author_rate others_mean_rate ratio emitted.
  assert (Hemitted : forall f, emitted f <->
            (0 <? others_mean_rate)%float = true
            /\ (threshold <=? ratio)%float = true
            /\ f = Binary64.mkFeature author adp (np_round2 author_rate)
                     (np_round2 others_mean_rate) (np_round2 ratio)
                     (if (2 <=? ratio)%float then "high" else "moderate")).
  { intros f. unfold emitted. rewrite binary64_distinctive_features_In.
    split.
    - intros [[_ [_ Hin]] [Ha Hp]]. rewrite Ha, Hp in Hin.
      now apply binary64_distinctive_cell_In in Hin.
    - intros [Hpos [Hge Hf]].
      assert (Hap : Binary64.df_author f = author
                    /\ Binary64.df_adposition f = adp) by (now rewrite Hf).
      destruct Hap as [Ha Hp]. rewrite Ha, Hp.
      repeat split; try assumption.
      apply binary64_distinctive_cell_In. auto. }
  assert (Hiff : (exists f, emitted f) <->
            (0 <? others_mean_rate)%float = true
            /\ (threshold <=? ratio)%float = true).
  { split.
    - intros [f Hf]. apply Hemitted in Hf. tauto.
    - intros [Hpos Hge]. eexists. apply Hemitted. eauto. }
  split; [|split; [exact Hiff|split]].
  - intros Hzero f Hf. apply Hemitted in Hf. destruct Hf as [Hpos _].
    rewrite (float_zero_not_positive _ Hzero) in Hpos. discriminate.
  - intros Hnonzero Hnonneg. rewrite Hiff.
    split; [tauto|]. intros Hge.
    destruct (float_positive_or_nan _ Hnonzero Hnonneg) as [Hpos|Hnan].
    + now split.
    + exfalso. unfold ratio in Hge.
      rewrite (float_leb_div_nan _ _ _ Hnan) in Hge. discriminate.
  - intros f Hf. apply Hemitted in Hf. destruct Hf as [_ [_ ->]].
    cbn [Binary64.author_frequency Binary64.others_mean_frequency
         Binary64.df_ratio Binary64.distinctive_level].
    repeat split; intros H; now rewrite H.
Qed.

Lemma C4_distinctive_features_witness :
  let anderson := Binary64.mkFeature "anderson" "across" 10%float 2%float
                    5%float "high" in
  In "anderson" (Binary64.m_index float_ten_two_two)
  /\ In "across" (Binary64.m_columns float_ten_two_two)
  /\ Binary64.identify_distinctive_features Binary64.scaled_round2
       Binary64.mean_of float_ten_two_two Binary64.default_threshold
     = [anderson]
  /\ Binary64.others_mean_frequency anderson = 2%float
  /\ Binary64.df_ratio anderson = 5%float
  /\ Binary64.distinctive_level anderson = "high"
  /\ (15 / 100 / (10 / 100) <? 15 / 10)%float = true
  /\ Binary64.identify_distinctive_features Binary64.scaled_round2
       Binary64.mean_of fifteen_to_ten Binary64.default_threshold
     = []
  /\ float_flagged
       (Binary64.identify_distinctive_features Binary64.scaled_round2
          Binary64.mean_of six_one_five Binary64.default_threshold)
     = [("anderson", "across", "moderate")].
Proof.
  intros anderson.
  assert (Hrow : In "anderson" (Binary64.m_index float_ten_two_two))
    by (now left).
  assert (Hcol : In "across" (Binary64.m_columns float_ten_two_two))
    by (now left).
  assert (Hall : Binary64.identify_distinctive_features Binary64.scaled_round2
                   Binary64.mean_of float_ten_two_two
                   Binary64.default_threshold
                 = [anderson]) by (vm_compute; reflexivity).
  split; [exact Hrow|]. split; [exact Hcol|]. split; [exact Hall|].
  destruct (C4_distinctive_features Binary64.scaled_round2 Binary64.mean_of
              float_ten_two_two Binary64.default_threshold
              "anderson" "across" Hrow Hcol) as [_ [_ [_ Hfields]]].
  destruct (Hfields anderson) as [_ [Hmean [Hratio [Hhigh _]]]].
  - rewrite Hall. split; [now left | split; reflexivity].
  - split; [exact Hmean|]. split; [exact Hratio|].
    split; [apply Hhigh; vm_compute; reflexivity|].
    split; [|split]; vm_compute; reflexivity.
Defined.

(** ** Rounding along the pipeline *)

Lemma binary64_author_corpus_from (str_lower : string -> string)
    (word_tokenize : string -> list string)
    (author_name : string) (txt_files : list file)
    (results : list (dict Binary64.value)) :
  fold_left
    (fun results f =>
       let actual_author :=
         if String.eqb author_name "comparables"
         then get_author_from_filename (stem f)
         else author_name in
       match Binary64.process_corpus_file str_lower word_tokenize f
               actual_author with
       | Ok r => results ++ [r]
       | Raise _ => results
       end)
    txt_files results
  = results
    ++ flat_map
         (fun f =>
            match Binary64.process_corpus_file str_lower word_tokenize f
                    (if String.eqb author_name "comparables"
                     then get_author_from_filename (stem f)
                     else author_name) with
            | Ok r => [r]
            | Raise _ => []
            end)
         txt_files.
Proof.
  revert results. induction txt_files as [|f files IH]; intros results.
  - simpl. now rewrite app_nil_r.
  - cbn [fold_left flat_map]. rewrite IH.
    destruct (Binary64.process_corpus_file str_lower word_tokenize f _).
    + now rewrite <- app_assoc.
    + reflexivity.
Qed.

Lemma binary64_author_corpus_In (str_lower : string -> string)
    (word_tokenize : string -> list string)
    (txt_files : list file) (author_name : string)
    (record : dict Binary64.value) :
  In record (Binary64.process_author_corpus str_lower word_tokenize
               txt_files author_name) ->
  exists f author,
    In f txt_files
    /\ Binary64.process_corpus_file str_lower word_tokenize f author
       = Ok record.
Proof.
  unfold Binary64.process_author_corpus.
  rewrite binary64_author_corpus_from.
  cbn [app]. intros Hin. apply in_flat_map in Hin.
  destruct Hin as [f [Hf Hin]].
  destruct (Binary64.process_corpus_file str_lower word_tokenize f _)
    as [r|] eqn:Hr; [|contradiction].
  destruct Hin as [<-|[]]. eauto.
Qed.

(** The row of a work in the raw dataset carries the name of the work,
    and its rate cells are rounded already: each is the rate per 10,000
    words rounded to two decimals, or zero for a work without words. *)
Lemma binary64_record_rate_cell (str_lower : string -> string)
    (word_tokenize : string -> list string)
    (f : file) (author : string) (record : dict Binary64.value) :
  Binary64.process_corpus_file str_lower word_tokenize f author = Ok record ->
  exists text : string,
    contents f = Some text
    /\ Binary64.record_string record "work" = stem f
    /\ forall adp, In adp TARGET_ADPOSITIONS ->
         let tokens := Binary64.tokenize_text str_lower word_tokenize text in
         let total_words := Z.of_nat (List.length tokens) in
         dict_get_default (Binary64.numeric_cells record)
                          (adp ++ "_per_10k") nan
         = if total_words =? 0 then 0%float
           else Binary64.py_round2
                  (SF2Prim (Binary64.quotient (occurrences tokens adp)
                                              total_words)
                   * 10000)%float.
Proof.
  intros Hrecord.
  destruct (contents f) as [text|] eqn:Hread.
  - exists text. split; [reflexivity|].
    rewrite (binary64_corpus_file_record _ _ _ _ _ Hread) in Hrecord.
    injection Hrecord as <-.
    split; [reflexivity|].
    intros adp Hin tokens total_words.
    fold tokens. fold total_words.
    unfold Binary64.stored_rate.
    destruct (total_words =? 0); each_target Hin; reflexivity.
  - unfold Binary64.process_corpus_file, read_text_file in Hrecord.
    rewrite Hread in Hrecord. discriminate.
Qed.

(** Where an entry of the frequency summary comes from. *)
Lemma binary64_frequency_summary_In (np_round2 : float -> float)
    (series_mean series_std series_min series_max : list float -> float)
    (df : Binary64.DataFrame) (targets : list string)
    (e : Binary64.FrequencySummaryEntry) :
  In e (Binary64.create_frequency_summary np_round2 series_mean series_std
          series_min series_max df targets) ->
  let freqs :=
    map (fun r => Binary64.cell r (Binary64.fs_adposition e ++ "_per_10k"))
        (Binary64.rows (Binary64.select_author df (Binary64.fs_author e))) in
  In (Binary64.fs_author e)
     (unique (map Binary64.r_author (Binary64.rows df)))
  /\ In (Binary64.fs_adposition e) targets
  /\ mem (Binary64.fs_adposition e ++ "_per_10k") (Binary64.columns df) = true
  /\ Binary64.mean_frequency e = np_round2 (series_mean freqs)
  /\ Binary64.std_frequency e = np_round2 (series_std freqs)
  /\ Binary64.min_frequency e = np_round2 (series_min freqs)
  /\ Binary64.max_frequency e = np_round2 (series_max freqs).
Proof.
  unfold Binary64.create_frequency_summary. intros Hin.
  apply in_flat_map in Hin. destruct Hin as [author [Hauthor Hin]].
  apply in_flat_map in Hin. destruct Hin as [adp [Hadp Hin]].
  unfold Binary64.frequency_summary_entry in Hin.
  cbn [Binary64.columns Binary64.select_author] in Hin.
  destruct (mem (adp ++ "_per_10k") (Binary64.columns df)) eqn:Hcol;
    [|contradiction].
  destruct Hin as [<-|[]]. cbn. repeat split; assumption.
Qed.

(** With no two rows for the same pair of labels, the cell of a row's pair
    is the row's value. *)
Lemma binary64_lookup_cell_summary (fs : list Binary64.FrequencySummaryEntry)
    (e : Binary64.FrequencySummaryEntry) :
  NoDup (map (fun e => (Binary64.fs_author e, Binary64.fs_adposition e)) fs) ->
  In e fs ->
  Binary64.lookup_cell
    (combine (map (fun e => (Binary64.fs_author e, Binary64.fs_adposition e))
                  fs)
             (map Binary64.mean_frequency fs))
    (Binary64.fs_author e, Binary64.fs_adposition e)
  = Some (Binary64.mean_frequency e).
Proof.
  induction fs as [|e0 fs IH]; intros Hnodup Hin; [contradiction|].
  cbn [map combine Binary64.lookup_cell].
  inversion Hnodup as [|k ks Hnotin Hrest]; subst.
  destruct Hin as [->|Hin].
  - now rewrite (proj2 (key_eqb_eq _ _) eq_refl).
  - destruct (key_eqb (Binary64.fs_author e0, Binary64.fs_adposition e0)
                      (Binary64.fs_author e, Binary64.fs_adposition e)) eqn:Hk.
    + exfalso. apply Hnotin. apply key_eqb_eq in Hk. rewrite Hk.
      apply in_map_iff. now exists e.
    + exact (IH Hrest Hin).
Qed.

(** The matrix of a summary that has an entry, when the pivot succeeds. *)
Lemma binary64_comparison_matrix_Ok
    (fs : list Binary64.FrequencySummaryEntry) (m : Binary64.ComparisonMatrix) :
  Binary64.create_comparison_matrix fs = Ok m ->
  let keys :=
    map (fun e => (Binary64.fs_author e, Binary64.fs_adposition e)) fs in
  NoDup keys
  /\ m = Binary64.mkMatrix (sort_labels (unique (map fst keys)))
                           (sort_labels (unique (map snd keys)))
                           (combine keys (map Binary64.mean_frequency fs)).
Proof.
  intros Hm keys. unfold Binary64.create_comparison_matrix in Hm.
  destruct fs as [|e0 fs]; [discriminate|].
  unfold Binary64.pivot in Hm. fold keys in Hm.
  destruct (has_duplicate keys) eqn:Hdup; [discriminate|].
  apply has_duplicate_NoDup in Hdup. now injection Hm as <-.
Qed.

(** The rankings rank the cells of the matrix. *)
Lemma binary64_insert_ranked_Permutation (x : string * float)
    (l : list (string * float)) :
  Permutation (Binary64.insert_ranked x l) (x :: l).
Proof.
  induction l as [|y l IH]; cbn [Binary64.insert_ranked].
  - reflexivity.
  - destruct (Binary64.ranks_before x y); [reflexivity|].
    rewrite IH. apply perm_swap.
Qed.

Lemma binary64_sort_values_Permutation (l : list (string * float)) :
  Permutation (Binary64.sort_values_descending l) l.
Proof.
  unfold Binary64.sort_values_descending.
  induction l as [|x l IH]; cbn [fold_right].
  - reflexivity.
  - rewrite binary64_insert_ranked_Permutation. now constructor.
Qed.

Lemma binary64_to_dict_from (l : list (string * float)) (d : dict float) :
  NoDup (map fst l) ->
  (forall a, In a l -> ~ In (fst a) (dict_keys d)) ->
  fold_left (fun d '(k, v) => dict_set k v d) l d = d ++ l.
Proof.
  revert d. induction l as [|[k v] l IH]; intros d Hnodup Hfresh;
    cbn [fold_left].
  - now rewrite app_nil_r.
  - cbn [map fst] in Hnodup. inversion Hnodup as [|k' ks Hk Hrest]; subst.
    rewrite dict_set_fresh by (apply (Hfresh (k, v)); now left).
    rewrite IH; [now rewrite <- app_assoc | exact Hrest |].
    intros a Ha. rewrite dict_keys_app, in_app_iff.
    cbn [dict_keys map fst In]. intros [H|[H|[]]].
    + apply (Hfresh a); [now right | exact H].
    + apply Hk. rewrite H. now apply in_map.
Qed.

Lemma binary64_rankings_from_get (m : Binary64.ComparisonMatrix)
    (cols : list string) (d : dict (dict float)) (p : string) :
  In p cols ->
  dict_get
    (fold_left
       (fun rankings adposition =>
          dict_set adposition
            (Binary64.to_dict
               (Binary64.sort_values_descending
                  (map (fun a => (a, Binary64.loc m a adposition))
                       (Binary64.m_index m))))
            rankings)
       cols d) p
  = Some (Binary64.to_dict
            (Binary64.sort_values_descending
               (map (fun a => (a, Binary64.loc m a p)) (Binary64.m_index m)))).
Proof.
  revert d. induction cols as [|c cols IH]; intros d Hin; [contradiction|].
  cbn [fold_left].
  destruct (in_dec string_dec p cols) as [Hp|Hp].
  - now apply IH.
  - destruct Hin as [->|Hin]; [|contradiction].
    clear IH. generalize (dict_get_set_eq d p
      (Binary64.to_dict
         (Binary64.sort_values_descending
            (map (fun a => (a, Binary64.loc m a p)) (Binary64.m_index m))))).
    generalize (dict_set p
      (Binary64.to_dict
         (Binary64.sort_values_descending
            (map (fun a => (a, Binary64.loc m a p)) (Binary64.m_index m))))
      d).
    induction cols as [|c cols IH]; intros d' Hd'; [exact Hd'|].
    cbn [fold_left]. apply IH.
    + intros H. apply Hp. now right.
    + rewrite dict_get_set_ne; [exact Hd'|].
      intros ->. apply Hp. now left.
Qed.

(** With distinct row labels, the ranking of a column holds every author
    of the matrix with the author's cell. *)
Lemma binary64_rankings_cells (m : Binary64.ComparisonMatrix) (adp : string) :
  NoDup (Binary64.m_index m) ->
  In adp (Binary64.m_columns m) ->
  exists ranking : dict float,
    dict_get (Binary64.calculate_author_rankings m) adp = Some ranking
    /\ Permutation ranking
         (map (fun a => (a, Binary64.loc m a adp)) (Binary64.m_index m))
    /\ forall author, In author (Binary64.m_index m) ->
         dict_get ranking author = Some (Binary64.loc m author adp).
Proof.
  intros Hnodup Hin. unfold Binary64.calculate_author_rankings.
  rewrite (binary64_rankings_from_get m _ _ adp Hin).
  pose proof (binary64_sort_values_Permutation
                (map (fun a => (a, Binary64.loc m a adp))
                     (Binary64.m_index m))) as Hperm.
  assert (Hkeys : NoDup (map fst (Binary64.sort_values_descending
                    (map (fun a => (a, Binary64.loc m a adp))
                         (Binary64.m_index m))))).
  { apply (Permutation_NoDup (Permutation_sym (Permutation_map fst Hperm))).
    rewrite map_map. cbn [fst]. now rewrite map_id. }
  unfold Binary64.to_dict.
  rewrite (binary64_to_dict_from _ [] Hkeys) by (intros a _ []).
  cbn [app].
  eexists. split; [reflexivity|]. split; [exact Hperm|].
  intros author Hauthor.
  assert (Hentry : In (author, Binary64.loc m author adp)
                      (Binary64.sort_values_descending
                         (map (fun a => (a, Binary64.loc m a adp))
                              (Binary64.m_index m)))).
  { apply (Permutation_in _ (Permutation_sym Hperm)).
    apply in_map_iff. now exists author. }
  revert Hkeys Hentry.
  generalize (Binary64.sort_values_descending
                (map (fun a => (a, Binary64.loc m a adp))
                     (Binary64.m_index m))).
  intros l. induction l as [|[k v] l IH]; intros Hkeys Hentry;
    [contradiction|].
  cbn [dict_get]. cbn [map fst] in Hkeys.
  inversion Hkeys as [|k' ks Hk Hrest]; subst.
  destruct Hentry as [[= -> ->]|Hentry].
  - now rewrite String.eqb_refl.
  - destruct (String.eqb_spec k author) as [->|_].
    + exfalso. apply Hk. apply in_map_iff.
      now exists (author, Binary64.loc m author adp).
    + now apply IH.
Qed.

(** C7 (as the code has it).  The detector compares the unrounded quotient
    of a cell by the mean of the others with the threshold and rounds the
    quotient only in the record it emits, and the rankings rank the cells
    as they are; but the cells are rounded values: each is the mean,
    rounded to two decimals, of per-work rates that were rounded to two
    decimals when the raw dataset was built from the tokens of the work. *)
Theorem C7_comparisons_on_rounded_rates (np_round2 : float -> float)
    (series_mean series_std series_min series_max : list float -> float)
    (str_lower : string -> string) (word_tokenize : string -> list string)
    (hemingway comparables : list file) (m : Binary64.ComparisonMatrix)
    (threshold : float) :
  Binary64.corpus_matrix np_round2 series_mean series_std series_min
    series_max str_lower word_tokenize hemingway comparables = Ok m ->
  let df :=
    Binary64.frame_of_records
      (Binary64.extract_main str_lower word_tokenize hemingway comparables) in
  (forall r, In r (Binary64.rows df) ->
     exists (f : file) (text : string),
       In f (hemingway ++ comparables)
       /\ contents f = Some text
       /\ Binary64.r_work r = stem f
       /\ forall adp, In adp TARGET_ADPOSITIONS ->
            let tokens :=
              Binary64.tokenize_text str_lower word_tokenize text in
            let total_words := Z.of_nat (List.length tokens) in
            Binary64.cell r (adp ++ "_per_10k")
            = if total_words =? 0 then 0%float
              else Binary64.py_round2
                     (SF2Prim (Binary64.quotient (occurrences tokens adp)
                                                 total_words)
                      * 10000)%float)
  /\ (forall e,
        In e (Binary64.create_frequency_summary np_round2 series_mean
                series_std series_min series_max df TARGET_ADPOSITIONS) ->
        Binary64.loc m (Binary64.fs_author e) (Binary64.fs_adposition e)
        = np_round2
            (series_mean
               (map (fun r =>
                       Binary64.cell r (Binary64.fs_adposition e ++ "_per_10k"))
                    (Binary64.rows
                       (Binary64.select_author df (Binary64.fs_author e))))))
  /\ (forall f,
        In f (Binary64.identify_distinctive_features np_round2 series_mean m
                threshold) ->
        let rate :=
          Binary64.loc m (Binary64.df_author f) (Binary64.df_adposition f) in
        let others :=
          series_mean
            (map (fun a => Binary64.loc m a (Binary64.df_adposition f))
                 (filter (fun a => negb (String.eqb a (Binary64.df_author f)))
                         (Binary64.m_index m))) in
        (threshold <=? rate / others)%float = true
        /\ Binary64.df_ratio f = np_round2 (rate / others)%float)
  /\ (forall adp, In adp (Binary64.m_columns m) ->
        exists ranking : dict float,
          dict_get (Binary64.calculate_author_rankings m) adp = Some ranking
          /\ forall author, In author (Binary64.m_index m) ->
               dict_get ranking author = Some (Binary64.loc m author adp)).
Proof.
  intros Hm df. unfold Binary64.corpus_matrix in Hm. fold df in Hm.
  destruct (binary64_comparison_matrix_Ok _ _ Hm) as [Hdup Hmatrix].
  assert (Hindex : NoDup (Binary64.m_index m)).
  { rewrite Hmatrix. cbn [Binary64.m_index].
    apply sort_labels_NoDup, unique_NoDup. }
  assert (Hrankings :
            forall adp, In adp (Binary64.m_columns m) ->
              exists ranking : dict float,
                dict_get (Binary64.calculate_author_rankings m) adp
                = Some ranking
                /\ forall author, In author (Binary64.m_index m) ->
                     dict_get ranking author
                     = Some (Binary64.loc m author adp)).
  { intros adp Hadp.
    destruct (binary64_rankings_cells m adp Hindex Hadp)
      as [ranking [Hget [_ Hcells]]].
    now exists ranking. }
  clear Hindex. subst m.
  split; [|split; [|split; [|exact Hrankings]]].
  - intros r Hr. unfold df, Binary64.frame_of_records in Hr.
    cbn [Binary64.rows] in Hr.
    apply in_map_iff in Hr. destruct Hr as [record [<- Hrecord]].
    unfold Binary64.cell. cbn [Binary64.r_cells Binary64.r_work].
    unfold Binary64.extract_main in Hrecord. apply in_app_or in Hrecord.
    destruct Hrecord as [Hrecord|Hrecord];
      apply binary64_author_corpus_In in Hrecord;
      destruct Hrecord as [f [author [Hf Hrecord]]];
      destruct (binary64_record_rate_cell _ _ _ _ _ Hrecord)
        as [text [Hread [Hwork Hcells]]];
      exists f, text;
      (split; [apply in_or_app; auto|]);
      (split; [exact Hread|]); (split; [exact Hwork|]); exact Hcells.
  - intros e He. unfold Binary64.loc. cbn [Binary64.m_cells].
    rewrite (binary64_lookup_cell_summary _ e Hdup He).
    now destruct (binary64_frequency_summary_In _ _ _ _ _ _ _ _ He)
      as [_ [_ [_ [Hmean _]]]].
  - intros f Hf. apply binary64_distinctive_features_In in Hf.
    destruct Hf as [_ [_ Hf]]. apply binary64_distinctive_cell_In in Hf.
    destruct Hf as [_ [Hge Hf]]. split; [exact Hge|].
    rewrite Hf at 1. reflexivity.
Qed.

Lemma C7_comparisons_on_rounded_rates_witness :
  Binary64.corpus_matrix Binary64.scaled_round2 Binary64.mean_of
    Binary64.std_of Binary64.min_of Binary64.max_of lower split_tokenize
    [short_work] [long_work]
  = Ok float_two_works_matrix
  /\ Binary64.loc float_two_works_matrix "hemingway" "across"
     = (1453 / 100)%float
  /\ Binary64.loc float_two_works_matrix "John Steinbeck" "across"
     = (969 / 100)%float
  /\ Binary64.py_round2 (SF2Prim (Binary64.quotient 1 688) * 10000)%float
     = (1453 / 100)%float
  /\ map Binary64.mean_frequency
         (Binary64.create_frequency_summary Binary64.scaled_round2
            Binary64.mean_of Binary64.std_of Binary64.min_of Binary64.max_of
            ten_eleven ["across"])
     = [(11 / 100)%float]
  /\ Binary64.identify_distinctive_features Binary64.scaled_round2
       Binary64.mean_of float_two_works_matrix 1%float
     = [Binary64.mkFeature "hemingway" "across" (1453 / 100)%float
          (969 / 100)%float (15 / 10)%float "moderate"]
  /\ (1 <=? 1453 / 100 / (969 / 100))%float = true
  /\ dict_get (Binary64.calculate_author_rankings float_two_works_matrix)
              "across"
     = Some [("hemingway", (1453 / 100)%float);
             ("John Steinbeck", (969 / 100)%float)].
Proof.
  assert (Hm : Binary64.corpus_matrix Binary64.scaled_round2 Binary64.mean_of
                 Binary64.std_of Binary64.min_of Binary64.max_of lower
                 split_tokenize [short_work] [long_work]
               = Ok float_two_works_matrix) by (vm_compute; reflexivity).
  split; [exact Hm|].
  split; [vm_compute; reflexivity|]. split; [vm_compute; reflexivity|].
  split; [vm_compute; reflexivity|]. split; [vm_compute; reflexivity|].
  assert (Hall : Binary64.identify_distinctive_features Binary64.scaled_round2
                   Binary64.mean_of float_two_works_matrix 1%float
                 = [Binary64.mkFeature "hemingway" "across" (1453 / 100)%float
                      (969 / 100)%float (15 / 10)%float "moderate"])
    by (vm_compute; reflexivity).
  split; [exact Hall|].
  destruct (C7_comparisons_on_rounded_rates Binary64.scaled_round2
              Binary64.mean_of Binary64.std_of Binary64.min_of Binary64.max_of
              lower split_tokenize [short_work] [long_work]
              float_two_works_matrix 1%float Hm)
    as [_ [_ [Hfeatures _]]].
  destruct (Hfeatures (Binary64.mkFeature "hemingway" "across"
                         (1453 / 100)%float (969 / 100)%float (15 / 10)%float
                         "moderate")) as [Hge _].
  - rewrite Hall. now left.
  - split; [exact Hge | vm_compute; reflexivity].
Defined.

(** C7 as stated fails.  With one occurrence in 688 words against two in
    2065, the unrounded rates 14.534883720930232 and 9.685230024213075 have
    the quotient 1.5007 and the specification flags Hemingway's "across";
    the matrix holds 14.53 and 9.69, whose quotient is below 1.5, and the
    detector emits nothing. *)
Lemma C7_rounding_counterexample :
  float_flagged
    (Binary64.identify_distinctive_features Binary64.scaled_round2
       Binary64.mean_of (float_spec_matrix Binary64.mean_of two_works)
       Binary64.default_threshold)
  = [("hemingway", "across", "moderate")]
  /\ Binary64.corpus_matrix Binary64.scaled_round2 Binary64.mean_of
       Binary64.std_of Binary64.min_of Binary64.max_of lower split_tokenize
       [short_work] [long_work]
     = Ok float_two_works_matrix
  /\ Binary64.identify_distinctive_features Binary64.scaled_round2
       Binary64.mean_of float_two_works_matrix Binary64.default_threshold
     = []
  /\ Binary64.corpus_matrix Binary64.py_round2 Binary64.mean_of
       Binary64.std_of Binary64.min_of Binary64.max_of lower split_tokenize
       [short_work] [long_work]
     = Ok float_two_works_matrix
  /\ Binary64.identify_distinctive_features Binary64.py_round2
       Binary64.mean_of float_two_works_matrix Binary64.default_threshold
     = [].
Proof.
  split; [vm_compute; reflexivity|].
  split; [vm_compute; reflexivity|].
  split; [vm_compute; reflexivity|].
  split; vm_compute; reflexivity.
Qed.

(** ** Normalisation for any word count *)

Lemma binary64_normalize_zero_from (counts : dict Z)
    (d : dict Binary64.value) :
  fold_left (fun d '(adp, _) => dict_set adp (Binary64.VInt 0) d) counts d
  = fold_left (fun d (a : string * Z) =>
                 dict_set (fst a) (Binary64.VInt 0) d) counts d.
Proof.
  revert d. induction counts as [|[adp c] counts IH]; intros d;
    cbn [fold_left fst]; [reflexivity | apply IH].
Qed.

Lemma py_truediv_raises (a b : Z) (e : exn) :
  b <> 0 -> Binary64.py_truediv a b = Raise e -> e = OverflowError.
Proof.
  intros Hb. unfold Binary64.py_truediv.
  apply Z.eqb_neq in Hb. rewrite Hb.
  destruct (Binary64.representable _); [discriminate|].
  now intros [= <-].
Qed.

Lemma py_float_raises (n : Z) (e : exn) :
  Binary64.py_float n = Raise e -> e = OverflowError.
Proof.
  unfold Binary64.py_float.
  destruct (binary_normalize prec emax n 0 false); try discriminate.
  now intros [= <-].
Qed.

Lemma binary64_normalize_raises (counts : dict Z)
    (total_words per_n_words : Z) (d : dict Binary64.value) (e : exn) :
  total_words <> 0 ->
  foldM (fun d '(adp, count) =>
           q <- Binary64.py_truediv count total_words ;;
           n <- Binary64.py_float per_n_words ;;
           Ok (dict_set adp (Binary64.VFloat (q * n)%float) d))
        counts d = Raise e ->
  e = OverflowError.
Proof.
  intros Hzero. revert d.
  induction counts as [|[adp c] counts IH]; intros d; cbn [foldM];
    [discriminate|].
  destruct (Binary64.py_truediv c total_words) as [q|e'] eqn:Hq; cbn [bind].
  - destruct (Binary64.py_float per_n_words) as [n|e'] eqn:Hn; cbn [bind].
    + apply IH.
    + intros [= <-]. exact (py_float_raises _ _ Hn).
  - intros [= <-]. exact (py_truediv_raises _ _ _ Hzero Hq).
Qed.

Lemma binary64_normalize_from (counts : dict Z)
    (total_words per_n_words : Z) (n : float) (d : dict Binary64.value) :
  total_words <> 0 ->
  (forall a, In a counts ->
     Binary64.representable (Binary64.quotient (snd a) total_words) = true) ->
  Binary64.py_float per_n_words = Ok n ->
  foldM (fun d '(adp, count) =>
           q <- Binary64.py_truediv count total_words ;;
           n <- Binary64.py_float per_n_words ;;
           Ok (dict_set adp (Binary64.VFloat (q * n)%float) d))
        counts d
  = Ok (fold_left
          (fun d (a : string * Z) =>
             dict_set (fst a)
               (Binary64.VFloat
                  (SF2Prim (Binary64.quotient (snd a) total_words) * n)%float)
               d)
          counts d).
Proof.
  intros Hzero Hq Hn.
  match goal with |- context [foldM ?f _ _] => set (step := f) end.
  revert d.
  induction counts as [|[adp c] counts IH]; intros d;
    cbn [foldM fold_left fst snd]; [reflexivity|].
  unfold step at 1. unfold Binary64.py_truediv.
  replace (total_words =? 0) with false by (symmetry; now apply Z.eqb_neq).
  pose proof (Hq (adp, c) (or_introl eq_refl)) as Hc. cbn [snd] in Hc.
  rewrite Hc, Hn. cbn [bind].
  apply IH. intros a Ha. apply Hq. now right.
Qed.

(** [normalize_frequency] never raises [ZeroDivisionError]: whatever the
    word count, its only exception is [OverflowError], for a quotient or a
    [per_n_words] beyond the range of floats.  It returns the keys of the
    counts in their order, each with the integer 0 when the work has no
    words, and otherwise with the float quotient of the count by the word
    count multiplied by the float of [per_n_words]. *)
Theorem normalize_frequency_total (counts : dict Z)
    (total_words per_n_words : Z) :
  NoDup (dict_keys counts) ->
  (forall e,
     Binary64.normalize_frequency counts total_words per_n_words = Raise e ->
     e = OverflowError)
  /\ (total_words = 0 ->
      Binary64.normalize_frequency counts total_words per_n_words
      = Ok (map (fun a : string * Z => (fst a, Binary64.VInt 0)) counts))
  /\ (total_words <> 0 ->
      (forall a, In a counts ->
         Binary64.representable (Binary64.quotient (snd a) total_words)
         = true) ->
      forall n : float,
        Binary64.py_float per_n_words = Ok n ->
        Binary64.normalize_frequency counts total_words per_n_words
        = Ok (map (fun a : string * Z =>
                     (fst a,
                      Binary64.VFloat
                        (SF2Prim (Binary64.quotient (snd a) total_words)
                         * n)%float))
                  counts)).
Proof.
  intros Hnodup. unfold Binary64.normalize_frequency.
  split; [|split].
  - intros e. destruct (total_words =? 0) eqn:Hzero; [discriminate|].
    apply binary64_normalize_raises. now apply Z.eqb_neq.
  - intros ->. cbn [Z.eqb]. f_equal.
    rewrite binary64_normalize_zero_from.
    rewrite (fold_dict_set_fresh fst (fun _ => Binary64.VInt 0));
      [reflexivity | exact Hnodup | intros a _ []].
  - intros Hzero Hq n Hn.
    replace (total_words =? 0) with false by (symmetry; now apply Z.eqb_neq).
    rewrite (binary64_normalize_from _ _ _ n _ Hzero Hq Hn). f_equal.
    rewrite (fold_dict_set_fresh fst
               (fun a => Binary64.VFloat
                           (SF2Prim (Binary64.quotient (snd a) total_words)
                            * n)%float));
      [reflexivity | exact Hnodup | intros a _ []].
Qed.

Lemma normalize_frequency_total_witness :
  NoDup (dict_keys [("across", 3); ("past", 0)])
  /\ Binary64.normalize_frequency [("across", 3); ("past", 0)] 10000 10000
     = Ok [("across", Binary64.VFloat (SF2Prim (Binary64.quotient 3 10000)
                                       * 10000)%float);
           ("past", Binary64.VFloat 0%float)]
  /\ (SF2Prim (Binary64.quotient 3 10000) * 10000 <? 3)%float = true
  /\ Binary64.normalize_frequency [("across", 3); ("past", 0)] 0 10000
     = Ok [("across", Binary64.VInt 0); ("past", Binary64.VInt 0)]
  /\ Binary64.normalize_frequency [("across", 10 ^ 400)] 1 10000
     = Raise OverflowError
  /\ Binary64.normalize_frequency [("across", 1)] 2 (10 ^ 400)
     = Raise OverflowError.
Proof.
  assert (Hnodup : NoDup (dict_keys [("across", 3); ("past", 0)])).
  { repeat constructor; cbn [In]; intros H;
      repeat (destruct H as [H|H]; [discriminate|]); exact H. }
  split; [exact Hnodup|].
  destruct (normalize_frequency_total [("across", 3); ("past", 0)]
              10000 10000 Hnodup) as [_ [_ Hrates]].
  destruct (normalize_frequency_total [("across", 3); ("past", 0)]
              0 10000 Hnodup) as [_ [Hzero _]].
  split; [|split; [|split; [|split]]].
  - apply Hrates.
    + discriminate.
    + intros a [<-|[<-|[]]]; vm_compute; reflexivity.
    + reflexivity.
  - vm_compute. reflexivity.
  - apply Hzero. reflexivity.
  - vm_compute. reflexivity.
  - vm_compute. reflexivity.
Defined.

(** ** From the frequency summary to the matrix *)

(** The pairs of labels of the frequency summary: every distinct author
    with every target adposition whose rate column exists. *)
Lemma binary64_frequency_summary_keys (np_round2 : float -> float)
    (series_mean series_std series_min series_max : list float -> float)
    (df : Binary64.DataFrame) (targets : list string) :
  map (fun e => (Binary64.fs_author e, Binary64.fs_adposition e))
      (Binary64.create_frequency_summary np_round2 series_mean series_std
         series_min series_max df targets)
  = list_prod (unique (map Binary64.r_author (Binary64.rows df)))
              (filter (fun adp => mem (adp ++ "_per_10k")
                                      (Binary64.columns df))
                      targets).
Proof.
  unfold Binary64.create_frequency_summary.
  induction (unique (map Binary64.r_author (Binary64.rows df)))
    as [|a authors IH].
  - reflexivity.
  - cbn [flat_map list_prod]. rewrite map_app, IH. f_equal.
    clear IH. induction targets as [|p targets IHt]; [reflexivity|].
    cbn [flat_map filter]. rewrite map_app, IHt.
    unfold Binary64.frequency_summary_entry at 1.
    cbn [Binary64.columns Binary64.select_author].
    destruct (mem (p ++ "_per_10k") (Binary64.columns df)); reflexivity.
Qed.

(** The pivot of the frequency summary of a dataset, for distinct target
    adpositions.  When the dataset has no row, or the rate column of no
    target adposition, the summary is the frame without columns and the
    pivot raises [KeyError].  Otherwise the pivot succeeds: the matrix has
    a row for every author of the dataset and a column for every target
    adposition whose rate column exists, and the cell is the rounded mean
    of the author's rates. *)
Theorem pivot_of_the_summary_succeeds (np_round2 : float -> float)
    (series_mean series_std series_min series_max : list float -> float)
    (df : Binary64.DataFrame) (targets : list string) :
  NoDup targets ->
  let summary :=
    Binary64.create_frequency_summary np_round2 series_mean series_std
      series_min series_max df targets in
  (Binary64.rows df = []
   \/ (forall adp, In adp targets ->
         mem (adp ++ "_per_10k") (Binary64.columns df) = false) ->
   Binary64.create_comparison_matrix summary = Raise (KeyError "author"))
  /\ forall r adp,
       In r (Binary64.rows df) -> In adp targets ->
       mem (adp ++ "_per_10k") (Binary64.columns df) = true ->
       exists m : Binary64.ComparisonMatrix,
         Binary64.create_comparison_matrix summary = Ok m
         /\ In (Binary64.r_author r) (Binary64.m_index m)
         /\ In adp (Binary64.m_columns m)
         /\ Binary64.loc m (Binary64.r_author r) adp
            = np_round2
                (series_mean
                   (map (fun r' => Binary64.cell r' (adp ++ "_per_10k"))
                        (Binary64.rows
                           (Binary64.select_author df
                              (Binary64.r_author r))))).
Proof.
  intros Hnodup summary.
  pose proof (binary64_frequency_summary_keys np_round2 series_mean
                series_std series_min series_max df targets) as Hkeys.
  fold summary in Hkeys.
  assert (Hdistinct :
            NoDup (map (fun e => (Binary64.fs_author e,
                                  Binary64.fs_adposition e)) summary)).
  { rewrite Hkeys.
    apply NoDup_list_prod; [apply unique_NoDup | now apply NoDup_filter]. }
  split.
  - intros Hempty.
    assert (Hnokeys : map (fun e => (Binary64.fs_author e,
                                     Binary64.fs_adposition e)) summary = []).
    { rewrite Hkeys. destruct Hempty as [Hrows|Hcols].
      - now rewrite Hrows.
      - assert (Hfilter : filter (fun adp => mem (adp ++ "_per_10k")
                                               (Binary64.columns df))
                                 targets = []).
        { clear Hnodup summary Hkeys Hdistinct.
          induction targets as [|p targets IH]; [reflexivity|].
          cbn [filter]. rewrite (Hcols p (or_introl eq_refl)).
          apply IH. intros adp Hadp. apply Hcols. now right. }
        rewrite Hfilter. clear.
        induction (unique (map Binary64.r_author (Binary64.rows df)))
          as [|a l IH]; [reflexivity | exact IH]. }
    destruct summary; [reflexivity | discriminate].
  - intros r adp Hr Hadp Hcol.
    assert (Hpair : In (Binary64.r_author r, adp)
                       (map (fun e => (Binary64.fs_author e,
                                       Binary64.fs_adposition e)) summary)).
    { rewrite Hkeys. apply in_prod.
      - apply unique_In, in_map_iff. now exists r.
      - apply filter_In. now split. }
    apply in_map_iff in Hpair. destruct Hpair as [e [[= Ha Hp] He]].
    assert (Hok : Binary64.create_comparison_matrix summary
                  = Binary64.pivot
                      (map (fun e => (Binary64.fs_author e,
                                      Binary64.fs_adposition e)) summary)
                      (map Binary64.mean_frequency summary)).
    { unfold Binary64.create_comparison_matrix.
      destruct summary; [contradiction | reflexivity]. }
    rewrite Hok. unfold Binary64.pivot.
    rewrite (proj2 (has_duplicate_NoDup _) Hdistinct).
    eexists. split; [reflexivity|].
    cbn [Binary64.m_index Binary64.m_columns]. split; [|split].
    + apply sort_labels_In, unique_In. rewrite map_map. cbn [fst].
      apply in_map_iff. now exists e.
    + apply sort_labels_In, unique_In. rewrite map_map. cbn [snd].
      apply in_map_iff. now exists e.
    + unfold Binary64.loc. cbn [Binary64.m_cells]. rewrite <- Ha, <- Hp.
      rewrite (binary64_lookup_cell_summary _ e Hdistinct He).
      now destruct (binary64_frequency_summary_In _ _ _ _ _ _ _ _ He)
        as [_ [_ [_ [Hmean _]]]].
Qed.

Lemma pivot_of_the_summary_succeeds_witness :
  NoDup ["across"]
  /\ (exists m : Binary64.ComparisonMatrix,
        Binary64.create_comparison_matrix
          (Binary64.create_frequency_summary Binary64.scaled_round2
             Binary64.mean_of Binary64.std_of Binary64.min_of Binary64.max_of
             float_two_authors ["across"]) = Ok m
        /\ Binary64.loc m "hemingway" "across" = 2%float)
  /\ Binary64.create_comparison_matrix
       (Binary64.create_frequency_summary Binary64.scaled_round2
          Binary64.mean_of Binary64.std_of Binary64.min_of Binary64.max_of
          float_no_rows ["across"])
     = Raise (KeyError "author").
Proof.
  assert (Hnodup : NoDup ["across"]).
  { repeat constructor. intros []. }
  split; [exact Hnodup|].
  destruct (pivot_of_the_summary_succeeds Binary64.scaled_round2
              Binary64.mean_of Binary64.std_of Binary64.min_of Binary64.max_of
              float_two_authors ["across"] Hnodup) as [_ Hcells].
  destruct (pivot_of_the_summary_succeeds Binary64.scaled_round2
              Binary64.mean_of Binary64.std_of Binary64.min_of Binary64.max_of
              float_no_rows ["across"] Hnodup) as [Hempty _].
  split.
  - destruct (Hcells (Binary64.mkRow "hemingway" "one"
                        [("total_words", 10000%float);
                         ("across_count", 1%float);
                         ("across_per_10k", 1%float)]) "across"
                (or_introl eq_refl) (or_introl eq_refl) eq_refl)
      as [m [Hm [_ [_ Hcell]]]].
    exists m. split; [exact Hm | exact Hcell].
  - apply Hempty. left. reflexivity.
Defined.
